(** * Press-ethics analyzer: the analysis pipeline and its citation corrector

    A shallow embedding of
      - [multimodal_rag_langgraph_gemini.py]    (the LangGraph pipeline),
      - [multimodal_rag_langgraph_gemini_st.py] (the Streamlit pipeline),
      - [news_text_scraper.py]                  (the article extractor),
    followed by the properties of these programs.

    Python [str] values are sequences of Unicode code points, so a string is
    a [list N]; literals are written as UTF-8 text and decoded once.
    Calls that leave the process (HTTP, the generative model, the vector
    index, the image library) are functions of a [World] record; what a
    stage asks of the world is recorded in an event log. *)

From Stdlib Require Import String Ascii DecimalString.
From Stdlib Require Import List NArith PeanoNat Bool Lia.
Import ListNotations.

Set Implicit Arguments.

(* ================================================================== *)
(** * Python strings                                                   *)
(* ================================================================== *)

Module Py.

Definition char := N.
Definition str := list char.

(** UTF-8 decoding of a source literal into code points.  [need] counts the
    continuation bytes still expected, [acc] holds the bits read so far. *)
Fixpoint utf8 (need : nat) (acc : N) (bs : string) : str :=
  match bs with
  | EmptyString => []
  | String a bs' =>
      let b := N_of_ascii a in
      match need with
      | O =>
          if (b <? 128)%N then b :: utf8 0 0%N bs'
          else if (b <? 224)%N then utf8 1 (N.land b 31) bs'
          else if (b <? 240)%N then utf8 2 (N.land b 15) bs'
          else utf8 3 (N.land b 7) bs'
      | S n =>
          let acc' := (acc * 64 + N.land b 63)%N in
          match n with
          | O => acc' :: utf8 0 0%N bs'
          | _ => utf8 n acc' bs'
          end
      end
  end.

Definition u (s : string) : str := utf8 0 0%N s.

(** The double quote, for literals that contain one. *)
Definition dq : string := String "034" EmptyString.

Definition NL : char := 10%N.

Definition str_eqb (a b : str) : bool :=
  if list_eq_dec N.eq_dec a b then true else false.

(** [s.startswith(p)] *)
Fixpoint startswith (p s : str) : bool :=
  match p, s with
  | [], _ => true
  | _ :: _, [] => false
  | a :: p', b :: s' => (a =? b)%N && startswith p' s'
  end.

(** [sub in s] *)
Fixpoint contains (sub s : str) : bool :=
  startswith sub s ||
  match s with
  | [] => false
  | _ :: s' => contains sub s'
  end.

(** [s.split(sep)] for a one-character separator. *)
Fixpoint split (sep : char) (s : str) : list str :=
  match s with
  | [] => [[]]
  | c :: s' =>
      if (c =? sep)%N then [] :: split sep s'
      else match split sep s' with
           | [] => [[c]]
           | l :: ls => (c :: l) :: ls
           end
  end.

(** [sep.join(parts)] *)
Fixpoint join (sep : str) (parts : list str) : str :=
  match parts with
  | [] => []
  | [p] => p
  | p :: ps => p ++ sep ++ join sep ps
  end.

(** [s[:n]] *)
Definition slice_to (n : nat) (s : str) : str := firstn n s.

(** [str.isspace] of one character: the code points Python strips. *)
Definition is_space (c : char) : bool :=
  ((9 <=? c) && (c <=? 13) || (28 <=? c) && (c <=? 32)
   || (c =? 133) || (c =? 160) || (c =? 5760)
   || (8192 <=? c) && (c <=? 8202)
   || (c =? 8232) || (c =? 8233) || (c =? 8239) || (c =? 8287)
   || (c =? 12288))%N.

Fixpoint lstrip (s : str) : str :=
  match s with
  | c :: s' => if is_space c then lstrip s' else s
  | [] => []
  end.

(** [s.strip()] *)
Definition strip (s : str) : str := rev (lstrip (rev (lstrip s))).

(** First code point of every block of ten decimal digits (Unicode
    category Nd, Unicode 14): what [\d] matches in a [str] pattern. *)
Definition DECIMAL_BLOCKS : list N :=
  [0x30; 0x660; 0x6F0; 0x7C0; 0x966; 0x9E6; 0xA66; 0xAE6; 0xB66; 0xBE6;
   0xC66; 0xCE6; 0xD66; 0xDE6; 0xE50; 0xED0; 0xF20; 0x1040; 0x1090; 0x17E0;
   0x1810; 0x1946; 0x19D0; 0x1A80; 0x1A90; 0x1B50; 0x1BB0; 0x1C40; 0x1C50;
   0xA620; 0xA8D0; 0xA900; 0xA9D0; 0xA9F0; 0xAA50; 0xABF0; 0xFF10; 0x104A0;
   0x10D30; 0x11066; 0x110F0; 0x11136; 0x111D0; 0x112F0; 0x11450; 0x114D0;
   0x11650; 0x116C0; 0x11730; 0x118E0; 0x11950; 0x11C50; 0x11D50; 0x11DA0;
   0x16A60; 0x16AC0; 0x16B50; 0x1D7CE; 0x1D7D8; 0x1D7E2; 0x1D7EC; 0x1D7F6;
   0x1E140; 0x1E2F0; 0x1E950; 0x1FBF0]%N.

Definition is_decimal (c : char) : bool :=
  existsb (fun b => (b <=? c) && (c <? b + 10))%N DECIMAL_BLOCKS.

(** [str(n)] for a non-negative [int]. *)
Definition str_of_nat (n : nat) : str :=
  u (NilEmpty.string_of_uint (Nat.to_uint n)).

(** [f"{x}"] of a value that is a string or [None]. *)
Definition fmt_opt (x : option str) : str :=
  match x with
  | Some s => s
  | None => u "None"
  end.

(** Truth value of a string or [None]: empty and [None] are false. *)
Definition truthy (x : option str) : bool :=
  match x with
  | Some (_ :: _) => true
  | _ => false
  end.

Definition nonempty (s : str) : bool :=
  match s with
  | [] => false
  | _ :: _ => true
  end.

(** Python dictionaries as association lists in insertion order;
    assignment to an existing key keeps its position. *)
Section Dict.
Variables K V : Type.
Variable keq : K -> K -> bool.

Definition dict := list (K * V).

Fixpoint dict_get (d : dict) (k : K) : option V :=
  match d with
  | [] => None
  | (k', v) :: d' => if keq k k' then Some v else dict_get d' k
  end.

Fixpoint dict_set (d : dict) (k : K) (v : V) : dict :=
  match d with
  | [] => [(k, v)]
  | (k', v') :: d' =>
      if keq k k' then (k', v) :: d' else (k', v') :: dict_set d' k v
  end.
End Dict.

(** What a call returns: a value, or a raised exception. *)
Inductive exn :=
| HTTPError (status_code : N) (msg : str)
| Error (msg : str).

Definition exn_str (e : exn) : str :=
  match e with
  | HTTPError _ m => m
  | Error m => m
  end.

Inductive result (A : Type) :=
| Return (a : A)
| Raise (e : exn).
Arguments Return {A} a.
Arguments Raise {A} e.

End Py.

(* ================================================================== *)
(** * The [re] module: backtracking matcher                            *)
(* ================================================================== *)

Module Re.
Import Py.

(** The constructs the three patterns of the program use.  A
    non-capturing group [(?:r)] is [r] itself. *)
Inductive re :=
| Lit (c : char)                 (* one literal character *)
| Cls (p : char -> bool)         (* a character class, [\d], [[^x]], [.] *)
| Cat (r1 r2 : re)               (* r1 r2 *)
| Alt (r1 r2 : re)               (* r1|r2 *)
| Opt (r : re)                   (* r?  greedy *)
| Star (r : re)                  (* r*  greedy *)
| Plus (r : re)                  (* r+  greedy *)
| Grp (i : nat) (r : re).        (* capturing group number i *)

Declare Scope re_scope.
Delimit Scope re_scope with re.
Bind Scope re_scope with re.
Infix ">>" := Cat (at level 61, right associativity) : re_scope.

(** Captured groups: number and text, most recent first. *)
Definition groups := list (nat * str).

Definition group (g : groups) (i : nat) : option str :=
  dict_get Nat.eqb g i.

(** A continuation receives the rest of the subject and the groups. *)
Definition cont := str -> groups -> option (str * groups).

(** Greedy repetition of [body]: one more iteration first, the
    continuation on failure.  An iteration has to consume something;
    [n] bounds the iterations by the length of the subject. *)
Fixpoint star_loop (body : str -> groups -> cont -> option (str * groups))
    (n : nat) (s : str) (g : groups) (k : cont) : option (str * groups) :=
  match n with
  | O => k s g
  | S n' =>
      match body s g (fun s' g' =>
                if length s' <? length s
                then star_loop body n' s' g' k else None) with
      | Some x => Some x
      | None => k s g
      end
  end.

(** [rmatch r s g k]: match [r] at the head of [s], first alternative
    first, longest repetition first, and hand the rest to [k]; on [None]
    the matcher backtracks. *)
Fixpoint rmatch (r : re) : str -> groups -> cont -> option (str * groups) :=
  match r with
  | Lit c => fun s g k =>
      match s with
      | x :: s' => if (x =? c)%N then k s' g else None
      | [] => None
      end
  | Cls p => fun s g k =>
      match s with
      | x :: s' => if p x then k s' g else None
      | [] => None
      end
  | Cat r1 r2 => fun s g k =>
      rmatch r1 s g (fun s' g' => rmatch r2 s' g' k)
  | Alt r1 r2 => fun s g k =>
      match rmatch r1 s g k with
      | Some x => Some x
      | None => rmatch r2 s g k
      end
  | Opt r1 => fun s g k =>
      match rmatch r1 s g k with
      | Some x => Some x
      | None => k s g
      end
  | Star r1 => fun s g k => star_loop (rmatch r1) (length s) s g k
  | Plus r1 => fun s g k =>
      rmatch r1 s g (fun s' g' =>
        star_loop (rmatch r1) (length s') s' g' k)
  | Grp i r1 => fun s g k =>
      rmatch r1 s g (fun s' g' =>
        k s' ((i, firstn (length s - length s') s) :: g'))
  end.

(** A match object: the matched text ([group(0)]), the numbered groups
    and the text after the match. *)
Record Match := mkMatch {
  m_text : str;
  m_groups : groups;
  m_rest : str
}.

(** [m.group(i)]; a group that did not take part is the empty string
    here (the program only reads groups that always take part). *)
Definition m_group (m : Match) (i : nat) : str :=
  match i with
  | O => m_text m
  | _ => match group (m_groups m) i with
         | Some t => t
         | None => []
         end
  end.

(** The continuation that ends a match. *)
Definition final : cont := fun s g => Some (s, g).

(** [re.match(r, s)]: a match at the start of [s]. *)
Definition re_match (r : re) (s : str) : option Match :=
  match rmatch r s [] final with
  | Some (rest, g) =>
      Some (mkMatch (firstn (length s - length rest) s) g rest)
  | None => None
  end.

(** The scan shared by [re.sub] and [re.finditer]: try a match at every
    position from the left; after a match go on behind it.  [skip] counts
    the characters of the last match still to be passed.  The patterns of
    the program match at least one character, so the rules of [re] for
    empty matches are not modelled: an empty match counts as none. *)
Section Scan.
Variable r : re.

Definition match_here (s : str) : option Match :=
  match re_match r s with
  | Some m => if nonempty (m_text m) then Some m else None
  | None => None
  end.

(** [re.sub(r, repl, s)] with a function [repl]. *)
Fixpoint sub_scan (repl : Match -> str) (skip : nat) (s : str) : str :=
  match s with
  | [] => []
  | c :: s' =>
      match skip with
      | S n => sub_scan repl n s'
      | O =>
          match match_here s with
          | Some m => repl m ++ sub_scan repl (length (m_text m) - 1) s'
          | None => c :: sub_scan repl 0 s'
          end
      end
  end.

Definition re_sub (repl : Match -> str) (s : str) : str :=
  sub_scan repl 0 s.

(** [re.finditer(r, s)], as the list of its match objects. *)
Fixpoint find_scan (skip : nat) (s : str) : list Match :=
  match s with
  | [] => []
  | _ :: s' =>
      match skip with
      | S n => find_scan n s'
      | O =>
          match match_here s with
          | Some m => m :: find_scan (length (m_text m) - 1) s'
          | None => find_scan 0 s'
          end
      end
  end.

Definition re_finditer (s : str) : list Match := find_scan 0 s.
End Scan.

(** The language of a pattern, independent of the matcher. *)
Inductive matches : re -> str -> Prop :=
| MLit c : matches (Lit c) [c]
| MCls (p : char -> bool) c : p c = true -> matches (Cls p) [c]
| MCat r1 r2 a b : matches r1 a -> matches r2 b -> matches (Cat r1 r2) (a ++ b)
| MAltL r1 r2 a : matches r1 a -> matches (Alt r1 r2) a
| MAltR r1 r2 a : matches r2 a -> matches (Alt r1 r2) a
| MOptNone r1 : matches (Opt r1) []
| MOptSome r1 a : matches r1 a -> matches (Opt r1) a
| MStarNil r1 : matches (Star r1) []
| MStarCons r1 a b :
    matches r1 a -> matches (Star r1) b -> matches (Star r1) (a ++ b)
| MPlus r1 a b :
    matches r1 a -> matches (Star r1) b -> matches (Plus r1) (a ++ b)
| MGrp i r1 a : matches r1 a -> matches (Grp i r1) a.

(** [t] has a substring in the language of [r]. *)
Definition occurs (r : re) (t : str) : Prop :=
  exists pre m post, t = pre ++ m ++ post /\ m <> [] /\ matches r m.

(** A match of [r] begins at the head of [s]. *)
Definition begins (r : re) (s : str) : Prop :=
  exists m rest, s = m ++ rest /\ m <> [] /\ matches r m.

(** What a matcher finds is in the language of [r]. *)
Definition sound_body (r : re)
    (body : str -> groups -> cont -> option (str * groups)) : Prop :=
  forall s g k x, body s g k = Some x ->
    exists m rest g', s = m ++ rest /\ matches r m /\ k rest g' = Some x.

(** The text [t] with every match of [ms] replaced by what [repl] makes
    of it, everything else copied; [ms] are the matches of one scan of
    [t] in order, each with the text behind it. *)
Fixpoint splice (repl : Match -> str) (t : str) (ms : list Match) : str :=
  match ms with
  | [] => t
  | m :: ms' =>
      firstn (length t - length (m_text m) - length (m_rest m)) t
      ++ repl m ++ splice repl (m_rest m) ms'
  end.

End Re.

(* ================================================================== *)
(** * Regulation knowledge base and citation corrector                 *)
(* ================================================================== *)

Module Regulation.
Import Py Re.

Definition ch (s : string) : char := hd 0%N (u s).

Definition JE : char := Eval vm_compute in ch "제".
Definition JO : char := Eval vm_compute in ch "조".
Definition LB : char := Eval vm_compute in ch "「".
Definition RB : char := Eval vm_compute in ch "」".
Definition HANG : char := Eval vm_compute in ch "항".
Definition HO : char := Eval vm_compute in ch "호".
Definition LP : char := Eval vm_compute in ch "(".
Definition RP : char := Eval vm_compute in ch ")".

(** The ten reserved ordinal glyphs. *)
Definition GLYPHS : str := Eval vm_compute in u "①②③④⑤⑥⑦⑧⑨⑩".

Definition is_glyph (c : char) : bool := existsb (N.eqb c) GLYPHS.
Definition not_glyph (c : char) : bool := negb (is_glyph c).
Definition not_RB (c : char) : bool := negb (c =? RB)%N.
Definition not_RP (c : char) : bool := negb (c =? RP)%N.
(** [.] matches anything but a newline. *)
Definition dot (c : char) : bool := negb (c =? NL)%N.

Definition REGULATION : str := Eval vm_compute in u
"당신은 한국신문윤리위원회 심의위원입니다.
#신문윤리실천요강:
제1조「언론의 자유, 책임, 독립」①정치권력으로부터의 자유 ②사회·경제 세력으로부터의 독립 ③사회적 책임 ④차별과 편견 금지 ⑤사회적 약자 보호
제2조「취재 준칙」①신분 사칭·위장 금지 ②자료 무단 이용 금지 ③재난 및 사고 취재 ④전화 및 디지털 기기 활용 취재 ⑤도청 및 비밀촬영 금지 ⑥부당한 금전 제공 금지
제3조「보도 준칙」①보도기사의 사실과 의견 구분 ②공정 보도 ③반론의 기회 ④미확인 보도 명시 원칙 ⑤보도자료 검증 ⑥선정 보도 금지 ⑦재난 보도의 신중 ⑧자살 보도의 주의 ⑨피의사실 보도 ⑩표준어 사용
제4조「사법 보도 준칙」①재판 부당 영향 금지 ②판결문 등의 사전보도 금지
제5조「취재원의 명시와 보호」①취재원 보호 ②취재원 명시와 익명 조건 ③제3자 비방과 익명보도 금지 ④취재원과의 비보도 약속
제6조「보도유예 시한」①보도유예 시한 연장 금지 ②보도유예 시한의 효력 상실
제7조「범죄보도와 인권존중」①피의자 및 피고인의 명예 존중 ②피의자·피고인·참고인 등 촬영 신중 ③범죄와 무관한 가족 보호 ④성범죄 등의 2차 피해 방지 ⑤미성년 피의자 신원 보호
제8조「저작물의 전재와 인용」①통신기사의 출처 명시 ②타 언론사 보도 등의 표절 금지 ③출판물 등의 표절 금지 ④사진, 영상 등의 저작권 보호
제9조「평론의 원칙」①사설의 정론성 ②평론의 자유
제10조「편집 지침」①제목의 원칙 ②편집 변경 금지 ③기고문 변경 금지 ④기사 정정 ⑤관련사진 게재 ⑥사진 및 영상 조작 금지 ⑦기사와 광고의 구분 ⑧이용자의 권리 보호 ⑨부당한 재전송 금지
제11조「명예와 신용존중」①명예·신용 훼손 금지 ②사자의 명예 존중
제12조「사생활 보호」①사생활 침해 금지 ②개인정보 무단 검색 등 금지 ③사생활 등의 촬영 및 보도 금지 ④공인의 사생활 보도
제13조「청소년과 어린이 보호」①청소년과 어린이 취재 보도 ②범죄 보도와 청소년, 어린이 보호 ③유해환경으로부터의 보호 ④유괴·납치 보도제한 협조
제14조「정보의 부당이용금지」①소유 주식 등에 관한 보도 제한 ②주식·부동산 등의 부당 거래 금지
제15조「언론인의 품위」①금품수수 및 향응, 청탁 금지 ②부당한 집단 영향력 행사 금지 ③광고·판매 등 영업행위 금지
제16조「공익의 정의」①국가 안전 등 ②공중 안녕 ③범죄의 폭로 ④공중의 오도 방지".

(** [제(\d+)조「([^」]+)」(.+)] *)
Definition LINE_PATTERN : re :=
  (Lit JE >> Grp 1 (Plus (Cls is_decimal)) >> Lit JO >> Lit LB >>
   Grp 2 (Plus (Cls not_RB)) >> Lit RB >> Grp 3 (Plus (Cls dot)))%re.

(** [([①②③④⑤⑥⑦⑧⑨⑩])([^①②③④⑤⑥⑦⑧⑨⑩]+)] *)
Definition ITEM_PATTERN : re :=
  (Grp 1 (Cls is_glyph) >> Grp 2 (Plus (Cls not_glyph)))%re.

(** [\([^)]*\)] *)
Definition PAREN_PATTERN : re :=
  (Lit LP >> Star (Cls not_RP) >> Lit RP)%re.

(** [(?:항|호)?(?:\([^)]*\))*] *)
Definition TAIL_PATTERN : re :=
  (Opt (Alt (Lit HANG) (Lit HO)) >> Star PAREN_PATTERN)%re.

(** [제(\d+)조「([^」]+)」([①②③④⑤⑥⑦⑧⑨⑩])(?:항|호)?(?:\([^)]*\))*] *)
Definition CITATION_PATTERN : re :=
  (Lit JE >> Grp 1 (Plus (Cls is_decimal)) >> Lit JO >> Lit LB >>
   Grp 2 (Plus (Cls not_RB)) >> Lit RB >> Grp 3 (Cls is_glyph) >>
   TAIL_PATTERN)%re.

(** One entry of the knowledge base: [{'name': ..., 'items': {...}}]. *)
Record Article := mkArticle {
  name : str;
  items : dict str str
}.

Definition parse_items (items_text : str) : dict str str :=
  fold_left
    (fun items item_match =>
       let item_num := m_group item_match 1 in
       let item_content := strip (m_group item_match 2) in
       dict_set str_eqb items item_num item_content)
    (re_finditer ITEM_PATTERN items_text) [].

Definition parse_regulation_dict : dict str Article :=
  fold_left
    (fun articles line =>
       if startswith [JE] line then
         match re_match LINE_PATTERN line with
         | Some m =>
             let num := m_group m 1 in
             let name := m_group m 2 in
             let items_text := m_group m 3 in
             dict_set str_eqb articles num
               (mkArticle name (parse_items items_text))
         | None => articles
         end
       else articles)
    (split NL REGULATION) [].

Definition REGULATION_DICT : dict str Article := parse_regulation_dict.

(** The callback of [re.sub] in [correct_article_reference]. *)
Definition replace_match (m : Match) : str :=
  let article_num := m_group m 1 in
  let cited_name := strip (m_group m 2) in
  let item_num := m_group m 3 in
  match dict_get str_eqb REGULATION_DICT article_num with
  | Some art =>
      let correct_name := name art in
      match dict_get str_eqb (items art) item_num with
      | Some item_content =>
          [JE] ++ article_num ++ [JO; LB] ++ correct_name ++ [RB]
          ++ item_num ++ [LP] ++ item_content ++ [RP]
      | None =>
          [JE] ++ article_num ++ [JO; LB] ++ correct_name ++ [RB]
          ++ item_num
      end
  | None => m_group m 0
  end.

Definition correct_article_reference (text : str) : str :=
  re_sub CITATION_PATTERN replace_match text.

End Regulation.

(* ================================================================== *)
(** * The scan of the citation pattern, written out                    *)
(* ================================================================== *)

(** What the backtracking matcher computes on [CITATION_PATTERN], as
    plain functions on the text ([citation_direct] below proves that
    they agree), and the shape of a citation. *)
Module CitationScan.
Import Py Re Regulation.

Fixpoint takew (p : char -> bool) (s : str) : str :=
  match s with
  | c :: s' => if p c then c :: takew p s' else []
  | [] => []
  end.

Fixpoint dropw (p : char -> bool) (s : str) : str :=
  match s with
  | c :: s' => if p c then dropw p s' else s
  | [] => []
  end.

(** Greedy [Cls p]* with backtracking: the longest run first. *)
Fixpoint greedy_cls (p : char -> bool) (s : str) (g : groups) (k : cont)
  : option (str * groups) :=
  match s with
  | c :: s' =>
      if p c then
        match greedy_cls p s' g k with
        | Some x => Some x
        | None => k s g
        end
      else k s g
  | [] => k s g
  end.

(** The rest behind one parenthetical [\([^)]*\)] at the head of [s]. *)
Definition paren_here (s : str) : option str :=
  match s with
  | c :: s1 =>
      if (c =? LP)%N then
        match dropw not_RP s1 with
        | _ :: s3 => Some s3
        | [] => None
        end
      else None
  | [] => None
  end.

Fixpoint parens_skip (n : nat) (s : str) : str :=
  match n with
  | O => s
  | S n' =>
      match paren_here s with
      | Some s3 => parens_skip n' s3
      | None => s
      end
  end.

Definition qual_skip (s : str) : str :=
  match s with
  | c :: s' => if (c =? HANG)%N || (c =? HO)%N then s' else s
  | [] => []
  end.

Definition tail_skip (s : str) : str :=
  let s' := qual_skip s in parens_skip (length s') s'.

(** The citation after [제N조「]: a name, the closing bracket, an ordinal
    glyph and the tail. *)
Definition name_here (num s : str) : option (str * str * str * str) :=
  match s with
  | n0 :: s3 =>
      if not_RB n0 then
        match dropw not_RB s3 with
        | _ :: gl :: s5 =>
            if is_glyph gl
            then Some (num, n0 :: takew not_RB s3, [gl], tail_skip s5)
            else None
        | _ => None
        end
      else None
  | [] => None
  end.

(** The citation after [제N]. *)
Definition after_digits (num s : str) : option (str * str * str * str) :=
  match s with
  | c1 :: c2 :: s3 =>
      if (c1 =? JO)%N && (c2 =? LB)%N then name_here num s3 else None
  | _ => None
  end.

(** The match of the citation pattern at the head of [s]: the three
    groups and the text behind the match. *)
Definition cite_here (s : str) : option (str * str * str * str) :=
  match s with
  | c0 :: d :: s1 =>
      if (c0 =? JE)%N && is_decimal d
      then after_digits (d :: takew is_decimal s1) (dropw is_decimal s1)
      else None
  | _ => None
  end.

(** The text of a citation: [제 num 조「 name 」 g tail]. *)
Definition citation (num name : str) (g : char) (tail : str) : str :=
  JE :: num ++ JO :: LB :: name ++ RB :: g :: tail.

(** The citation that replaces a match with groups [num] and [g] and
    text [orig]. *)
Definition canonical (num : str) (g : char) (orig : str) : str :=
  match dict_get str_eqb REGULATION_DICT num with
  | Some art =>
      match dict_get str_eqb (items art) [g] with
      | Some item_content =>
          citation num (name art) g (LP :: item_content ++ [RP])
      | None => citation num (name art) g []
      end
  | None => orig
  end.

(** The text behind a match does not go on with [항], [호] or [(]. *)
Definition separated (rest : str) : bool :=
  match rest with
  | [] => true
  | c :: _ => negb ((c =? HANG) || (c =? HO) || (c =? LP))%N
  end.

(** Every match of the scan of [t] is separated from what follows. *)
Definition well_separated (t : str) : Prop :=
  Forall (fun m => separated (m_rest m) = true)
         (re_finditer CITATION_PATTERN t).

(** An entry of the knowledge base whose name is not empty and has no
    closing bracket, and whose item texts have no closing parenthesis. *)
Definition article_ok (art : Article) : bool :=
  nonempty (name art) && forallb not_RB (name art)
  && forallb (fun it => forallb not_RP (snd it)) (items art).

End CitationScan.

(* ================================================================== *)
(** * The outside world and the effects of a stage                     *)
(* ================================================================== *)

(** The image library, as the terms its calls build. *)
Module Pil.

Inductive image :=
| Opened (mode : string) (size : N * N) (transparency : bool) (pixels : N)
    (* [Image.open]: mode, size, whether [info] has a transparency entry,
       and a name for the pixel data *)
| New (mode : string) (size : N * N) (color : N * N * N)
    (* [Image.new(mode, size, color)] *)
| Pasted (bg src mask : image)
    (* [bg] after [bg.paste(src, mask=mask)] *)
| LastBand (img : image)
    (* [img.split()[-1]] *)
| Converted (img : image) (mode : string).
    (* [img.convert(mode)] *)

Fixpoint mode (img : image) : string :=
  match img with
  | Opened m _ _ _ => m
  | New m _ _ => m
  | Pasted bg _ _ => mode bg
  | LastBand _ => "L"
  | Converted _ m => m
  end.

Fixpoint size (img : image) : N * N :=
  match img with
  | Opened _ sz _ _ => sz
  | New _ sz _ => sz
  | Pasted bg _ _ => size bg
  | LastBand i => size i
  | Converted i _ => size i
  end.

(** The modes of the library that carry an alpha band. *)
Definition alpha_modes : list string := ["RGBA"; "LA"; "PA"; "RGBa"; "La"]%string.

Definition mode_in (m : string) (ms : list string) : bool :=
  existsb (String.eqb m) ms.

(** An opened image has transparency when its mode has an alpha band or
    its [info] carries a transparency entry (palette and tRNS images). *)
Definition has_transparency (img : image) : bool :=
  mode_in (mode img) alpha_modes ||
  match img with
  | Opened _ _ tr _ => tr
  | _ => false
  end.

(** [base64.b64encode] of the bytes [img.save(buffer, format, quality)]
    writes. *)
Inductive payload :=
| Base64 (format : string) (quality : N) (img : image).

End Pil.

Module Effects.
Import Py.

Definition temperature := (N * N)%type.   (* a decimal fraction n/d *)

(** What a stage did to the outside world, in order. *)
Inductive event :=
| NodeRun (node : string)                   (* the graph ran a node *)
| Tried (extractor : string)                (* one extraction strategy *)
| HttpGet (url : str)                       (* [requests.get] *)
| Browser (url : str)                       (* a Playwright page load *)
| ImageOpen                                 (* [Image.open] *)
| IndexQuery (text : str) (n_results : nat) (* embedding + index query *)
| Generate (model : string) (prompt : str) (image : option Pil.payload)
    (temp : temperature).                   (* a generation call *)

(** A computation: its value or exception, and the events it caused. *)
Definition M (A : Type) : Type := (result A * list event)%type.

Definition ret {A} (a : A) : M A := (Return a, []).
Definition raise {A} (e : exn) : M A := (Raise e, []).
Definition emit (ev : event) : M unit := (Return tt, [ev]).

Definition bind {A B} (m : M A) (f : A -> M B) : M B :=
  match m with
  | (Return a, l) => let (r, l') := f a in (r, l ++ l')
  | (Raise e, l) => (Raise e, l)
  end.

(** [try: m  except Exception as e: h e] *)
Definition try_except {A} (m : M A) (h : exn -> M A) : M A :=
  match m with
  | (Return a, l) => (Return a, l)
  | (Raise e, l) => let (r, l') := h e in (r, l ++ l')
  end.

(** A call to the world: its answer, and the event. *)
Definition call {A} (ev : event) (answer : result A) : M A := (answer, [ev]).

Definition value {A} (m : M A) : result A := fst m.
Definition events {A} (m : M A) : list event := snd m.

Declare Scope eff_scope.
Delimit Scope eff_scope with eff.
Notation "x <- m ;; k" := (bind m (fun x => k))
  (at level 100, m at next level, right associativity) : eff_scope.
Notation "m ;;; k" := (bind m (fun _ => k))
  (at level 100, right associativity) : eff_scope.

End Effects.

(* ================================================================== *)
(** * [news_text_scraper.py]                                           *)
(* ================================================================== *)

Module Scraper.
Import Py Effects.
Local Open Scope eff_scope.

(** The dictionary [{'title': ..., 'text': ..., 'image_url': ...}];
    a value may be [None]. *)
Record ArticleData := mkArticleData {
  title : option str;
  text : option str;
  image_url : option str
}.

Record Response := mkResponse {
  status_code : N;
  body : str
}.

(** The collaborators of the scraper. *)
Record World := mkWorld {
  requests_get : str -> result Response;
    (* [requests.get(url, headers=HEADERS, timeout=30)] *)
  trafilatura_extract : str -> str -> result (option ArticleData);
    (* [trafilatura.extract(html, ..., url=url)] and [json.loads]: the
       entries title, text and image of the answer *)
  extract_images_from_html : str -> str -> result (option str);
    (* what [extract_images_from_html(html, base_url)] finds in the
       page; its queries on the parsed page are not written out *)
  newspaper_parse : str -> str -> result (str * str * str);
    (* [Article(url)], [set_html(html)], [parse()]:
       title, text, top_image *)
  playwright_content : str -> result str;
    (* the body of [get_rendered_html_playwright] *)
  PLAYWRIGHT_AVAILABLE : bool
}.

Section WithWorld.
Variable w : World.

(** [response.raise_for_status()] *)
Definition raise_for_status (response : Response) : M unit :=
  let code := status_code response in
  if ((400 <=? code) && (code <? 600))%N
  then raise (HTTPError code (str_of_nat (N.to_nat code)))
  else ret tt.

Definition fetch_with_headers (url : str) : M str :=
  response <- call (HttpGet url) (requests_get w url) ;;
  raise_for_status response ;;;
  ret (body response).

(** [a or b] where [b] is a call. *)
Definition or_else (a : option str) (b : M (option str))
  : M (option str) :=
  if truthy a then ret a else b.

Definition extract_trafilatura (url : str) : M (option ArticleData) :=
  try_except
    (html <- fetch_with_headers url ;;
     result <- (trafilatura_extract w html url, []) ;;
     match result with
     | Some data =>
         image_url <- or_else (image_url data)
                        (extract_images_from_html w html url, []) ;;
         ret (Some (mkArticleData (title data) (text data) image_url))
     | None => ret None
     end)
    (fun e => ret None).

Definition extract_newspaper (url : str) : M (option ArticleData) :=
  try_except
    (html <- fetch_with_headers url ;;
     article <- (newspaper_parse w url html, []) ;;
     let '(a_title, a_text, top_image) := article in
     image_url <- or_else (Some top_image)
                    (extract_images_from_html w html url, []) ;;
     ret (Some (mkArticleData (Some a_title) (Some a_text) image_url)))
    (fun e => ret None).

Definition get_rendered_html_playwright (url : str) : M (option str) :=
  try_except
    (html <- call (Browser url) (playwright_content w url) ;;
     ret (Some html))
    (fun e => ret None).

Definition extract_playwright_trafilatura (url : str)
  : M (option ArticleData) :=
  try_except
    (html <- get_rendered_html_playwright url ;;
     if truthy html then
       let html := fmt_opt html in
       result <- (trafilatura_extract w html url, []) ;;
       match result with
       | Some data =>
           image_url <- or_else (image_url data)
                          (extract_images_from_html w html url, []) ;;
           ret (Some (mkArticleData (title data) (text data) image_url))
       | None => ret None
       end
     else ret None)
    (fun e => ret None).

Definition extract_playwright_newspaper (url : str)
  : M (option ArticleData) :=
  try_except
    (html <- get_rendered_html_playwright url ;;
     if truthy html then
       let html := fmt_opt html in
       article <- (newspaper_parse w [] html, []) ;;
       let '(a_title, a_text, top_image) := article in
       image_url <- or_else (Some top_image)
                      (extract_images_from_html w html url, []) ;;
       ret (Some (mkArticleData (Some a_title) (Some a_text) image_url))
     else ret None)
    (fun e => ret None).

Definition extractor := (string * (str -> M (option ArticleData)))%type.

Definition extractors : list extractor :=
  [("Trafilatura", extract_trafilatura);
   ("Newspaper3k", extract_newspaper)]%string
  ++ (if PLAYWRIGHT_AVAILABLE w
      then [("Playwright+Trafilatura", extract_playwright_trafilatura);
            ("Playwright+Newspaper3k", extract_playwright_newspaper)]%string
      else []).

(** [if not result[key] and data.get(key): result[key] = data[key]] *)
Definition update_key (old new : option str) : option str :=
  if negb (truthy old) && truthy new then new else old.

Definition update (result data : ArticleData) : ArticleData :=
  mkArticleData (update_key (title result) (title data))
                (update_key (text result) (text data))
                (update_key (image_url result) (image_url data)).

(** How one round of the loop ends. *)
Inductive step :=
| Done (result : ArticleData)        (* [return result] *)
| Next (result : ArticleData).       (* on to the next extractor *)

Definition blocked (code : N) : bool := (code =? 403)%N || (code =? 429)%N.

(** The body of the [for] loop for one extractor. *)
Definition attempt (ex : extractor) (url : str) (result : ArticleData)
  : M step :=
  emit (Tried (fst ex)) ;;;
  try_except
    (data <- snd ex url ;;
     match data with
     | Some data =>
         let result := update result data in
         if truthy (title result) && truthy (text result)
            && truthy (image_url result)
         then ret (Done result)
         else ret (Next result)
     | None => ret (Next result)
     end)
    (fun e =>
       match e with
       | HTTPError code _ =>
           if blocked code then raise e else ret (Next result)
       | Error _ => ret (Next result)
       end).

Fixpoint run_extractors (exs : list extractor) (url : str)
    (result : ArticleData) : M (option ArticleData) :=
  match exs with
  | [] =>
      if truthy (title result) || truthy (text result)
      then ret (Some result)
      else ret None
  | ex :: rest =>
      s <- attempt ex url result ;;
      match s with
      | Done result => ret (Some result)
      | Next result => run_extractors rest url result
      end
  end.

Definition extract_article (url : str) : M (option ArticleData) :=
  run_extractors extractors url (mkArticleData None None None).

End WithWorld.
End Scraper.

(* ================================================================== *)
(** * Prompts and markers shared by both pipelines                     *)
(* ================================================================== *)

Module Prompts.
Import Py Regulation.

(** The canonical no-violation marker and its second spelling. *)
Definition NO_VIOLATION : str := Eval vm_compute in u "위반 없음".
Definition NO_VIOLATION_NOSPACE : str := Eval vm_compute in u "위반없음".
(** The violation marker. *)
Definition VIOLATION : str := Eval vm_compute in u "위반".

Definition INST_PROMPT : str := Eval vm_compute in u
("#심의 지침:
1. **보수적 판단 원칙**: 신문윤리실천요강을 체계적으로 검토하되, 매우 보수적으로 판단
2. **명백하고 심각한 위반만 지적**: 의심스럽거나 경미하거나 불분명한 사안은 모두 " ++ dq ++ "위반 없음" ++ dq ++ "
3. 유사 사례를 참고하되, 해당 기사의 구체적 내용과 맥락을 중심으로 독립적으로 판단
4. **특별 주의사항**:
   - 특정 단체/기업의 활동을 지나치게 칭찬하고 홍보하는 내용 → 제1조②(사회·경제 세력으로부터의 독립) 또는 제10조⑦(기사와 광고의 구분) 적용 검토
   - 단순히 단체 활동을 소개하는 수준은 위반 아님. 명백한 홍보/광고 목적이어야 함

#작성 형식 (반드시 정확히 준수):

**[위반 없음 시] - 절대 엄수:**
- 오직 " ++ dq ++ "위반 없음" ++ dq ++ " 글자만 출력. 어떠한 추가 설명, 이유, 코멘트도 절대 금지

**[위반 시] - 정확히 준수:**
아래 4단계를 반드시 순서대로 따르되, " ++ dq ++ "1단계" ++ dq ++ ", " ++ dq ++ "2단계" ++ dq ++ " 등의 소제목 없이 자연스러운 문장으로 연결:
1단계) 기사 요약 2~3문장
   - " ++ dq ++ "위 기사는 ○○○에 대해 보도하면서..." ++ dq ++ " 형식으로 시작
2단계) 문제점 지적 1~2문장
   - " ++ dq ++ "그러나 이 보도는..." ++ dq ++ ", " ++ dq ++ "하지만..." ++ dq ++ " 등으로 문제점 명확히 지적
3단계) 규정 근거 1~2문장
   - 신문윤리실천요강을 바탕으로 문제의 위반 정당성을 제시
4단계) 결론 문장 (정확히 이 형식 준수)
   - " ++ dq ++ "따라서 위 보도는 신문윤리실천요강 제○조「조항명」○항(세부내용)을 위반했다고 인정하여 주문과 같이 결정한다." ++ dq ++ "
- 전체 6문장 이상
- 유사 사례의 자연스러운 문장체 참고
- " ++ dq ++ "1)" ++ dq ++ ", " ++ dq ++ "2)" ++ dq ++ ", " ++ dq ++ "3)" ++ dq ++ " 등의 번호나 소제목 절대 사용 금지")%string.

Definition REVIEW_HEAD : str := Eval vm_compute in u
("당신은 신문윤리위원회 검토 담당자입니다. 생성된 심의문을 검토하고 수정하세요.

#분석 대상 기사:
제목: ")%string.

Definition REVIEW_BODY : str := Eval vm_compute in u
("
본문: ")%string.

Definition REVIEW_DRAFT : str := Eval vm_compute in u
("

#생성된 심의문:
")%string.

Definition REVIEW_REGULATION : str := Eval vm_compute in u
("

#신문윤리실천요강:
")%string.

Definition REVIEW_MANDATE : str := Eval vm_compute in u
("

#검토 임무 (반드시 준수):
1. **조항 정확성**: 인용된 조항이 신문윤리실천요강에 정확히 존재하는지 확인(조항 번호, 조항명 대조)하고 틀린 부분 수정
2. **기사 관련성**: 심의문이 실제 기사 내용과 일치하는지 확인(환각 내용 삭제)하고 필요시 수정
3. **형식 검증 및 수정**:
   - " ++ dq ++ "1)" ++ dq ++ ", " ++ dq ++ "2)" ++ dq ++ ", " ++ dq ++ "3)" ++ dq ++ " 등의 번호나 소제목이 있으면 모두 삭제하고 자연스러운 문장체로 수정
   - 반드시: 기사 요약(2~3문장) → 문제점(1~2문장) → 근거(1~2문장) → 결론(" ++ dq ++ "따라서 위 보도는..." ++ dq ++ ") 순서 준수
4. **검토 의견 완전 제거**: " ++ dq ++ "심의문에서 언급된..." ++ dq ++ ", " ++ dq ++ "확인되지 않습니다" ++ dq ++ ", " ++ dq ++ "검토 결과..." ++ dq ++ " 등의 검토 의견을 절대 포함하지 말 것
   - 검토자의 메타적 코멘트는 모두 삭제
   - 오직 심의문 본문만 출력

수정된 최종 심의문만 출력하시오 (검토 의견 절대 포함 금지):")%string.

Definition IMAGE_PROMPT : str :=
  Eval vm_compute in u "이 이미지를 한국어로 상세히 설명해주세요.".

Definition ARTICLE_HEADER : str := Eval vm_compute in u "

#기사:
".
Definition IMAGE_HEADER : str := Eval vm_compute in u "

#이미지:
".
Definition CASES_HEADER : str := Eval vm_compute in u "

#유사사례:
".
Definition SEP : str := Eval vm_compute in u "

".
Definition NOTE_HEAD : str := Eval vm_compute in u "

**중요**: 유사 사례 5개 중 ".
Definition NOTE_TAIL : str := Eval vm_compute in
  u "개가 '위반 없음'입니다. 4개 이상이므로 이 기사도 '위반 없음'을 강력하게 고려하십시오.".

(** The steering note for [no_violation_count] precedents. *)
Definition steering_note (no_violation_count : nat) : str :=
  NOTE_HEAD ++ str_of_nat no_violation_count ++ NOTE_TAIL.

Definition EXTRACT_FAILED : str := Eval vm_compute in u "기사 추출 실패".
Definition DECIDE_FAILED : str := Eval vm_compute in u "심의문 생성 실패: ".
Definition REVIEW_FAILED : str := Eval vm_compute in u "검토 오류: ".

(** [x[:n]] of a string or [None]: slicing [None] is a [TypeError]. *)
Definition slice_opt (n : nat) (x : option str) : result str :=
  match x with
  | Some s => Return (slice_to n s)
  | None => Raise (Error (u "TypeError"))
  end.

(** [a in s and b not in s and c not in s] and its [elif], as one
    classification of a line. *)
Inductive verdict := CountsViolation | CountsNoViolation | CountsNothing.

Definition classify (line : str) : verdict :=
  if contains VIOLATION line
     && negb (contains NO_VIOLATION line)
     && negb (contains NO_VIOLATION_NOSPACE line)
  then CountsViolation
  else if contains NO_VIOLATION line || contains NO_VIOLATION_NOSPACE line
  then CountsNoViolation
  else CountsNothing.

(** One round of the counting loop on the pair of counters. *)
Definition count_line (counts : nat * nat) (line : str) : nat * nat :=
  let (violation_count, no_violation_count) := counts in
  match classify line with
  | CountsViolation => (violation_count + 1, no_violation_count)
  | CountsNoViolation => (violation_count, no_violation_count + 1)
  | CountsNothing => (violation_count, no_violation_count)
  end.

(** [draft] carries the no-violation marker, in either spelling. *)
Definition says_no_violation (draft : str) : bool :=
  contains NO_VIOLATION draft || contains NO_VIOLATION_NOSPACE draft.

(** [f"{i+1}. {reason}"] *)
Definition case_line (i : nat) (reason : str) : str :=
  str_of_nat (i + 1) ++ u ". " ++ reason.

End Prompts.

(* ================================================================== *)
(** * [multimodal_rag_langgraph_gemini.py]: the LangGraph pipeline     *)
(* ================================================================== *)

Module Pipeline.
Import Py Re Regulation Effects Prompts.
Import Scraper(ArticleData, mkArticleData, title, text, image_url).
Local Open Scope eff_scope.

(** The collaborators of the analysis stages. *)
Record World := mkWorld {
  scraper : Scraper.World;
  image_get : str -> result (list N);
    (* [requests.get(img_url, timeout=10, ...).content] *)
  image_open : list N -> result Pil.image;
    (* [Image.open(BytesIO(content))] *)
  query_index : str -> nat -> result (list (option str));
    (* [ef([text])] and [collection.query(..., n_results)]: for each
       document found, the [reason] entry of its metadata, [None] when
       the metadata has no such entry *)
  generate : str -> string -> str -> option Pil.payload -> temperature
             -> result str;
    (* the Gemini call: key, model, prompt, image, temperature *)
  chroma_loaded : bool
    (* whether [load_chroma_collection()] found the collection *)
}.

Definition T0_0 : temperature := (0, 1)%N.
Definition T0_3 : temperature := (3, 10)%N.

Record ReviewResult := mkReview {
  passed : bool;
  issues : str;
  final_decision : str
}.

(** [AnalysisState]; a key that is not set reads as [None]. *)
Record AnalysisState := mkState {
  url : str;
  article : option ArticleData;
  image_desc : option str;
  similar_cases : option str;
  decision : option str;
  review_result : option ReviewResult;
  error : option str;
  violation_count : option nat
}.

Definition initial (url : str) : AnalysisState :=
  mkState url None None None None None None None.

Definition set_article a st :=
  mkState (url st) (Some a) (image_desc st) (similar_cases st) (decision st)
          (review_result st) (error st) (violation_count st).
Definition set_image_desc d st :=
  mkState (url st) (article st) d (similar_cases st) (decision st)
          (review_result st) (error st) (violation_count st).
Definition set_similar_cases c st :=
  mkState (url st) (article st) (image_desc st) (Some c) (decision st)
          (review_result st) (error st) (violation_count st).
Definition set_decision d st :=
  mkState (url st) (article st) (image_desc st) (similar_cases st) (Some d)
          (review_result st) (error st) (violation_count st).
Definition set_review_result r st :=
  mkState (url st) (article st) (image_desc st) (similar_cases st)
          (decision st) (Some r) (error st) (violation_count st).
Definition set_error e st :=
  mkState (url st) (article st) (image_desc st) (similar_cases st)
          (decision st) (review_result st) (Some e) (violation_count st).
Definition set_violation_count n st :=
  mkState (url st) (article st) (image_desc st) (similar_cases st)
          (decision st) (review_result st) (error st) (Some n).

(** [article.get('title', '')] on [state.get('article', {})] *)
Definition get_title (a : option ArticleData) : option str :=
  match a with
  | Some d => title d
  | None => Some []
  end.

(** [article.get('text', '')] *)
Definition get_text (a : option ArticleData) : option str :=
  match a with
  | Some d => text d
  | None => Some []
  end.

(** [article.get('image_url')] *)
Definition get_image_url (a : option ArticleData) : option str :=
  match a with
  | Some d => image_url d
  | None => None
  end.

(** [state.get(key, '')] *)
Definition get_str (x : option str) : str :=
  match x with
  | Some s => s
  | None => []
  end.

(** The colour-space normalisation of the image stage. *)
Definition normalize (img : Pil.image) : Pil.image :=
  if String.eqb (Pil.mode img) "RGBA" then
    let bg := Pil.New "RGB" (Pil.size img) (255, 255, 255)%N in
    Pil.Pasted bg img (Pil.LastBand img)
  else if negb (String.eqb (Pil.mode img) "RGB") then
    Pil.Converted img "RGB"
  else img.

(** [img.save(buffer, format='JPEG', quality=85)] and [b64encode]. *)
Definition encode (img : Pil.image) : Pil.payload :=
  Pil.Base64 "JPEG" 85 img.

(** [f"{article.get('title', '')} {article.get('text', '')[:2000]}"] *)
Definition article_line (a : option ArticleData) : M str :=
  body <- (slice_opt 2000 (get_text a), []) ;;
  ret (fmt_opt (get_title a) ++ u " " ++ body).

(** The prompt of the Decide stage. *)
Definition decide_prompt (a : option ArticleData) (image_desc : option str)
    (similar_cases : str) (no_violation_count : nat) : M str :=
  line <- article_line a ;;
  let prompt := REGULATION ++ SEP ++ INST_PROMPT ++ ARTICLE_HEADER ++ line in
  let prompt :=
    if truthy image_desc
    then prompt ++ IMAGE_HEADER ++ fmt_opt image_desc else prompt in
  let prompt :=
    if nonempty similar_cases then
      let prompt := prompt ++ CASES_HEADER ++ similar_cases in
      if 4 <=? no_violation_count
      then prompt ++ steering_note no_violation_count else prompt
    else prompt in
  ret prompt.

(** The prompt of the Review stage. *)
Definition review_prompt (a : option ArticleData) (decision : str) : M str :=
  body <- (slice_opt 2000 (get_text a), []) ;;
  ret (REVIEW_HEAD ++ fmt_opt (get_title a) ++ REVIEW_BODY ++ body
       ++ REVIEW_DRAFT ++ decision ++ REVIEW_REGULATION ++ REGULATION
       ++ REVIEW_MANDATE).

(** The loop of the Search stage over the metadata of the results;
    a result without [reason] raises [KeyError]. *)
Fixpoint collect_cases (i : nat) (reasons : list (option str))
    (cases : list str) : result (list str) :=
  match reasons with
  | [] => Return cases
  | Some reason :: rest =>
      collect_cases (i + 1) rest (cases ++ [case_line i reason])
  | None :: _ => Raise (Error (u "'reason'"))
  end.

Section WithWorld.
Variable w : World.
Variable GEMINI_API_KEY : str.

Definition MODEL_NAME : string := "gemini-2.0-flash".

Definition call_gemini (prompt : str) (image_data : option Pil.payload)
    (temp : temperature) : M str :=
  call (Generate MODEL_NAME prompt image_data temp)
       (generate w GEMINI_API_KEY MODEL_NAME prompt image_data temp).

(** The node shows the first 50 characters of the title once the
    article is stored: [article.get('title', '')[:50]].  The key
    [title] is always there, so of an article without a title it is
    [None] that is sliced. *)
Definition extract_node (state : AnalysisState) : M AnalysisState :=
  article <- Scraper.extract_article (scraper w) (url state) ;;
  match article with
  | Some a =>
      if truthy (text a) then
        let state := set_article a state in
        shown <- (slice_opt 50 (title a), []) ;;
        ret state
      else ret (set_error EXTRACT_FAILED state)
  | None => ret (set_error EXTRACT_FAILED state)
  end.

Definition image_node (state : AnalysisState) : M AnalysisState :=
  let img_url := get_image_url (article state) in
  if negb (truthy img_url) then ret (set_image_desc None state)
  else
    try_except
      (content <- call (HttpGet (get_str img_url))
                       (image_get w (get_str img_url)) ;;
       img <- call ImageOpen (image_open w content) ;;
       let b64 := encode (normalize img) in
       image_desc <- call_gemini IMAGE_PROMPT (Some b64) T0_3 ;;
       ret (set_image_desc (Some image_desc) state))
      (fun e => ret (set_image_desc None state)).

Definition search_node (state : AnalysisState) : M AnalysisState :=
  text <- article_line (article state) ;;
  try_except
    (reasons <- call (IndexQuery text 5) (query_index w text 5) ;;
     cases <- (collect_cases 0 reasons [], []) ;;
     ret (set_similar_cases (join [NL] cases) state))
    (fun e => ret (set_similar_cases [] state)).

(** The counters of the Decide stage, over the lines of the list. *)
Definition count_cases (similar_cases : str) : nat * nat :=
  if nonempty similar_cases
  then fold_left count_line (split NL similar_cases) (0, 0)
  else (0, 0).

Definition decide_node (state : AnalysisState) : M AnalysisState :=
  let similar_cases := get_str (similar_cases state) in
  let (violation_count, no_violation_count) := count_cases similar_cases in
  prompt <- decide_prompt (article state) (image_desc state)
              similar_cases no_violation_count ;;
  try_except
    (decision <- call_gemini prompt None T0_0 ;;
     ret (set_violation_count violation_count
            (set_decision decision state)))
    (fun e =>
       ret (set_violation_count violation_count
              (set_decision []
                 (set_error (DECIDE_FAILED ++ exn_str e) state)))).

Definition review_node (state : AnalysisState) : M AnalysisState :=
  let decision := get_str (decision state) in
  if says_no_violation decision then
    ret (set_review_result (mkReview true [] NO_VIOLATION) state)
  else
    review_prompt <- review_prompt (article state) decision ;;
    try_except
      (final_decision <- call_gemini review_prompt None T0_0 ;;
       let corrected_decision :=
         correct_article_reference (strip final_decision) in
       ret (set_review_result (mkReview true [] corrected_decision) state))
      (fun e =>
         ret (set_review_result
                (mkReview false (REVIEW_FAILED ++ exn_str e) decision)
                state)).

(** A compiled [StateGraph]: its nodes, entry point and edges. *)
Record Workflow := mkWorkflow {
  nodes : list (string * (AnalysisState -> M AnalysisState));
  entry_point : string;
  edges : list (string * string)
}.

Definition END : string := "__end__".

Definition create_workflow : Workflow :=
  mkWorkflow
    [("extract", extract_node); ("image", image_node);
     ("search", search_node); ("decide", decide_node);
     ("review", review_node)]%string
    "extract"
    [("extract", "image"); ("image", "search"); ("search", "decide");
     ("decide", "review"); ("review", END)]%string.

(** The graph runs the node it stands on and follows the edge out of
    it until it reaches [END]; a run is given up after [limit] steps
    (the recursion limit of the graph library, 25). *)
Fixpoint run (wf : Workflow) (limit : nat) (current : string)
    (state : AnalysisState) : M AnalysisState :=
  if String.eqb current END then ret state
  else
    match limit with
    | O => raise (Error (u "GraphRecursionError"))
    | S limit' =>
        match dict_get String.eqb (nodes wf) current with
        | None => raise (Error (u "KeyError"))
        | Some node =>
            emit (NodeRun current) ;;;
            state' <- node state ;;
            match dict_get String.eqb (edges wf) current with
            | Some next => run wf limit' next state'
            | None => ret state'
            end
        end
    end.

Definition invoke (wf : Workflow) (input : AnalysisState)
  : M AnalysisState :=
  run wf 25 (entry_point wf) input.

(** [analyze_article]: [None] when the run ended with [error]. *)
Definition analyze_article (url : str) : M (option AnalysisState) :=
  result <- invoke create_workflow (initial url) ;;
  if truthy (error result) then ret None else ret (Some result).

End WithWorld.
End Pipeline.

(* ================================================================== *)
(** * [multimodal_rag_langgraph_gemini_st.py]: the Streamlit pipeline  *)
(* ================================================================== *)

Module Streamlit.
Import Py Re Regulation Effects Prompts.
Import Scraper(ArticleData, mkArticleData, title, text, image_url).
Import Pipeline(World, scraper, image_get, image_open, query_index,
                generate, chroma_loaded, T0_0, T0_3, normalize, encode,
                article_line, decide_prompt, review_prompt, get_str).
Local Open Scope eff_scope.

(** The dictionary [analyze_article_streamlit] returns. *)
Record Analysis := mkAnalysis {
  article : ArticleData;
  image_desc : option str;
  similar_cases : str;
  violation_count : nat;
  no_violation_count : nat;
  final_decision : str
}.

(** The loop of step 3: it numbers the reasons and counts them as it
    goes; when a result has no [reason] the loop ends in [KeyError] and
    the counters keep what was counted before. *)
Fixpoint scan_cases (i : nat) (reasons : list (option str))
    (cases : list str) (counts : nat * nat)
    : result (list str) * (nat * nat) :=
  match reasons with
  | [] => (Return cases, counts)
  | Some reason :: rest =>
      scan_cases (i + 1) rest (cases ++ [case_line i reason])
                 (count_line counts reason)
  | None :: _ => (Raise (Error (u "'reason'")), counts)
  end.

Section WithWorld.
Variable w : World.

Definition MODEL_NAME : string := "gemini-2.0-flash-exp".

Definition call_gemini (api_key : str) (prompt : str)
    (image_data : option Pil.payload) (temp : temperature) : M str :=
  call (Generate MODEL_NAME prompt image_data temp)
       (generate w api_key MODEL_NAME prompt image_data temp).

(** Step 1; [None] stands for the early [return None].  The message
    of success shows [article.get('title', '')[:50]] inside the [try]:
    of an article without a title it is [None] that is sliced, and the
    [except] returns [None]. *)
Definition extract_step (url : str) : M (option ArticleData) :=
  try_except
    (article <- Scraper.extract_article (scraper w) url ;;
     match article with
     | Some a =>
         if truthy (text a) then
           shown <- (slice_opt 50 (title a), []) ;;
           ret (Some a)
         else ret None
     | None => ret None
     end)
    (fun e => ret None).

(** Step 2. *)
Definition image_step (api_key : str) (a : ArticleData)
  : M (option str) :=
  let img_url := image_url a in
  if truthy img_url then
    try_except
      (content <- call (HttpGet (get_str img_url))
                       (image_get w (get_str img_url)) ;;
       img <- call ImageOpen (image_open w content) ;;
       let b64 := encode (normalize img) in
       image_desc <- call_gemini api_key IMAGE_PROMPT (Some b64) T0_3 ;;
       ret (Some image_desc))
      (fun e => ret None)
  else ret None.

(** Step 3: the case list and the two counters. *)
Definition search_step (a : ArticleData) : M (str * (nat * nat)) :=
  try_except
    (if chroma_loaded w then
       text <- article_line (Some a) ;;
       reasons <- call (IndexQuery text 5) (query_index w text 5) ;;
       let (cases, counts) := scan_cases 0 reasons [] (0, 0) in
       match cases with
       | Return cases => ret (join [NL] cases, counts)
       | Raise e => ret ([], counts)
       end
     else ret ([], (0, 0)))
    (fun e => ret ([], (0, 0))).

(** Step 4; [None] stands for the early [return None]. *)
Definition decide_step (api_key : str) (a : ArticleData)
    (image_desc : option str) (similar_cases : str)
    (no_violation_count : nat) : M (option str) :=
  try_except
    (prompt <- decide_prompt (Some a) image_desc similar_cases
                 no_violation_count ;;
     decision <- call_gemini api_key prompt None T0_0 ;;
     ret (Some decision))
    (fun e => ret None).

(** Step 5. *)
Definition review_step (api_key : str) (a : ArticleData)
    (decision : str) : M str :=
  if says_no_violation decision then ret NO_VIOLATION
  else
    try_except
      (review_prompt <- review_prompt (Some a) decision ;;
       final_decision <- call_gemini api_key review_prompt None T0_0 ;;
       ret (correct_article_reference (strip final_decision)))
      (fun e => ret decision).

Definition analyze_article_streamlit (url api_key : str)
  : M (option Analysis) :=
  article <- extract_step url ;;
  match article with
  | None => ret None
  | Some a =>
      image_desc <- image_step api_key a ;;
      found <- search_step a ;;
      let '(similar_cases, (violation_count, no_violation_count)) :=
        found in
      decision <- decide_step api_key a image_desc similar_cases
                    no_violation_count ;;
      match decision with
      | None => ret None
      | Some decision =>
          final_decision <- review_step api_key a decision ;;
          ret (Some (mkAnalysis a image_desc similar_cases
                       violation_count no_violation_count
                       final_decision))
      end
  end.

End WithWorld.
End Streamlit.

(* ================================================================== *)
(** * Vocabulary of the properties                                     *)
(* ================================================================== *)

Module Spec.
Import Py Effects Prompts.

(** [sub] occurs in [s]. *)
Definition substring (sub s : str) : Prop :=
  exists pre post, s = pre ++ sub ++ post.

(** The nodes a run of the graph executed, in order. *)
Fixpoint nodes_run (log : list event) : list string :=
  match log with
  | [] => []
  | NodeRun n :: log' => n :: nodes_run log'
  | _ :: log' => nodes_run log'
  end.

(** The prompts of the generation calls of a run, in order. *)
Fixpoint prompts (log : list event) : list str :=
  match log with
  | [] => []
  | Generate _ p _ _ :: log' => p :: prompts log'
  | _ :: log' => prompts log'
  end.

(** A computation that runs no node of the graph. *)
Definition quiet {A} (m : M A) : Prop := nodes_run (events m) = [].

(** The article of a state, when there is one, has a text. *)
Definition has_text (st : Pipeline.AnalysisState) : Prop :=
  exists body, Pipeline.get_text (Pipeline.article st) = Some body.

(** The tallies by the rule of the specification: a reason with the
    no-violation marker counts as no violation; any other reason with
    the violation marker counts as violation. *)
Definition counts_no_violation (reason : str) : bool :=
  says_no_violation reason.
Definition counts_violation (reason : str) : bool :=
  negb (says_no_violation reason) && contains VIOLATION reason.
Definition spec_tally (reasons : list str) : nat * nat :=
  (length (filter counts_violation reasons),
   length (filter counts_no_violation reasons)).

(** The drafting prompt by the words of the specification: in fixed
    order the regulation text, the instruction template, the article
    (title and the first 2000 characters of the body), the image
    description if there is one, the case list if it is not empty, and
    the steering note if [note] says so. *)
Definition spec_prompt (title : option str) (body : str)
    (image_desc : option str) (cases : str) (no_violation_tally : nat)
    (note : bool) : str :=
  Regulation.REGULATION ++ SEP ++ INST_PROMPT
  ++ ARTICLE_HEADER ++ fmt_opt title ++ u " " ++ slice_to 2000 body
  ++ (if truthy image_desc then IMAGE_HEADER ++ fmt_opt image_desc else [])
  ++ (if nonempty cases then CASES_HEADER ++ cases else [])
  ++ (if note then steering_note no_violation_tally else []).

(** An ASCII digit. *)
Definition digit (c : char) : bool := ((48 <=? c) && (c <=? 57))%N.

(** The numbered lines of the case list, from number [i + 1]. *)
Fixpoint number_from (i : nat) (reasons : list str) : list str :=
  match reasons with
  | [] => []
  | r :: rest => case_line i r :: number_from (i + 1) rest
  end.

End Spec.

(* ================================================================== *)
(** * Concrete worlds and inputs                                       *)
(* ================================================================== *)

Module Scenarios.
Import Py Effects Prompts.

Definition URL : str :=
  Eval vm_compute in u "https://news.example.com/article/12345".
Definition IMG_URL : str :=
  Eval vm_compute in u "https://news.example.com/a.png".
Definition KEY : str := Eval vm_compute in u "key".

(** A site that answers every request with [code]; the browser cannot
    load the page either. *)
Definition blocked_site (code : N) : Scraper.World :=
  Scraper.mkWorld
    (fun _ => Return (Scraper.mkResponse code []))
    (fun _ _ => Return None)
    (fun _ _ => Return None)
    (fun _ _ => Raise (Error (u "parse")))
    (fun _ => Raise (Error (u "Timeout 30000ms exceeded")))
    true.

(** A site that serves the article [a]. *)
Definition site (a : Scraper.ArticleData) : Scraper.World :=
  Scraper.mkWorld
    (fun _ => Return (Scraper.mkResponse 200 (u "<html>")))
    (fun _ _ => Return (Some a))
    (fun _ _ => Return None)
    (fun _ _ => Raise (Error (u "parse")))
    (fun _ => Raise (Error (u "no browser")))
    false.

Definition TITLE : str := Eval vm_compute in u "기업 A, 사회 공헌 활동".
Definition BODY : str :=
  Eval vm_compute in u "기업 A는 올해도 봉사 활동을 이어갔다.".

(** An article without a picture, and one with. *)
Definition PLAIN_ARTICLE : Scraper.ArticleData :=
  Scraper.mkArticleData (Some TITLE) (Some BODY) None.
Definition PICTURE_ARTICLE : Scraper.ArticleData :=
  Scraper.mkArticleData (Some TITLE) (Some BODY) (Some IMG_URL).

(** A grey-scale picture with an alpha band. *)
Definition GREY_ALPHA : Pil.image := Pil.Opened "LA" (4, 4)%N false 7.
Definition PNG_BYTES : list N := [137; 80; 78; 71]%N.

(** A reason of two lines, each naming a violation. *)
Definition TWO_LINES : str := Eval vm_compute in u
"제3조「보도 준칙」 위반
주의 조치: 광고성 기사로 위반".

(** A reason that names a violation in one line and none in the other. *)
Definition MIXED_LINES : str := Eval vm_compute in u
"제10조 위반 여부 검토
결론: 위반 없음".

(** Four precedents without a violation; the metadata of the fifth
    result has no [reason]. *)
Definition FOUR_AND_NONE : list (option str) :=
  [Some NO_VIOLATION; Some NO_VIOLATION; Some NO_VIOLATION;
   Some NO_VIOLATION; None].

(** A world around a site: what the index returns and what the
    generation calls answer are given. *)
Definition world (site : Scraper.World) (found : list (option str))
    (answer : str -> result str) : Pipeline.World :=
  Pipeline.mkWorld site
    (fun _ => Return PNG_BYTES)
    (fun _ => Return GREY_ALPHA)
    (fun _ _ => Return found)
    (fun _ _ prompt _ _ => answer prompt)
    true.

Definition DRAFT : str := Eval vm_compute in u
"위 기사는 기업 A의 활동을 보도하면서 홍보성 표현을 반복했다. 따라서 위 보도는 신문윤리실천요강 제1조「언론의 자유」②항(독립)을 위반했다고 인정하여 주문과 같이 결정한다.".

Definition HEDGED : str :=
  Eval vm_compute in u "검토 결과 위반없음으로 판단한다.".

Definition always (s : str) : str -> result str := fun _ => Return s.
Definition QUOTA : exn :=
  Error (u "429 Resource has been exhausted").
Definition never : str -> result str := fun _ => Raise QUOTA.

(** A state as the Decide stage leaves it. *)
Definition drafted (draft : str) : Pipeline.AnalysisState :=
  Pipeline.set_violation_count 0
    (Pipeline.set_decision draft
       (Pipeline.set_similar_cases []
          (Pipeline.set_image_desc None
             (Pipeline.set_article PLAIN_ARTICLE (Pipeline.initial URL))))).

(** A state as the Extract stage leaves it for an article with a
    picture. *)
Definition extracted : Pipeline.AnalysisState :=
  Pipeline.set_article PICTURE_ARTICLE (Pipeline.initial URL).

(** A state as the Search stage leaves it when all five precedents
    found say that there was no violation. *)
Definition FIVE_CLEAR : str :=
  Eval vm_compute in
    join [NL] (Spec.number_from 0
                 [NO_VIOLATION; NO_VIOLATION; NO_VIOLATION; NO_VIOLATION;
                  NO_VIOLATION]).
Definition searched : Pipeline.AnalysisState :=
  Pipeline.set_similar_cases FIVE_CLEAR
    (Pipeline.set_image_desc None
       (Pipeline.set_article PLAIN_ARTICLE (Pipeline.initial URL))).

(** A citation of an unknown article whose name holds a citation of
    article 1. *)
Definition NESTED : str := Eval vm_compute in u "제99조「제1조「x」①".
Definition INNER : str := Eval vm_compute in u "제1조「x」①".

(** A citation of an ordinal that article 4 does not have, with the
    qualifier written twice. *)
Definition DOUBLE_QUALIFIER : str :=
  Eval vm_compute in u "제4조「사법 보도 준칙」⑤항항".

(** The conclusion of a decision, with a wrong name and item text. *)
Definition CONCLUSION : str := Eval vm_compute in u
"따라서 위 보도는 신문윤리실천요강 제1조「언론의 자유」②항(독립)을 위반했다고 인정한다.".

(** The parts of [CONCLUSION] around its citation. *)
Definition CONCLUSION_PRE : str :=
  Eval vm_compute in u "따라서 위 보도는 신문윤리실천요강 ".
Definition CONCLUSION_POST : str :=
  Eval vm_compute in u "을 위반했다고 인정한다.".
Definition ONE : str := Eval vm_compute in u "1".
Definition CITED_NAME : str := Eval vm_compute in u "언론의 자유".
Definition SECOND : char := Eval vm_compute in Regulation.ch "②".
Definition CITED_ITEM : str := Eval vm_compute in u "독립".

End Scenarios.

(* ================================================================== *)
(** * What a log shows, and the extractor as a function of its answers *)
(* ================================================================== *)

Module Trace.
Import Py Effects.

(** The strategies a run of [extract_article] tried, in order. *)
Fixpoint strategies (log : list event) : list string :=
  match log with
  | [] => []
  | Tried name :: log' => name :: strategies log'
  | _ :: log' => strategies log'
  end.

(** The URLs of the HTTP requests of a log. *)
Fixpoint http_gets (log : list event) : list str :=
  match log with
  | [] => []
  | HttpGet url :: log' => url :: http_gets log'
  | _ :: log' => http_gets log'
  end.

(** The URLs of the pages loaded in the browser. *)
Fixpoint page_loads (log : list event) : list str :=
  match log with
  | [] => []
  | Browser url :: log' => url :: page_loads log'
  | _ :: log' => page_loads log'
  end.

(** The queries to the index: text and number of results asked for. *)
Fixpoint index_queries (log : list event) : list (str * nat) :=
  match log with
  | [] => []
  | IndexQuery text n :: log' => (text, n) :: index_queries log'
  | _ :: log' => index_queries log'
  end.

(** The generation calls: whether an image went with the prompt, and
    the temperature. *)
Fixpoint generations (log : list event) : list (bool * temperature) :=
  match log with
  | [] => []
  | Generate _ _ image temp :: log' =>
      (match image with Some _ => true | None => false end, temp)
      :: generations log'
  | _ :: log' => generations log'
  end.

End Trace.

Module RunSpec.
Import Py Effects.

(** The extractor finds a text for [url] and no title: the article
    whose title the Extract stage cannot show. *)
Definition untitled (w : Pipeline.World) (url : str) : bool :=
  match value (Scraper.extract_article (Pipeline.scraper w) url) with
  | Return (Some a) =>
      truthy (Scraper.text a)
      && match Scraper.title a with Some _ => false | None => true end
  | _ => false
  end.

(** What slicing [None] raises. *)
Definition TYPE_ERROR : exn := Error (u "TypeError").

(** An article of which only the text was found. *)
Definition UNTITLED_ARTICLE : Scraper.ArticleData :=
  Scraper.mkArticleData None (Some Scenarios.BODY) None.

End RunSpec.

Module ScraperSpec.
Import Py Effects Scraper.

(** The first value of a list that is neither [None] nor empty. *)
Fixpoint first_truthy (l : list (option str)) : option str :=
  match l with
  | [] => None
  | x :: l' => if truthy x then x else first_truthy l'
  end.

(** What the strategies of [exs] return for [url], those that return
    nothing left out. *)
Fixpoint answers (exs : list extractor) (url : str) : list ArticleData :=
  match exs with
  | [] => []
  | ex :: rest =>
      match value (snd ex url) with
      | Return (Some data) => data :: answers rest url
      | _ => answers rest url
      end
  end.

(** A record with a title, a text and an image. *)
Definition complete (r : ArticleData) : bool :=
  truthy (title r) && truthy (text r) && truthy (image_url r).

(** The record made of the first usable value of every field. *)
Definition fieldwise_first (ds : list ArticleData) : ArticleData :=
  mkArticleData (first_truthy (map title ds))
                (first_truthy (map text ds))
                (first_truthy (map image_url ds)).

End ScraperSpec.

Module SearchSpec.
Import Py Prompts Spec.

(** The reasons of the results of a query, when every result has one. *)
Fixpoint all_reasons (results : list (option str)) : option (list str) :=
  match results with
  | [] => Some []
  | Some reason :: rest =>
      match all_reasons rest with
      | Some reasons => Some (reason :: reasons)
      | None => None
      end
  | None :: _ => None
  end.

(** The reasons of the results before the first result without one. *)
Fixpoint leading_reasons (results : list (option str)) : list str :=
  match results with
  | Some reason :: rest => reason :: leading_reasons rest
  | _ => []
  end.

(** The case list made of the answer of the index: the numbered reasons
    one per line, or nothing when the query failed or a result has no
    reason. *)
Definition case_list (found : result (list (option str))) : str :=
  match found with
  | Return results =>
      match all_reasons results with
      | Some reasons => join [NL] (number_from 0 reasons)
      | None => []
      end
  | Raise _ => []
  end.

(** The text both pipelines look up in the index and put in the prompt:
    title, a space and the first 2000 characters of the body. *)
Definition article_text (title : option str) (body : str) : str :=
  fmt_opt title ++ u " " ++ slice_to 2000 body.

End SearchSpec.

(* ================================================================== *)
(** * The result page of the Streamlit application                     *)
(* ================================================================== *)

Module Ui.
Import Py Prompts.

(** The verdict shown on the page and written to the report:
    ["위반 없음" if result['final_decision'].strip() == "위반 없음"
     else "위반"]. *)
Definition verdict (final_decision : str) : str :=
  if str_eqb (strip final_decision) NO_VIOLATION
  then NO_VIOLATION else VIOLATION.

End Ui.

(* ================================================================== *)
(** * The layout of the items of an article                            *)
(* ================================================================== *)

Module ItemLayout.
Import Py Regulation.

(** An item as the regulation text writes it: the ordinal glyph and the
    text up to the next glyph. *)
Definition item := (char * str)%type.

(** The text of a list of items, one behind the other. *)
Definition layout (items : list item) : str :=
  flat_map (fun it => fst it :: snd it) items.

(** An item that [ITEM_PATTERN] can read: a reserved glyph and a text
    that is not empty and has no reserved glyph. *)
Definition readable (it : item) : bool :=
  is_glyph (fst it) && nonempty (snd it) && forallb not_glyph (snd it).

(** The dictionary entry of an item. *)
Definition entry (it : item) : str * str := ([fst it], strip (snd it)).

(** The items of article 4 as the regulation text writes them. *)
Definition ARTICLE_4_ITEMS : list item := Eval vm_compute in
  [(ch "①", u "재판 부당 영향 금지 "); (ch "②", u "판결문 등의 사전보도 금지")].

Definition ARTICLE_4_NUMBER : str := Eval vm_compute in u "4".
Definition ARTICLE_4_NAME : str := Eval vm_compute in u "사법 보도 준칙".

(** The body of the loop of [parse_regulation_dict] for one line. *)
Definition parse_line (articles : dict str Article) (line : str)
  : dict str Article :=
  if startswith [JE] line then
    match Re.re_match LINE_PATTERN line with
    | Some m =>
        let num := Re.m_group m 1 in
        let name := Re.m_group m 2 in
        let items_text := Re.m_group m 3 in
        dict_set str_eqb articles num
          (mkArticle name (parse_items items_text))
    | None => articles
    end
  else articles.

(** A line of the regulation text: [제 num 조「 name 」] and the items. *)
Definition article_row (num name : str) (items : list item) : str :=
  JE :: num ++ JO :: LB :: name ++ RB :: layout items.

End ItemLayout.

(* ================================================================== *)
(** * [extract_images_from_html]                                       *)
(* ================================================================== *)

(** The function over the queries on the parsed page.  The parser, the
    JSON-LD extractor and [urljoin] are collaborators; what the function
    does with their answers is written out. *)
Module Html.
Import Py BinInt.

(** A tag of the parsed page: its attributes. *)
Definition Tag := dict str str.

(** [tag.get(key)] *)
Definition get (tag : Tag) (key : str) : option str :=
  dict_get str_eqb tag key.

(** [tag.get(key, default)] *)
Definition get_or (tag : Tag) (key default : str) : str :=
  match get tag key with
  | Some v => v
  | None => default
  end.

#[local] Unset Elimination Schemes.
(** A value decoded from JSON, as the Python object it is; of a number
    only whether it is zero matters here.  [JNull] is [None]. *)
Inductive json :=
| JNull
| JBool (b : bool)
| JNumber (zero : bool)
| JStr (s : str)
| JList (l : list json)
| JDict (d : list (str * json)).
#[local] Set Elimination Schemes.

(** The truth value of a Python object. *)
Definition truth (v : json) : bool :=
  match v with
  | JNull => false
  | JBool b => b
  | JNumber zero => negb zero
  | JStr s => nonempty s
  | JList l => match l with [] => false | _ :: _ => true end
  | JDict d => match d with [] => false | _ :: _ => true end
  end.

(** [d.get(key)] on a decoded object. *)
Definition jget (d : list (str * json)) (key : str) : json :=
  match dict_get str_eqb d key with
  | Some v => v
  | None => JNull
  end.

Definition CONTENT : str := Eval vm_compute in u "content".
Definition SRC : str := Eval vm_compute in u "src".
Definition WIDTH : str := Eval vm_compute in u "width".
Definition HEIGHT : str := Eval vm_compute in u "height".
Definition IMAGE : str := Eval vm_compute in u "image".
Definition URL_KEY : str := Eval vm_compute in u "url".
Definition ZERO : str := Eval vm_compute in u "0".

(** The words that rule an address out in the last step. *)
Definition EXCLUDED : list str := Eval vm_compute in
  [u "logo"; u "icon"; u "avatar"; u "profile"; u "ad"; u "banner"].

(** The answers of the page to the four queries of the function. *)
Record Soup := mkSoup {
  og_image : option Tag;
    (* [soup.find('meta', property='og:image')] *)
  tw_image : option Tag;
    (* [soup.find('meta', attrs={'name': 'twitter:image'})] *)
  article_imgs : list Tag;
    (* [soup.select('article img[src], .article img[src],
                    #article img[src]')] *)
  imgs : list Tag
    (* [soup.find_all('img', src=True)] *)
}.

Record World := mkWorld {
  BeautifulSoup : str -> result Soup;
    (* [BeautifulSoup(html, 'html.parser')]; the parser can reject the
       markup, and the constructor then raises *)
  EXTRUCT_AVAILABLE : bool;
  extruct_extract : str -> str -> result (list json);
    (* [extruct.extract(html, base_url=base_url).get('json-ld', [])] *)
  urljoin : str -> str -> result str;
    (* [urljoin(base_url, src)]; it raises on a malformed address *)
  lower_unicode : str -> str;
    (* [s.lower()] of a string with a character outside ASCII *)
  int_other : str -> option Z
    (* [int(s)] of a string that is not a plain run of ASCII digits;
       [None] is [ValueError] *)
}.

Definition is_ascii (c : char) : bool := (c <? 128)%N.

Definition ascii_lower (c : char) : char :=
  if ((65 <=? c) && (c <=? 90))%N then (c + 32)%N else c.

Definition ascii_digit (c : char) : bool := ((48 <=? c) && (c <=? 57))%N.

(** The number a run of ASCII digits writes. *)
Definition decimal (s : str) : N :=
  fold_left (fun n c => (n * 10 + (c - 48))%N) s 0%N.

(** How one round of a loop, or a block, ends. *)
Inductive outcome :=
| Returns (v : json)     (* [return v] *)
| GoesOn                 (* on to the next round, or behind the block *)
| Raises.                (* an exception, for the [except] around it *)

(** The body of the loop over the JSON-LD items. *)
Definition image_of (item : json) : outcome :=
  match item with
  | JDict d =>
      if truth (jget d IMAGE) then
        match jget d IMAGE with
        | JStr s => Returns (JStr s)
        | JDict img =>
            if truth (jget img URL_KEY) then Returns (jget img URL_KEY)
            else GoesOn
        | JList (first :: _) =>
            match first with
            | JStr s => Returns (JStr s)
            | JDict d0 => Returns (jget d0 URL_KEY)
            | _ => Raises
            end
        | _ => GoesOn
        end
      else GoesOn
  | _ => GoesOn
  end.

Fixpoint first_image (items : list json) : outcome :=
  match items with
  | [] => GoesOn
  | item :: rest =>
      match image_of item with
      | GoesOn => first_image rest
      | o => o
      end
  end.

Section WithWorld.
Variable w : World.

(** [s.lower()] *)
Definition lower (s : str) : str :=
  if forallb is_ascii s then map ascii_lower s else lower_unicode w s.

(** [int(s)] *)
Definition int_of (s : str) : option Z :=
  if nonempty s && forallb ascii_digit s && (length s <=? 4300)
  then Some (Z.of_N (decimal s))
  else int_other w s.

(** [any(x in src.lower() for x in [...])] *)
Definition excluded (src : str) : bool :=
  existsb (fun x => contains x (lower src)) EXCLUDED.

(** [int(width) >= 200 or int(height) >= 200]; [None] when one of the
    conversions that are reached raises. *)
Definition large (width height : str) : option bool :=
  match int_of width with
  | None => None
  | Some a =>
      if (200 <=? a)%Z then Some true
      else match int_of height with
           | None => None
           | Some b => Some (200 <=? b)%Z
           end
  end.

(** [return urljoin(base_url, src)] *)
Definition joined (base_url src : str) : result json :=
  match urljoin w base_url src with
  | Return s => Return (JStr s)
  | Raise e => Raise e
  end.

(** Step 5: the loop over the [img] tags. *)
Fixpoint first_img (base_url : str) (tags : list Tag) : result json :=
  match tags with
  | [] => Return JNull
  | img :: rest =>
      let src := get img SRC in
      if truthy src && negb (excluded (fmt_opt src)) then
        match large (get_or img WIDTH ZERO) (get_or img HEIGHT ZERO) with
        | Some false => first_img base_url rest
        | Some true => joined base_url (fmt_opt src)
        | None => joined base_url (fmt_opt src)
        end
      else first_img base_url rest
  end.

(** [tag and tag.get('content')] *)
Definition content_of (tag : option Tag) : option str :=
  match tag with
  | Some t => if truthy (get t CONTENT) then get t CONTENT else None
  | None => None
  end.

(** Step 3, with its [try] and bare [except]. *)
Definition json_ld_image (html base_url : str) : outcome :=
  if EXTRUCT_AVAILABLE w then
    match extruct_extract w html base_url with
    | Return items =>
        match first_image items with
        | Raises => GoesOn
        | o => o
        end
    | Raise _ => GoesOn
    end
  else GoesOn.

Definition extract_images_from_html (html base_url : str) : result json :=
  match BeautifulSoup w html with
  | Raise e => Raise e
  | Return soup =>
  match content_of (og_image soup) with
  | Some content => Return (JStr content)
  | None =>
  match content_of (tw_image soup) with
  | Some content => Return (JStr content)
  | None =>
  match json_ld_image html base_url with
  | Returns v => Return v
  | _ =>
  match article_imgs soup with
  | first :: _ =>
      if truthy (get first SRC)
      then joined base_url (fmt_opt (get first SRC))
      else Return JNull
  | [] => first_img base_url (imgs soup)
  end end end end end.

(** An [img] tag that the last step takes: it has an address without an
    excluded word, and it is not the case that its width and its height
    both convert to numbers under 200 (a missing attribute counts
    as 0). *)
Definition small (size : str) : bool :=
  match int_of size with
  | Some a => negb (200 <=? a)%Z
  | None => false
  end.

Definition taken (img : Tag) : bool :=
  truthy (get img SRC) && negb (excluded (fmt_opt (get img SRC)))
  && negb (small (get_or img WIDTH ZERO) && small (get_or img HEIGHT ZERO)).

End WithWorld.

(** A page with one picture, sized by percentage, and no metadata. *)
Definition PHOTO : Tag := Eval vm_compute in
  [(u "src", u "/media/photo.jpg"); (u "width", u "100%")].
Definition UPLOADED : Tag := Eval vm_compute in
  [(u "src", u "/Uploads/photo.jpg"); (u "width", u "640")].
Definition UNSIZED : Tag := Eval vm_compute in
  [(u "src", u "/media/photo.jpg")].

Definition plain_site (tags : list Tag) : World :=
  mkWorld (fun _ => Return (mkSoup None None [] tags))
          true (fun _ _ => Return [])
          (fun base src => Return (base ++ src))
          (fun s => s) (fun _ => None).

End Html.

Module Samples.
Import Py.

(** A citation of article 3 with its number written [03]. *)
Definition ZERO_PADDED : str :=
  Eval vm_compute in u "제03조「보도 준칙」①항(사실과 의견 구분) 위반".

(** The same citation with a full-width digit. *)
Definition FULL_WIDTH : str :=
  Eval vm_compute in u "제３조「보도 준칙」①항(사실과 의견 구분) 위반".

End Samples.

(* ================================================================== *)
(** * Properties of the string operations                              *)
(* ================================================================== *)

Module PyProps.
Import Py Spec.
Lemma startswith_spec p : forall s,
  startswith p s = true <-> exists post, s = p ++ post.
Proof.
  induction p as [|a p IH]; intros s; simpl.
  - split; eauto.
  - destruct s as [|b s].
    + split; [discriminate|]. intros [post H]. discriminate.
    + rewrite andb_true_iff, N.eqb_eq, IH. split.
      * intros [-> [post ->]]. now exists post.
      * intros [post H]. injection H as -> ->. eauto.
Qed.

Lemma contains_spec sub : forall s,
  contains sub s = true <-> substring sub s.
Proof.
  induction s as [|c s IH].
  - simpl. rewrite orb_false_r, startswith_spec. split.
    + intros [post H]. now exists [], post.
    + intros [pre [post H]]. destruct pre; [|discriminate]. now exists post.
  - simpl. rewrite orb_true_iff, startswith_spec, IH. split.
    + intros [[post H]|[pre [post H]]].
      * now exists [], post.
      * exists (c :: pre), post. simpl. now rewrite H.
    + intros [pre [post H]]. destruct pre as [|x pre].
      * left. now exists post.
      * right. injection H as -> ->. now exists pre, post.
Qed.

Lemma contains_false_spec sub s :
  contains sub s = false <-> ~ substring sub s.
Proof.
  rewrite <- contains_spec. destruct (contains sub s); split; congruence.
Qed.

End PyProps.

(* ================================================================== *)
(** * Properties of the matcher                                        *)
(* ================================================================== *)

Module EngineProps.
Import Py Re Regulation CitationScan.


Lemma rmatch_Lit c s g k :
  rmatch (Lit c) s g k =
  match s with x :: s' => if (x =? c)%N then k s' g else None | [] => None end.
Proof. reflexivity. Qed.

Lemma rmatch_Cls p s g k :
  rmatch (Cls p) s g k =
  match s with x :: s' => if p x then k s' g else None | [] => None end.
Proof. reflexivity. Qed.

Lemma rmatch_Cat r1 r2 s g k :
  rmatch (Cat r1 r2) s g k = rmatch r1 s g (fun s' g' => rmatch r2 s' g' k).
Proof. reflexivity. Qed.

Lemma rmatch_Alt r1 r2 s g k :
  rmatch (Alt r1 r2) s g k =
  match rmatch r1 s g k with Some x => Some x | None => rmatch r2 s g k end.
Proof. reflexivity. Qed.

Lemma rmatch_Opt r1 s g k :
  rmatch (Opt r1) s g k =
  match rmatch r1 s g k with Some x => Some x | None => k s g end.
Proof. reflexivity. Qed.

Lemma rmatch_Star r1 s g k :
  rmatch (Star r1) s g k = star_loop (rmatch r1) (length s) s g k.
Proof. reflexivity. Qed.

Lemma rmatch_Plus r1 s g k :
  rmatch (Plus r1) s g k =
  rmatch r1 s g (fun s' g' => star_loop (rmatch r1) (length s') s' g' k).
Proof. reflexivity. Qed.

Lemma rmatch_Grp i r1 s g k :
  rmatch (Grp i r1) s g k =
  rmatch r1 s g (fun s' g' => k s' ((i, firstn (length s - length s') s) :: g')).
Proof. reflexivity. Qed.

Lemma star_cls p k : forall n s g,
  length s <= n ->
  star_loop (rmatch (Cls p)) n s g k = greedy_cls p s g k.
Proof.
  induction n as [|n IH]; intros s g Hn.
  - destruct s; [reflexivity|simpl in Hn; lia].
  - destruct s as [|c s]; [reflexivity|].
    cbn [star_loop rmatch greedy_cls]. destruct (p c); [|reflexivity].
    assert (Hlt : (length s <? length (c :: s)) = true)
      by (apply Nat.ltb_lt; simpl; lia).
    rewrite Hlt, IH by (simpl in Hn; lia). reflexivity.
Qed.

Lemma greedy_cls_det p (k : cont) :
  (forall c t g, p c = true -> k (c :: t) g = None) ->
  forall s g, greedy_cls p s g k = k (dropw p s) g.
Proof.
  intros Hk. induction s as [|c s IH]; intros g; [reflexivity|].
  simpl. destruct (p c) eqn:E; [|reflexivity].
  rewrite IH. destruct (k (dropw p s) g) eqn:Ek; [reflexivity|].
  now apply Hk.
Qed.

Lemma take_drop p s : takew p s ++ dropw p s = s.
Proof. induction s as [|c s IH]; simpl; [reflexivity|]. destruct (p c); simpl; congruence. Qed.

Lemma dropw_length p s : length (dropw p s) <= length s.
Proof. induction s as [|c s IH]; simpl; [lia|]. destruct (p c); simpl; lia. Qed.

Lemma firstn_takew p s :
  firstn (length s - length (dropw p s)) s = takew p s.
Proof.
  rewrite <- (take_drop p s) at 1 3.
  rewrite length_app, Nat.add_sub, firstn_app, Nat.sub_diag, firstn_all. simpl.
  now rewrite app_nil_r.
Qed.

Lemma firstn_takew_cons p c s :
  firstn (length (c :: s) - length (dropw p s)) (c :: s) = c :: takew p s.
Proof.
  pose proof (dropw_length p s). simpl length.
  replace (S (length s) - length (dropw p s)) with (S (length s - length (dropw p s))) by lia.
  simpl. now rewrite firstn_takew.
Qed.

(** [Grp i (Plus (Cls p))] followed by a continuation that refuses
    every string starting in the class. *)
Lemma plus_cls_det i p (k : cont) s g :
  (forall c t g, p c = true -> k (c :: t) g = None) ->
  rmatch (Grp i (Plus (Cls p))) s g k =
  match s with
  | c :: s' =>
      if p c then k (dropw p s') ((i, c :: takew p s') :: g) else None
  | [] => None
  end.
Proof.
  intros Hk. rewrite rmatch_Grp, rmatch_Plus, rmatch_Cls.
  destruct s as [|c s]; [reflexivity|].
  destruct (p c); [|reflexivity].
  rewrite star_cls by lia.
  rewrite greedy_cls_det.
  - now rewrite firstn_takew_cons.
  - intros c' t g' Hc. now apply Hk.
Qed.

End EngineProps.

Module Soundness.
Import Py Re EngineProps.

Lemma star_sound r body :
  sound_body r body ->
  forall n s g k x, star_loop body n s g k = Some x ->
    exists m rest g', s = m ++ rest /\ matches (Star r) m /\ k rest g' = Some x.
Proof.
  intros Hb. induction n as [|n IH]; intros s g k x H.
  - exists [], s, g. repeat split; [constructor|exact H].
  - cbn [star_loop] in H.
    destruct (body s g _) as [y|] eqn:E.
    + injection H as ->. apply Hb in E.
      destruct E as (m1 & rest1 & g1 & -> & M1 & K1).
      destruct (length rest1 <? length (m1 ++ rest1)); [|discriminate].
      apply IH in K1. destruct K1 as (m2 & rest2 & g2 & -> & M2 & K2).
      exists (m1 ++ m2), rest2, g2. rewrite app_assoc.
      repeat split; [now constructor|exact K2].
    + exists [], s, g. repeat split; [constructor|exact H].
Qed.

Lemma rmatch_sound r : sound_body r (rmatch r).
Proof.
  induction r as [c|p|r1 IH1 r2 IH2|r1 IH1 r2 IH2|r1 IH1|r1 IH1|r1 IH1|i r1 IH1];
    intros s g k x H.
  - rewrite rmatch_Lit in H. destruct s as [|y s']; [discriminate|].
    destruct (y =? c)%N eqn:E; [|discriminate]. apply N.eqb_eq in E. subst y.
    exists [c], s', g. repeat split; [constructor|exact H].
  - rewrite rmatch_Cls in H. destruct s as [|y s']; [discriminate|].
    destruct (p y) eqn:E; [|discriminate].
    exists [y], s', g. repeat split; [now constructor|exact H].
  - rewrite rmatch_Cat in H. apply IH1 in H.
    destruct H as (m1 & rest1 & g1 & -> & M1 & K1). apply IH2 in K1.
    destruct K1 as (m2 & rest2 & g2 & -> & M2 & K2).
    exists (m1 ++ m2), rest2, g2. rewrite app_assoc.
    repeat split; [now constructor|exact K2].
  - rewrite rmatch_Alt in H. destruct (rmatch r1 s g k) as [y|] eqn:E.
    + injection H as ->. apply IH1 in E.
      destruct E as (m & rest & g' & -> & M & K).
      exists m, rest, g'. repeat split; [now apply MAltL|exact K].
    + apply IH2 in H. destruct H as (m & rest & g' & -> & M & K).
      exists m, rest, g'. repeat split; [now apply MAltR|exact K].
  - rewrite rmatch_Opt in H. destruct (rmatch r1 s g k) as [y|] eqn:E.
    + injection H as ->. apply IH1 in E.
      destruct E as (m & rest & g' & -> & M & K).
      exists m, rest, g'. repeat split; [now apply MOptSome|exact K].
    + exists [], s, g. repeat split; [constructor|exact H].
  - rewrite rmatch_Star in H. now apply (star_sound IH1) in H.
  - rewrite rmatch_Plus in H. apply IH1 in H.
    destruct H as (m1 & rest1 & g1 & -> & M1 & K1).
    apply (star_sound IH1) in K1.
    destruct K1 as (m2 & rest2 & g2 & -> & M2 & K2).
    exists (m1 ++ m2), rest2, g2. rewrite app_assoc.
    repeat split; [now constructor|exact K2].
  - rewrite rmatch_Grp in H. apply IH1 in H.
    destruct H as (m & rest & g' & -> & M & K).
    exists m, rest, ((i, firstn (length (m ++ rest) - length rest) (m ++ rest)) :: g').
    repeat split; [now constructor|exact K].
Qed.

Lemma firstn_app_length (m rest : str) :
  firstn (length (m ++ rest) - length rest) (m ++ rest) = m.
Proof.
  rewrite length_app, Nat.add_sub, firstn_app, Nat.sub_diag, firstn_all.
  simpl. apply app_nil_r.
Qed.

Lemma re_match_sound r s m :
  re_match r s = Some m ->
  s = m_text m ++ m_rest m /\ matches r (m_text m).
Proof.
  unfold re_match. destruct (rmatch r s [] _) as [[rest g]|] eqn:E; [|discriminate].
  intros H. injection H as <-. simpl.
  apply rmatch_sound in E. destruct E as (t & rest' & g' & -> & M & K).
  injection K as -> ->. rewrite firstn_app_length. now split.
Qed.

Lemma match_here_sound r s m :
  match_here r s = Some m ->
  s = m_text m ++ m_rest m /\ m_text m <> [] /\ matches r (m_text m).
Proof.
  unfold match_here. destruct (re_match r s) as [m'|] eqn:E; [|discriminate].
  destruct (nonempty (m_text m')) eqn:N; [|discriminate].
  intros H. injection H as <-. apply re_match_sound in E. destruct E as [E1 E2].
  repeat split; try assumption. intros C. rewrite C in N. discriminate.
Qed.

(** Passing a match: [skip] characters are dropped unseen. *)
Lemma sub_scan_skip r repl (x rest : str) :
  sub_scan r repl (length x) (x ++ rest) = sub_scan r repl 0 rest.
Proof. induction x as [|c x IH]; simpl; [|exact IH]. now destruct rest. Qed.

Lemma re_sub_step r repl s :
  re_sub r repl s =
  match s with
  | [] => []
  | c :: s' =>
      match match_here r s with
      | Some m => repl m ++ re_sub r repl (m_rest m)
      | None => c :: re_sub r repl s'
      end
  end.
Proof.
  unfold re_sub. destruct s as [|c s']; [reflexivity|].
  cbn [sub_scan]. destruct (match_here r (c :: s')) as [m|] eqn:E; [|reflexivity].
  apply match_here_sound in E. destruct E as (E1 & E2 & _).
  destruct (m_text m) as [|c' t]; [contradiction|].
  simpl in E1. injection E1 as -> ->.
  match goal with |- context [length (?a :: ?b) - 1] =>
    replace (length (a :: b) - 1) with (length b) by (simpl; lia) end.
  now rewrite sub_scan_skip.
Qed.

Theorem no_match_identity r repl : forall t,
  ~ occurs r t -> re_sub r repl t = t.
Proof.
  induction t as [|c t IH]; intros H; rewrite re_sub_step; [reflexivity|].
  destruct (match_here r (c :: t)) as [m|] eqn:E.
  - exfalso. apply H. apply match_here_sound in E. destruct E as (E1 & E2 & E3).
    exists [], (m_text m), (m_rest m). now repeat split.
  - f_equal. apply IH. intros (pre & m & post & -> & Hne & Hm). apply H.
    exists (c :: pre), m, post. now repeat split.
Qed.

End Soundness.

(* ================================================================== *)
(** * The citation pattern                                             *)
(* ================================================================== *)

Module CiteProps.
Import Py Re Regulation CitationScan EngineProps.


Lemma dropw_head p s x t : dropw p s = x :: t -> p x = false.
Proof.
  induction s as [|c s IH]; simpl; [discriminate|].
  destruct (p c) eqn:E; [exact IH|]. intros H. injection H as <- _. exact E.
Qed.

Lemma paren_body s g (K : cont) :
  rmatch PAREN_PATTERN s g K =
  match paren_here s with Some s3 => K s3 g | None => None end.
Proof.
  unfold PAREN_PATTERN, paren_here. rewrite rmatch_Cat, rmatch_Lit.
  destruct s as [|c s1]; [reflexivity|].
  destruct (c =? LP)%N; [|reflexivity].
  rewrite rmatch_Cat, rmatch_Star, star_cls by lia.
  rewrite greedy_cls_det.
  - rewrite rmatch_Lit. destruct (dropw not_RP s1) as [|x s3] eqn:E; [reflexivity|].
    apply dropw_head in E. unfold not_RP in E. apply negb_false_iff in E.
    now rewrite E.
  - intros c' t g' Hc. rewrite rmatch_Lit. unfold not_RP in Hc.
    apply negb_true_iff in Hc. now rewrite Hc.
Qed.

Lemma paren_here_shorter s s3 :
  paren_here s = Some s3 -> S (length s3) < length s.
Proof.
  unfold paren_here. destruct s as [|c s1]; [discriminate|].
  destruct (c =? LP)%N; [|discriminate].
  destruct (dropw not_RP s1) as [|x t] eqn:E; [discriminate|].
  intros H. injection H as <-. pose proof (dropw_length not_RP s1) as L.
  rewrite E in L. simpl in *. lia.
Qed.

Lemma star_parens : forall n s g,
  star_loop (rmatch PAREN_PATTERN) n s g final = Some (parens_skip n s, g).
Proof.
  induction n as [|n IH]; intros s g; [reflexivity|].
  cbn [star_loop parens_skip]. rewrite paren_body.
  destruct (paren_here s) as [s3|] eqn:E; [|reflexivity].
  apply paren_here_shorter in E.
  assert (Hlt : (length s3 <? length s) = true) by (apply Nat.ltb_lt; lia).
  now rewrite Hlt, IH.
Qed.

Lemma opt_alt_lit a b s g (K : cont) :
  (forall s g, K s g <> None) ->
  rmatch (Opt (Alt (Lit a) (Lit b))) s g K =
  match s with
  | c :: s' => if (c =? a)%N || (c =? b)%N then K s' g else K s g
  | [] => K [] g
  end.
Proof.
  intros HK. rewrite rmatch_Opt, rmatch_Alt, !rmatch_Lit.
  destruct s as [|c s']; [reflexivity|].
  destruct (c =? a)%N, (c =? b)%N; cbv beta iota; simpl orb;
    try reflexivity;
    destruct (K s' g) eqn:E; try reflexivity; now apply HK in E.
Qed.

Lemma tail_final s g : rmatch TAIL_PATTERN s g final = Some (tail_skip s, g).
Proof.
  unfold TAIL_PATTERN, tail_skip, qual_skip.
  rewrite rmatch_Cat, opt_alt_lit.
  - destruct s as [|c s']; [|destruct ((c =? HANG)%N || (c =? HO)%N)];
      rewrite rmatch_Star; apply star_parens.
  - intros s0 g0. rewrite rmatch_Star, star_parens. discriminate.
Qed.

Lemma decimal_not_JO c : is_decimal c = true -> (c =? JO)%N = false.
Proof.
  intros H. destruct (c =? JO)%N eqn:E; [|reflexivity].
  apply N.eqb_eq in E. subst c. vm_compute in H. discriminate.
Qed.

Lemma not_RB_not_RB c : not_RB c = true -> (c =? RB)%N = false.
Proof. unfold not_RB. now rewrite negb_true_iff. Qed.

Lemma citation_direct s :
  rmatch CITATION_PATTERN s [] final =
  match cite_here s with
  | Some (num, name, gl, rest) => Some (rest, [(3, gl); (2, name); (1, num)])
  | None => None
  end.
Proof.
  unfold CITATION_PATTERN, cite_here, after_digits, name_here.
  rewrite rmatch_Cat, rmatch_Lit.
  destruct s as [|c0 s0]; [reflexivity|].
  destruct (c0 =? JE)%N; simpl andb; [|now destruct s0].
  rewrite rmatch_Cat, plus_cls_det.
  2:{ intros c t g Hc. rewrite rmatch_Cat, rmatch_Lit. now rewrite (decimal_not_JO _ Hc). }
  destruct s0 as [|d s1]; [reflexivity|].
  destruct (is_decimal d); [|reflexivity].
  rewrite rmatch_Cat, rmatch_Lit.
  destruct (dropw is_decimal s1) as [|c1 s2]; [reflexivity|].
  destruct (c1 =? JO)%N; simpl andb; [|now destruct s2].
  rewrite rmatch_Cat, rmatch_Lit.
  destruct s2 as [|c2 s2']; [reflexivity|].
  destruct (c2 =? LB)%N; simpl andb; [|reflexivity].
  rewrite rmatch_Cat, plus_cls_det.
  2:{ intros c t g Hc. rewrite rmatch_Cat, rmatch_Lit. now rewrite (not_RB_not_RB _ Hc). }
  destruct s2' as [|n0 s3]; [reflexivity|].
  destruct (not_RB n0); [|reflexivity].
  rewrite rmatch_Cat, rmatch_Lit.
  destruct (dropw not_RB s3) as [|rb s4] eqn:E4; [reflexivity|].
  apply dropw_head in E4. unfold not_RB in E4. apply negb_false_iff in E4.
  rewrite E4.
  rewrite rmatch_Cat, rmatch_Grp, rmatch_Cls.
  destruct s4 as [|gl s5]; [reflexivity|].
  destruct (is_glyph gl); [|reflexivity].
  change (rmatch TAIL_PATTERN s5 ((3, firstn (length (gl :: s5) - length s5) (gl :: s5))
            :: (2, n0 :: takew not_RB s3) :: [(1, d :: takew is_decimal s1)]) final
          = Some (tail_skip s5, [(3, [gl]); (2, n0 :: takew not_RB s3);
                                 (1, d :: takew is_decimal s1)])).
  rewrite tail_final.
  replace (length (gl :: s5) - length s5) with 1
    by (change (length (gl :: s5)) with (S (length s5)); lia).
  reflexivity.
Qed.

End CiteProps.

Module StepProps.
Import Py Re Regulation CitationScan EngineProps CiteProps Soundness.


Lemma takew_all p s : forallb p (takew p s) = true.
Proof. induction s as [|c s IH]; simpl; [reflexivity|]. destruct (p c) eqn:E; simpl; [now rewrite E|reflexivity]. Qed.

Lemma takew_stop p a x b :
  forallb p a = true -> p x = false -> takew p (a ++ x :: b) = a.
Proof.
  induction a as [|c a IH]; simpl; intros Ha Hx; [now rewrite Hx|].
  apply andb_true_iff in Ha. destruct Ha as [Hc Ha]. rewrite Hc. f_equal. now apply IH.
Qed.

Lemma dropw_stop p a x b :
  forallb p a = true -> p x = false -> dropw p (a ++ x :: b) = x :: b.
Proof.
  induction a as [|c a IH]; simpl; intros Ha Hx; [now rewrite Hx|].
  apply andb_true_iff in Ha. destruct Ha as [Hc Ha]. rewrite Hc. now apply IH.
Qed.

Lemma tail_skip_sound s5 :
  exists tail, s5 = tail ++ tail_skip s5 /\ matches TAIL_PATTERN tail.
Proof.
  pose proof (tail_final s5 []) as H. apply rmatch_sound in H.
  destruct H as (m & rest & g' & E & M & K). injection K as -> _.
  now exists m.
Qed.

Lemma cite_here_sound s num name gl rest :
  cite_here s = Some (num, name, gl, rest) ->
  exists g tail,
    gl = [g] /\ s = citation num name g tail ++ rest /\
    num <> [] /\ forallb is_decimal num = true /\
    name <> [] /\ forallb not_RB name = true /\
    is_glyph g = true /\ matches TAIL_PATTERN tail /\ tail_skip (tail ++ rest) = rest.
Proof.
  unfold cite_here, after_digits, name_here.
  destruct s as [|c0 [|d s1]]; try discriminate.
  destruct (c0 =? JE)%N eqn:E0; [|discriminate]. apply N.eqb_eq in E0. subst c0.
  destruct (is_decimal d) eqn:Ed; [|discriminate]. simpl andb. cbv iota.
  destruct (dropw is_decimal s1) as [|c1 [|c2 [|n0 s3]]] eqn:E1; try discriminate.
  { destruct ((c1 =? JO)%N && (c2 =? LB)%N); discriminate. }
  destruct (c1 =? JO)%N eqn:E2; [|discriminate]. apply N.eqb_eq in E2. subst c1.
  destruct (c2 =? LB)%N eqn:E3; [|discriminate]. apply N.eqb_eq in E3. subst c2.
  destruct (not_RB n0) eqn:En; [|discriminate]. simpl andb. cbv iota.
  destruct (dropw not_RB s3) as [|rb [|g s5]] eqn:E4; try discriminate.
  destruct (is_glyph g) eqn:Eg; [|discriminate].
  intros H. injection H as <- <- <- <-.
  destruct (tail_skip_sound s5) as (tail & Et & Mt).
  exists g, tail. split; [reflexivity|].
  assert (Hrb : rb = RB).
  { pose proof (dropw_head _ _ E4) as Hh. unfold not_RB in Hh.
    apply negb_false_iff, N.eqb_eq in Hh. exact Hh. }
  subst rb.
  repeat split.
  - unfold citation.
    rewrite <- (take_drop is_decimal s1) at 1. rewrite E1.
    rewrite <- (take_drop not_RB s3) at 1. rewrite E4. rewrite Et at 1.
    simpl. repeat (rewrite <- app_assoc; simpl). reflexivity.
  - discriminate.
  - simpl. now rewrite Ed, takew_all.
  - discriminate.
  - simpl. now rewrite En, takew_all.
  - exact Eg.
  - exact Mt.
  - now rewrite <- Et.
Qed.

Lemma cite_here_complete num name g s5 :
  num <> [] -> forallb is_decimal num = true ->
  name <> [] -> forallb not_RB name = true ->
  is_glyph g = true ->
  cite_here (citation num name g s5) = Some (num, name, [g], tail_skip s5).
Proof.
  intros Hn Hd Hm Hb Hg. unfold citation, cite_here, after_digits, name_here.
  destruct num as [|d num]; [contradiction|].
  destruct name as [|n0 name]; [contradiction|].
  simpl in Hd, Hb. apply andb_true_iff in Hd, Hb.
  destruct Hd as [Hd Hd'], Hb as [Hb Hb'].
  simpl app. rewrite N.eqb_refl, Hd. simpl andb. cbv iota.
  rewrite dropw_stop by (assumption || reflexivity).
  rewrite !N.eqb_refl, Hb. simpl andb. cbv iota.
  rewrite dropw_stop by (assumption || (unfold not_RB; now rewrite N.eqb_refl)).
  rewrite Hg.
  rewrite !takew_stop by (assumption || reflexivity || (unfold not_RB; now rewrite N.eqb_refl)).
  reflexivity.
Qed.

Lemma match_here_citation s :
  match_here CITATION_PATTERN s =
  match cite_here s with
  | Some (num, name, gl, rest) =>
      Some (mkMatch (firstn (length s - length rest) s)
                    [(3, gl); (2, name); (1, num)] rest)
  | None => None
  end.
Proof.
  unfold match_here, re_match.
  rewrite citation_direct.
  destruct (cite_here s) as [[[[num name] gl] rest]|] eqn:E; [|reflexivity].
  apply cite_here_sound in E. destruct E as (g & tail & -> & -> & _).
  cbn [m_text]. rewrite firstn_app_length. reflexivity.
Qed.

Lemma replace_match_canonical text num name g rest :
  replace_match (mkMatch text [(3, [g]); (2, name); (1, num)] rest)
  = canonical num g text.
Proof.
  unfold replace_match, canonical, citation.
  change (m_group (mkMatch text [(3, [g]); (2, name); (1, num)] rest) 1) with num.
  change (m_group (mkMatch text [(3, [g]); (2, name); (1, num)] rest) 3) with [g].
  change (m_group (mkMatch text [(3, [g]); (2, name); (1, num)] rest) 0) with text.
  destruct (dict_get str_eqb REGULATION_DICT num) as [art|]; [|reflexivity].
  destruct (dict_get str_eqb (items art) [g]) as [c|].
  - reflexivity.
  - reflexivity.
Qed.

Lemma correct_step s :
  correct_article_reference s =
  match cite_here s with
  | Some (num, name, gl, rest) =>
      canonical num (hd 0%N gl) (firstn (length s - length rest) s)
      ++ correct_article_reference rest
  | None =>
      match s with
      | [] => []
      | c :: s' => c :: correct_article_reference s'
      end
  end.
Proof.
  unfold correct_article_reference. rewrite re_sub_step, match_here_citation.
  destruct (cite_here s) as [[[[num name] gl] rest]|] eqn:E.
  - pose proof (cite_here_sound _ E) as (g & tail & -> & -> & _).
    cbn [m_rest hd]. rewrite replace_match_canonical.
    reflexivity.
  - destruct s; reflexivity.
Qed.

End StepProps.

Module TailProps.
Import Py Re Regulation CitationScan EngineProps CiteProps Soundness StepProps.


Lemma matches_Lit_inv c m : matches (Lit c) m -> m = [c].
Proof. intros H. now inversion H. Qed.

Lemma matches_Cls_inv p m :
  matches (Cls p) m -> exists c, m = [c] /\ p c = true.
Proof. intros H. inversion H; subst. eauto. Qed.

Lemma matches_Cat_inv r1 r2 m :
  matches (Cat r1 r2) m ->
  exists a b, m = a ++ b /\ matches r1 a /\ matches r2 b.
Proof. intros H. inversion H; subst. eauto. Qed.

Lemma matches_Alt_inv r1 r2 m :
  matches (Alt r1 r2) m -> matches r1 m \/ matches r2 m.
Proof. intros H. inversion H; subst; tauto. Qed.

Lemma matches_Opt_inv r1 m :
  matches (Opt r1) m -> m = [] \/ matches r1 m.
Proof. intros H. inversion H; subst; tauto. Qed.

Lemma matches_Plus_inv r1 m :
  matches (Plus r1) m ->
  exists a b, m = a ++ b /\ matches r1 a /\ matches (Star r1) b.
Proof. intros H. inversion H; subst. eauto. Qed.

Lemma matches_Grp_inv i r1 m : matches (Grp i r1) m -> matches r1 m.
Proof. intros H. now inversion H. Qed.

Lemma star_cls_all p body :
  matches (Star (Cls p)) body -> forallb p body = true.
Proof.
  remember (Star (Cls p)) as R eqn:ER. intros H.
  induction H; try discriminate; injection ER as ->.
  - reflexivity.
  - rewrite forallb_app, IHmatches2 by reflexivity.
    apply matches_Cls_inv in H. destruct H as (c & -> & Hc). simpl. now rewrite Hc.
Qed.

Lemma paren_shape a :
  matches PAREN_PATTERN a ->
  exists body, a = LP :: body ++ [RP] /\ forallb not_RP body = true.
Proof.
  unfold PAREN_PATTERN. intros H.
  apply matches_Cat_inv in H. destruct H as (x & y & -> & H1 & H2).
  apply matches_Lit_inv in H1. subst x.
  apply matches_Cat_inv in H2. destruct H2 as (body & z & -> & H3 & H4).
  apply matches_Lit_inv in H4. subst z. apply star_cls_all in H3.
  now exists body.
Qed.

Lemma paren_here_complete a z :
  matches PAREN_PATTERN a -> paren_here (a ++ z) = Some z.
Proof.
  intros H. apply paren_shape in H. destruct H as (body & -> & Hb).
  unfold paren_here. cbn [app]. rewrite N.eqb_refl, <- app_assoc. cbn [app].
  rewrite dropw_stop; [reflexivity|assumption|].
  unfold not_RP. now rewrite N.eqb_refl.
Qed.

Lemma paren_here_suffix s s3 :
  paren_here s = Some s3 -> exists a, s = a ++ s3 /\ a <> [].
Proof.
  unfold paren_here. destruct s as [|c s1]; [discriminate|].
  destruct (c =? LP)%N; [|discriminate].
  destruct (dropw not_RP s1) as [|x t] eqn:E; [discriminate|].
  intros H. injection H as <-. exists (c :: takew not_RP s1 ++ [x]). split; [|discriminate].
  simpl. rewrite <- app_assoc. simpl. rewrite <- E. now rewrite take_drop.
Qed.

Lemma parens_skip_length : forall n s, length (parens_skip n s) <= length s.
Proof.
  induction n as [|n IH]; intros s; simpl; [lia|].
  destruct (paren_here s) as [s3|] eqn:E; [|lia].
  apply paren_here_shorter in E. specialize (IH s3). lia.
Qed.

Lemma qual_skip_length s : length (qual_skip s) <= length s.
Proof.
  unfold qual_skip. destruct s as [|c s]; [simpl; lia|].
  destruct ((c =? HANG)%N || (c =? HO)%N); simpl; lia.
Qed.

(** The greedy loop passes at least the parentheticals it is given. *)
Lemma parens_consume ps :
  matches (Star PAREN_PATTERN) ps ->
  forall r n, length (ps ++ r) <= n ->
    length (parens_skip n (ps ++ r)) <= length r.
Proof.
  remember (Star PAREN_PATTERN) as R eqn:ER. intros H.
  induction H; try discriminate; injection ER as ->; intros r n Hn.
  - apply parens_skip_length.
  - rewrite <- app_assoc in *.
    pose proof (paren_here_complete (b ++ r) H) as Hp.
    pose proof (paren_here_shorter _ Hp) as Hl.
    destruct n as [|n]; [lia|]. cbn [parens_skip]. rewrite Hp.
    apply IHmatches2; [reflexivity|lia].
Qed.

Lemma star_paren_head ps :
  matches (Star PAREN_PATTERN) ps -> ps = [] \/ exists t, ps = LP :: t.
Proof.
  remember (Star PAREN_PATTERN) as R eqn:ER. intros H.
  induction H; try discriminate; injection ER as ->.
  - now left.
  - right. apply paren_shape in H. destruct H as (body & -> & _).
    simpl. eauto.
Qed.

Lemma tail_shape tail :
  matches TAIL_PATTERN tail ->
  exists q ps, tail = q ++ ps /\ (q = [] \/ q = [HANG] \/ q = [HO])
               /\ matches (Star PAREN_PATTERN) ps.
Proof.
  unfold TAIL_PATTERN. intros H.
  apply matches_Cat_inv in H. destruct H as (q & ps & -> & H1 & H2).
  exists q, ps. repeat split; [|exact H2].
  apply matches_Opt_inv in H1. destruct H1 as [->|H1]; [now left|].
  apply matches_Alt_inv in H1. destruct H1 as [H1|H1];
    apply matches_Lit_inv in H1; subst; tauto.
Qed.

Lemma tail_skip_length s : length (tail_skip s) <= length s.
Proof.
  unfold tail_skip. pose proof (parens_skip_length (length (qual_skip s)) (qual_skip s)).
  pose proof (qual_skip_length s). lia.
Qed.

Lemma qual_skip_lp t : qual_skip (LP :: t) = LP :: t.
Proof. reflexivity. Qed.

Lemma qual_skip_hang t : qual_skip (HANG :: t) = t.
Proof. reflexivity. Qed.

Lemma qual_skip_ho t : qual_skip (HO :: t) = t.
Proof. reflexivity. Qed.

(** [tail_skip] passes at least any tail the text starts with. *)
Lemma tail_skip_longest tail r :
  matches TAIL_PATTERN tail -> length (tail_skip (tail ++ r)) <= length r.
Proof.
  intros H. apply tail_shape in H. destruct H as (q & ps & -> & Hq & Hps).
  destruct Hq as [Hq|[Hq|Hq]]; subst q; cbn [app].
  - destruct (star_paren_head Hps) as [->|[t ->]].
    + apply tail_skip_length.
    + unfold tail_skip. cbn [app]. rewrite qual_skip_lp.
      now apply (parens_consume Hps).
  - unfold tail_skip. rewrite qual_skip_hang. now apply parens_consume.
  - unfold tail_skip. rewrite qual_skip_ho. now apply parens_consume.
Qed.

Lemma app_same_length A (a b c d : list A) :
  a ++ b = c ++ d -> length a <= length c -> exists x, c = a ++ x /\ b = x ++ d.
Proof.
  revert c. induction a as [|y a IH]; intros c H L.
  - exists c. now split.
  - destruct c as [|z c]; [simpl in L; lia|].
    simpl in H. injection H as -> H. simpl in L.
    destruct (IH c H ltac:(lia)) as (x & -> & ->). now exists x.
Qed.

Lemma tail_skip_greedy tail post :
  matches TAIL_PATTERN tail ->
  (forall x y, post = x ++ y -> x <> [] -> ~ matches TAIL_PATTERN (tail ++ x)) ->
  tail_skip (tail ++ post) = post.
Proof.
  intros Ht Hmax.
  destruct (tail_skip_sound (tail ++ post)) as (t0 & E & M0).
  pose proof (tail_skip_longest post Ht) as L.
  assert (Hlen : length tail <= length t0).
  { apply (f_equal (@length _)) in E. rewrite !length_app in E. lia. }
  destruct (app_same_length _ _ _ _ E Hlen) as (x & -> & Hp).
  destruct x as [|c x].
  - exact (eq_sym Hp).
  - exfalso. apply (Hmax (c :: x) _ Hp); [discriminate|exact M0].
Qed.

End TailProps.

Module RewriteProps.
Import Py Re Regulation CitationScan EngineProps CiteProps Soundness StepProps TailProps.


Lemma citation_app num name g tail rest :
  citation num name g tail ++ rest = citation num name g (tail ++ rest).
Proof. unfold citation. simpl. rewrite <- app_assoc. simpl. now rewrite <- app_assoc. Qed.

Lemma cite_here_begins s x :
  cite_here s = Some x -> begins CITATION_PATTERN s.
Proof.
  intros H. pose proof (match_here_citation s) as E. rewrite H in E.
  destruct x as [[[num name] gl] rest].
  apply match_here_sound in E. cbn [m_text m_rest] in E.
  destruct E as (E1 & E2 & E3). now exists (firstn (length s - length rest) s), rest.
Qed.

End RewriteProps.

Module IdemProps.
Import Py Re Regulation CitationScan EngineProps CiteProps Soundness StepProps TailProps RewriteProps.


Lemma find_scan_skip r (x rest : str) :
  find_scan r (length x) (x ++ rest) = find_scan r 0 rest.
Proof. induction x as [|c x IH]; simpl; [|exact IH]. now destruct rest. Qed.

Lemma re_finditer_step r s :
  re_finditer r s =
  match s with
  | [] => []
  | c :: s' =>
      match match_here r s with
      | Some m => m :: re_finditer r (m_rest m)
      | None => re_finditer r s'
      end
  end.
Proof.
  unfold re_finditer. destruct s as [|c s']; [reflexivity|].
  cbn [find_scan]. destruct (match_here r (c :: s')) as [m|] eqn:E; [|reflexivity].
  apply match_here_sound in E. destruct E as (E1 & E2 & _).
  destruct (m_text m) as [|c' t]; [contradiction|].
  simpl in E1. injection E1 as -> ->.
  match goal with |- context [length (?a :: ?b) - 1] =>
    replace (length (a :: b) - 1) with (length b) by (simpl; lia) end.
  now rewrite find_scan_skip.
Qed.

Lemma well_separated_match s num name gl rest :
  cite_here s = Some (num, name, gl, rest) ->
  well_separated s -> separated rest = true /\ well_separated rest.
Proof.
  intros E H. unfold well_separated in *. rewrite re_finditer_step in H.
  pose proof (cite_here_sound _ E) as (g & tail & _ & Hs & _).
  rewrite match_here_citation, E in H.
  destruct s as [|c s']; [discriminate|].
  inversion H; subst. now split.
Qed.

Lemma well_separated_skip c s :
  cite_here (c :: s) = None -> well_separated (c :: s) -> well_separated s.
Proof.
  intros E H. unfold well_separated in *. rewrite re_finditer_step in H.
  now rewrite match_here_citation, E in H.
Qed.

Lemma cite_here_head c s x : cite_here (c :: s) = Some x -> c = JE.
Proof.
  unfold cite_here. destruct s as [|d s1]; [discriminate|].
  destruct (c =? JE)%N eqn:E; [|discriminate]. now apply N.eqb_eq in E.
Qed.

Lemma correct_nil : correct_article_reference [] = [].
Proof. reflexivity. Qed.

Lemma correct_cons_other c s : c <> JE -> correct_article_reference (c :: s) = c :: correct_article_reference s.
Proof.
  intros H. rewrite correct_step.
  destruct (cite_here (c :: s)) as [x|] eqn:E; [|reflexivity].
  apply cite_here_head in E. contradiction.
Qed.

Lemma canonical_head num g orig :
  (exists t, orig = JE :: t) -> exists t, canonical num g orig = JE :: t.
Proof.
  intros H. unfold canonical, citation.
  destruct (dict_get str_eqb REGULATION_DICT num) as [art|]; [|exact H].
  destruct (dict_get str_eqb (items art) [g]); eauto.
Qed.

Lemma correct_head c s : exists r, correct_article_reference (c :: s) = c :: r.
Proof.
  rewrite correct_step.
  destruct (cite_here (c :: s)) as [[[[num name] gl] rest]|] eqn:E; [|eauto].
  assert (c = JE) as -> by (eapply cite_here_head; eauto).
  pose proof (cite_here_sound _ E) as (g & tail & -> & Hs & _).
  rewrite Hs, firstn_app_length. cbn [hd].
  destruct (@canonical_head num g (citation num name g tail)) as [t Ht].
  { unfold citation. eauto. }
  rewrite Ht. simpl. eauto.
Qed.

Lemma separated_correct s : separated (correct_article_reference s) = separated s.
Proof.
  destruct s as [|c s]; [reflexivity|].
  destruct (correct_head c s) as [r ->]. reflexivity.
Qed.

(** A run of characters other than [제] is copied. *)
Lemma correct_run a s :
  forallb (fun c => negb (c =? JE)%N) a = true -> correct_article_reference (a ++ s) = a ++ correct_article_reference s.
Proof.
  induction a as [|c a IH]; intros H; [reflexivity|].
  simpl in H. apply andb_true_iff in H. destruct H as [Hc Ha].
  cbn [app]. rewrite correct_cons_other, IH; auto.
  apply negb_true_iff, N.eqb_neq in Hc. exact Hc.
Qed.

Lemma decimal_not_JE c : is_decimal c = true -> negb (c =? JE)%N = true.
Proof.
  intros H. destruct (c =? JE)%N eqn:E; [|reflexivity].
  apply N.eqb_eq in E. subst c. vm_compute in H. discriminate.
Qed.

Lemma decimal_not_RB c : is_decimal c = true -> not_RB c = true.
Proof.
  intros H. unfold not_RB. destruct (c =? RB)%N eqn:E; [|reflexivity].
  apply N.eqb_eq in E. subst c. vm_compute in H. discriminate.
Qed.

Lemma forallb_impl A (p q : A -> bool) l :
  (forall x, p x = true -> q x = true) -> forallb p l = true -> forallb q l = true.
Proof.
  intros H. induction l as [|x l IH]; simpl; [reflexivity|].
  rewrite !andb_true_iff. intros [Hx Hl]. auto.
Qed.

Lemma has_rb l : In RB l -> forallb not_RB l = false.
Proof.
  induction l as [|c l IH]; intros H; [contradiction|].
  simpl. destruct H as [->|H].
  - unfold not_RB. now rewrite N.eqb_refl.
  - rewrite IH by assumption. apply andb_false_r.
Qed.

Lemma citation_has_rb num name g tail rest :
  forallb not_RB (citation num name g tail ++ rest) = false.
Proof.
  apply has_rb. unfold citation. apply in_or_app. left. right.
  apply in_or_app. right. right. right. apply in_or_app. right. now left.
Qed.

Lemma correct_no_rb : forall s, forallb not_RB s = true -> correct_article_reference s = s.
Proof.
  induction s as [|c s IH]; intros H; [reflexivity|].
  rewrite correct_step.
  destruct (cite_here (c :: s)) as [[[[num name] gl] rest]|] eqn:E.
  - pose proof (cite_here_sound _ E) as (g & tail & _ & Hs & _).
    rewrite Hs, citation_has_rb in H. discriminate.
  - simpl in H. apply andb_true_iff in H. f_equal. now apply IH.
Qed.

Lemma not_RB_RB : not_RB RB = false.
Proof. reflexivity. Qed.

Lemma first_rb_unique a : forall a' z z',
  forallb not_RB a = true -> forallb not_RB a' = true ->
  a ++ RB :: z = a' ++ RB :: z' -> a = a' /\ z = z'.
Proof.
  induction a as [|c a IH]; intros a' z z' Ha Ha' E.
  - destruct a' as [|c' a']; [now injection E|].
    cbn [app] in E. injection E as <- _. cbn [forallb] in Ha'.
    rewrite not_RB_RB in Ha'. discriminate.
  - destruct a' as [|c' a'].
    + cbn [app] in E. injection E as -> _. cbn [forallb] in Ha.
      rewrite not_RB_RB in Ha. discriminate.
    + cbn [app] in E. injection E as <- E. cbn [forallb] in Ha, Ha'.
      apply andb_true_iff in Ha, Ha'.
      destruct (IH a' z z') as [-> ->]; tauto.
Qed.

(** Behind a bracket that no glyph follows, no citation begins inside
    the name before it. *)
Lemma no_cite_before_rb b s5 :
  forallb not_RB b = true ->
  match s5 with [] => True | c :: _ => is_glyph c = false end ->
  cite_here (b ++ RB :: s5) = None.
Proof.
  intros Hb H5.
  destruct (cite_here (b ++ RB :: s5)) as [[[[num name] gl] rest]|] eqn:E;
    [exfalso|reflexivity].
  pose proof (cite_here_sound _ E) as (g & tail & _ & Hs & Hn & Hd & Hm & Hnm & Hg & _).
  unfold citation in Hs.
  change (b ++ RB :: s5 = (JE :: num ++ JO :: LB :: name) ++ RB :: g :: tail ++ rest)
    in Hs || (replace ((JE :: num ++ JO :: LB :: name ++ RB :: g :: tail) ++ rest)
      with ((JE :: num ++ JO :: LB :: name) ++ RB :: g :: tail ++ rest) in Hs
      by (simpl; rewrite <- !app_assoc; simpl; now rewrite <- !app_assoc)).
  apply first_rb_unique in Hs; [| assumption |].
  - destruct Hs as [_ ->]. now rewrite Hg in H5.
  - cbn [forallb]. rewrite forallb_app. cbn [forallb].
    rewrite (forallb_impl _ _ _ decimal_not_RB Hd), Hnm. reflexivity.
Qed.

Lemma correct_through_name b s5 :
  forallb not_RB b = true ->
  match s5 with [] => True | c :: _ => is_glyph c = false end ->
  correct_article_reference (b ++ RB :: s5) = b ++ RB :: correct_article_reference s5.
Proof.
  intros Hb H5. induction b as [|c b IH].
  - cbn [app]. apply correct_cons_other. discriminate.
  - simpl in Hb. apply andb_true_iff in Hb. destruct Hb as [Hc Hb].
    cbn [app]. rewrite correct_step.
    pose proof (@no_cite_before_rb (c :: b) s5) as N. cbn [app] in N.
    rewrite N; [|simpl; now rewrite Hc, Hb|exact H5].
    f_equal. now apply IH.
Qed.



Lemma takew_nil_or p s :
  dropw p s = [] -> forallb p s = true.
Proof.
  induction s as [|c s IH]; simpl; [reflexivity|].
  destruct (p c); [exact IH|discriminate].
Qed.

(** What the corrector does behind a name does not turn a failed
    match into a match. *)
Lemma name_here_stays num s :
  name_here num s = None -> name_here num (correct_article_reference s) = None.
Proof.
  unfold name_here at 1. destruct s as [|n0 s3]; [reflexivity|].
  destruct (not_RB n0) eqn:En.
  - pose proof (take_drop not_RB s3) as Hs.
    pose proof (takew_all not_RB s3) as Hall.
    destruct (dropw not_RB s3) as [|rb [|gl s5]] eqn:E4.
    + intros _. rewrite correct_no_rb; [|simpl; now rewrite En, (takew_nil_or _ _ E4)].
      unfold name_here. now rewrite En, E4.
    + intros _. pose proof (dropw_head _ _ E4) as Hrb.
      apply negb_false_iff, N.eqb_eq in Hrb. subst rb.
      rewrite <- Hs.
      change (n0 :: takew not_RB s3 ++ [RB]) with ((n0 :: takew not_RB s3) ++ RB :: []).
      rewrite correct_through_name; [|simpl; now rewrite En, Hall|exact I].
      cbn [app]. unfold name_here. rewrite En.
      rewrite dropw_stop; [reflexivity|exact Hall|exact not_RB_RB].
    + pose proof (dropw_head _ _ E4) as Hrb.
      apply negb_false_iff, N.eqb_eq in Hrb. subst rb.
      destruct (is_glyph gl) eqn:Eg; [discriminate|]. intros _.
      rewrite <- Hs.
      change (n0 :: takew not_RB s3 ++ RB :: gl :: s5)
        with ((n0 :: takew not_RB s3) ++ RB :: gl :: s5).
      rewrite correct_through_name; [|simpl; now rewrite En, Hall|exact Eg].
      destruct (correct_head gl s5) as [r ->].
      cbn [app]. unfold name_here. rewrite En.
      rewrite dropw_stop; [|exact Hall|exact not_RB_RB].
      now rewrite Eg.
  - intros _. destruct (correct_head n0 s3) as [r ->].
    unfold name_here. now rewrite En.
Qed.

Lemma after_digits_stays num s :
  after_digits num s = None -> after_digits num (correct_article_reference s) = None.
Proof.
  unfold after_digits at 1. destruct s as [|c1 [|c2 s3]].
  - reflexivity.
  - intros _. rewrite correct_step. reflexivity.
  - destruct (c1 =? JO)%N eqn:E1.
    + apply N.eqb_eq in E1. subst c1.
      rewrite correct_cons_other by discriminate.
      destruct (c2 =? LB)%N eqn:E2.
      * apply N.eqb_eq in E2. subst c2.
        rewrite correct_cons_other by discriminate.
        simpl andb. cbv iota. intros H. unfold after_digits.
        rewrite !N.eqb_refl. simpl andb. cbv iota. now apply name_here_stays.
      * intros _. destruct (correct_head c2 s3) as [r ->].
        unfold after_digits. now rewrite E2, andb_false_r.
    + intros _. destruct (correct_head c1 (c2 :: s3)) as [r ->].
      unfold after_digits. destruct r; [reflexivity|]. now rewrite E1.
Qed.

Lemma dropw_first p s : match dropw p s with [] => True | c :: _ => p c = false end.
Proof.
  destruct (dropw p s) as [|c t] eqn:E; [exact I|]. exact (dropw_head _ _ E).
Qed.

Lemma takew_app_head p a s :
  forallb p a = true ->
  match s with [] => True | c :: _ => p c = false end ->
  takew p (a ++ s) = a /\ dropw p (a ++ s) = s.
Proof.
  intros Ha Hs. destruct s as [|c s].
  - rewrite app_nil_r. clear Hs. induction a as [|x a IH]; [now split|].
    simpl in *. apply andb_true_iff in Ha. destruct Ha as [Hx Ha].
    rewrite Hx. destruct (IH Ha) as [-> ->]. now split.
  - split; [now apply takew_stop|now apply dropw_stop].
Qed.

(** The corrector does not create a match at a place where there
    was none. *)
Lemma cite_here_stays c s :
  cite_here (c :: s) = None -> cite_here (c :: correct_article_reference s) = None.
Proof.
  intros H.
  destruct (N.eq_dec c JE) as [->|Hc].
  2:{ destruct (cite_here (c :: correct_article_reference s)) as [x|] eqn:E; [|reflexivity].
      apply cite_here_head in E. contradiction. }
  destruct s as [|d s1]; [reflexivity|].
  unfold cite_here in H. rewrite N.eqb_refl in H. simpl andb in H.
  destruct (is_decimal d) eqn:Ed.
  - pose proof (take_drop is_decimal s1) as Hs.
    pose proof (takew_all is_decimal s1) as Hall.
    pose proof (dropw_first is_decimal s1) as Hfirst.
    assert (HC : correct_article_reference (d :: s1) = d :: takew is_decimal s1 ++ correct_article_reference (dropw is_decimal s1)).
    { rewrite <- Hs at 1.
      change (d :: takew is_decimal s1 ++ dropw is_decimal s1)
        with ((d :: takew is_decimal s1) ++ dropw is_decimal s1).
      rewrite correct_run; [reflexivity|].
      simpl. rewrite (decimal_not_JE _ Ed). simpl.
      exact (forallb_impl _ _ _ decimal_not_JE Hall). }
    rewrite HC. unfold cite_here. rewrite N.eqb_refl, Ed. simpl andb. cbv iota.
    assert (Hfirst' : match correct_article_reference (dropw is_decimal s1) with
                      | [] => True | x :: _ => is_decimal x = false end).
    { destruct (dropw is_decimal s1) as [|x t]; [exact I|].
      destruct (correct_head x t) as [r ->]. exact Hfirst. }
    destruct (takew_app_head _ _ _ Hall Hfirst') as [-> ->].
    now apply after_digits_stays.
  - destruct (correct_head d s1) as [r ->].
    unfold cite_here. now rewrite Ed, andb_false_r.
Qed.



Lemma separated_no_paren r : separated r = true -> paren_here r = None.
Proof.
  unfold separated, paren_here. destruct r as [|c r]; [reflexivity|].
  intros H. apply negb_true_iff, orb_false_iff in H. destruct H as [_ H].
  now rewrite H.
Qed.

Lemma separated_no_qual r : separated r = true -> qual_skip r = r.
Proof.
  unfold separated, qual_skip. destruct r as [|c r]; [reflexivity|].
  intros H. apply negb_true_iff, orb_false_iff in H. destruct H as [H _].
  now rewrite H.
Qed.

Lemma parens_exact ps r :
  matches (Star PAREN_PATTERN) ps -> paren_here r = None ->
  forall n, length (ps ++ r) <= n -> parens_skip n (ps ++ r) = r.
Proof.
  remember (Star PAREN_PATTERN) as R eqn:ER. intros H Hr.
  induction H; try discriminate; injection ER as ->; intros n Hn.
  - cbn [app]. destruct n; [reflexivity|]. cbn [parens_skip]. now rewrite Hr.
  - rewrite <- app_assoc in *.
    pose proof (paren_here_complete (b ++ r) H) as Hp.
    pose proof (paren_here_shorter _ Hp) as Hl.
    destruct n as [|n]; [lia|]. cbn [parens_skip]. rewrite Hp.
    apply IHmatches2; [reflexivity|lia].
Qed.

(** Before a separated rest the tail of a citation ends where it ends. *)
Lemma tail_skip_separated tail r :
  matches TAIL_PATTERN tail -> separated r = true -> tail_skip (tail ++ r) = r.
Proof.
  intros H Hr. apply tail_shape in H. destruct H as (q & ps & -> & Hq & Hps).
  pose proof (separated_no_paren _ Hr) as Hp.
  destruct Hq as [Hq|[Hq|Hq]]; subst q; cbn [app].
  - destruct (star_paren_head Hps) as [->|[t ->]].
    + cbn [app]. unfold tail_skip. rewrite (separated_no_qual _ Hr).
      apply (@parens_exact [] r); [constructor|assumption|reflexivity].
    + unfold tail_skip. cbn [app]. rewrite qual_skip_lp.
      now apply (@parens_exact (LP :: t) r).
  - unfold tail_skip. rewrite qual_skip_hang. now apply parens_exact.
  - unfold tail_skip. rewrite qual_skip_ho. now apply parens_exact.
Qed.

Lemma dict_get_in K V (keq : K -> K -> bool) (d : dict K V) k v :
  dict_get keq d k = Some v -> exists k', In (k', v) d.
Proof.
  induction d as [|[k0 v0] d IH]; simpl; [discriminate|].
  destruct (keq k k0).
  - intros H. injection H as ->. exists k0. now left.
  - intros H. destruct (IH H) as [k' Hin]. exists k'. now right.
Qed.

Lemma regulation_dict_ok :
  forallb (fun kv => article_ok (snd kv)) REGULATION_DICT = true.
Proof. vm_compute. reflexivity. Qed.

Lemma known_article_ok num art :
  dict_get str_eqb REGULATION_DICT num = Some art ->
  name art <> [] /\ forallb not_RB (name art) = true /\
  forall k c, dict_get str_eqb (items art) k = Some c ->
              forallb not_RP c = true.
Proof.
  intros H. apply dict_get_in in H. destruct H as [k' Hin].
  pose proof regulation_dict_ok as Hok. rewrite forallb_forall in Hok.
  specialize (Hok _ Hin). cbn [snd] in Hok. unfold article_ok in Hok.
  apply andb_true_iff in Hok. destruct Hok as [Hok Hitems].
  apply andb_true_iff in Hok. destruct Hok as [Hne Hrb].
  repeat split.
  - intros E. rewrite E in Hne. discriminate.
  - exact Hrb.
  - intros k c Hc. apply dict_get_in in Hc. destruct Hc as [k0 Hc].
    rewrite forallb_forall in Hitems. exact (Hitems _ Hc).
Qed.

Lemma star_cls_intro p body :
  forallb p body = true -> matches (Star (Cls p)) body.
Proof.
  induction body as [|c body IH]; intros H; [constructor|].
  simpl in H. apply andb_true_iff in H. destruct H as [Hc Hb].
  change (c :: body) with ([c] ++ body). constructor; [now constructor|auto].
Qed.

Lemma tail_nil : matches TAIL_PATTERN [].
Proof.
  change (@nil char) with (@nil char ++ @nil char). unfold TAIL_PATTERN.
  constructor; constructor.
Qed.

Lemma tail_paren body :
  forallb not_RP body = true -> matches TAIL_PATTERN (LP :: body ++ [RP]).
Proof.
  intros H. unfold TAIL_PATTERN.
  change (LP :: body ++ [RP]) with ([] ++ (LP :: body ++ [RP])).
  constructor; [constructor|].
  rewrite <- (app_nil_r (LP :: body ++ [RP])).
  constructor; [|constructor]. unfold PAREN_PATTERN.
  change (LP :: body ++ [RP]) with ([LP] ++ body ++ [RP]).
  constructor; [constructor|]. constructor; [|constructor].
  now apply star_cls_intro.
Qed.

Lemma canonical_shape num name g tail :
  name <> [] -> forallb not_RB name = true -> matches TAIL_PATTERN tail ->
  exists name' tail',
    canonical num g (citation num name g tail) = citation num name' g tail'
    /\ name' <> [] /\ forallb not_RB name' = true /\ matches TAIL_PATTERN tail'.
Proof.
  intros Hn Hb Ht. unfold canonical.
  destruct (dict_get str_eqb REGULATION_DICT num) as [art|] eqn:E.
  - destruct (known_article_ok _ E) as (H1 & H2 & H3).
    destruct (dict_get str_eqb (items art) [g]) as [c|] eqn:Ei.
    + exists (Regulation.name art), (LP :: c ++ [RP]).
      repeat split; auto. apply tail_paren. eauto.
    + exists (Regulation.name art), []. repeat split; auto. apply tail_nil.
  - exists name, tail. now repeat split.
Qed.

Lemma canonical_idem num g x :
  canonical num g (canonical num g x) = canonical num g x.
Proof.
  unfold canonical.
  destruct (dict_get str_eqb REGULATION_DICT num) as [art|]; [|reflexivity].
  destruct (dict_get str_eqb (items art) [g]) as [c|]; reflexivity.
Qed.

End IdemProps.

(* ================================================================== *)
(** * The citation corrector                                           *)
(* ================================================================== *)

Module CorrectorProps.
Import Py Re Regulation CitationScan Spec Scenarios.
Import EngineProps CiteProps Soundness StepProps TailProps RewriteProps IdemProps.

Lemma finditer_first_bound r : forall t m ms,
  re_finditer r t = m :: ms ->
  length (m_text m) + length (m_rest m) <= length t.
Proof.
  induction t as [|c t IH]; intros m ms H; rewrite re_finditer_step in H;
    [discriminate|].
  destruct (match_here r (c :: t)) as [m'|] eqn:E.
  - injection H as -> _. apply match_here_sound in E. destruct E as (E & _).
    apply (f_equal (@length _)) in E. rewrite length_app in E. lia.
  - apply IH in H. simpl. lia.
Qed.

Lemma splice_cons repl c t ms :
  match ms with
  | [] => True
  | m :: _ => length (m_text m) + length (m_rest m) <= length t
  end ->
  splice repl (c :: t) ms = c :: splice repl t ms.
Proof.
  destruct ms as [|m ms]; [reflexivity|]. intros H. cbn [splice].
  replace (length (c :: t) - length (m_text m) - length (m_rest m))
    with (S (length t - length (m_text m) - length (m_rest m)))
    by (change (length (c :: t)) with (S (length t)); lia).
  reflexivity.
Qed.

Lemma re_sub_splice_aux r repl : forall n t,
  length t <= n -> re_sub r repl t = splice repl t (re_finditer r t).
Proof.
  induction n as [|n IH]; intros t Hn.
  - destruct t; [reflexivity|simpl in Hn; lia].
  - destruct t as [|c t]; [reflexivity|].
    rewrite re_sub_step, re_finditer_step.
    destruct (match_here r (c :: t)) as [m|] eqn:E.
    + apply match_here_sound in E. destruct E as (E1 & E2 & _).
      assert (L : length (c :: t) = length (m_text m) + length (m_rest m))
        by (rewrite E1 at 1; apply length_app).
      cbn [splice].
      replace (length (c :: t) - length (m_text m) - length (m_rest m))
        with 0 by lia.
      cbn [firstn app]. f_equal. apply IH.
      destruct (m_text m); [contradiction|]. simpl in *. lia.
    + rewrite splice_cons.
      * f_equal. apply IH. simpl in Hn. lia.
      * destruct (re_finditer r t) as [|m ms] eqn:F; [exact I|].
        exact (finditer_first_bound _ _ F).
Qed.

(** [re.sub] is one scan: the output is the input with each match of
    [re.finditer] replaced by the callback's text. *)
Lemma re_sub_splice r repl t :
  re_sub r repl t = splice repl t (re_finditer r t).
Proof. now apply (re_sub_splice_aux r repl (n := length t)). Qed.

Lemma citation_starts m :
  matches CITATION_PATTERN m -> exists t, m = JE :: t.
Proof.
  unfold CITATION_PATTERN. intros H.
  apply matches_Cat_inv in H. destruct H as (a & b & -> & Ha & _).
  apply matches_Lit_inv in Ha. subst a. simpl. eauto.
Qed.

Lemma no_je_no_citation t :
  existsb (N.eqb JE) t = false -> ~ occurs CITATION_PATTERN t.
Proof.
  intros H (pre & m & post & -> & _ & Hm).
  apply citation_starts in Hm. destruct Hm as [t' ->].
  rewrite existsb_app in H. apply orb_false_iff in H. destruct H as [_ H].
  cbn [app existsb] in H. rewrite N.eqb_refl in H. discriminate.
Qed.

(** C8.  A text in which no substring matches the citation pattern is
    returned unchanged by [correct_article_reference]; and for every
    text the function is a single left-to-right pass: its output is the
    input with each match of the one scan replaced by the text made for
    that match, the replacement text itself is not scanned again. *)
Theorem corrector_identity_and_single_pass (t : str) :
  (~ occurs CITATION_PATTERN t -> correct_article_reference t = t)
  /\ correct_article_reference t
     = splice replace_match t (re_finditer CITATION_PATTERN t).
Proof.
  split.
  - apply no_match_identity.
  - apply re_sub_splice.
Qed.

Lemma corrector_identity_and_single_pass_witness :
  correct_article_reference HEDGED = HEDGED.
Proof.
  apply (proj1 (corrector_identity_and_single_pass HEDGED)).
  apply no_je_no_citation. vm_compute. reflexivity.
Defined.

(** ** Each match of the scan is rewritten by the knowledge base *)

Lemma citation_in_language num name g tail :
  num <> [] -> forallb is_decimal num = true ->
  name <> [] -> forallb not_RB name = true ->
  is_glyph g = true -> matches TAIL_PATTERN tail ->
  matches CITATION_PATTERN (citation num name g tail).
Proof.
  intros Hn Hd Hm Hb Hg Ht. unfold citation, CITATION_PATTERN.
  destruct num as [|d num]; [contradiction|].
  destruct name as [|n0 name]; [contradiction|].
  simpl in Hd, Hb. apply andb_true_iff in Hd, Hb.
  destruct Hd as [Hd Hd'], Hb as [Hb Hb'].
  change (JE :: (d :: num) ++ JO :: LB :: (n0 :: name) ++ RB :: g :: tail)
    with ([JE] ++ (([d] ++ num) ++ ([JO] ++ ([LB] ++ (([n0] ++ name)
          ++ ([RB] ++ ([g] ++ tail))))))).
  repeat first
    [ apply MCat | apply MLit | apply MGrp | apply MPlus
    | apply MCls; assumption | apply star_cls_intro; assumption
    | exact Ht ].
Qed.

(** Every match of the scan is a citation, and what replaces it is
    the canonical citation for its number and glyph. *)
Lemma scanned_matches_rewritten (t : str) :
  Forall (fun m => exists num name g tail,
            m_text m = citation num name g tail
            /\ num <> [] /\ forallb is_decimal num = true
            /\ name <> [] /\ forallb not_RB name = true
            /\ is_glyph g = true /\ matches TAIL_PATTERN tail
            /\ replace_match m = canonical num g (m_text m))
         (re_finditer CITATION_PATTERN t).
Proof.
  assert (Hn : length t <= length t) by lia.
  revert Hn. generalize (length t) at 2. intros n. revert t.
  induction n as [|n IH]; intros t Hn.
  - destruct t; [constructor|simpl in Hn; lia].
  - rewrite re_finditer_step. destruct t as [|c t]; [constructor|].
    rewrite match_here_citation.
    destruct (cite_here (c :: t)) as [[[[num name] gl] rest]|] eqn:E.
    + pose proof (cite_here_sound _ E)
        as (g & tail & -> & Hs & H1 & H2 & H3 & H4 & H5 & H6 & _).
      constructor.
      * exists num, name, g, tail. cbn [m_text].
        rewrite Hs, firstn_app_length.
        repeat (split; [first [reflexivity|assumption]|]).
        apply replace_match_canonical.
      * cbn [m_rest]. apply IH.
        apply (f_equal (@length _)) in Hs. rewrite length_app in Hs.
        unfold citation in Hs. simpl in *. lia.
    + apply IH. simpl in Hn. lia.
Qed.

(** Before a text without [제] no citation begins. *)
Lemma no_je_no_begin pre s :
  existsb (N.eqb JE) pre = false ->
  forall a b, pre = a ++ b -> b <> [] ->
    ~ begins CITATION_PATTERN (b ++ s).
Proof.
  intros H a b -> Hb (m & rest & E & _ & Hm).
  apply citation_starts in Hm. destruct Hm as [t ->].
  destruct b as [|c b]; [contradiction|]. simpl in E. injection E as -> _.
  rewrite existsb_app in H. apply orb_false_iff in H. destruct H as [_ H].
  cbn [app existsb] in H. rewrite N.eqb_refl in H. discriminate.
Qed.

(** A tail before a separated rest cannot be made longer. *)
Lemma separated_is_longest tail post :
  matches TAIL_PATTERN tail -> separated post = true ->
  forall x y, post = x ++ y -> x <> [] ->
    ~ matches TAIL_PATTERN (tail ++ x).
Proof.
  intros Ht Hs x y -> Hx Hm.
  pose proof (tail_skip_longest y Hm) as L.
  rewrite <- app_assoc, (@tail_skip_separated tail (x ++ y) Ht Hs), length_app in L.
  destruct x; [contradiction|]. simpl in L. lia.
Qed.

(** C3 (as amended).  Let [m = 제 num 조「 name 」 g tail] be the first
    match of the scan in [pre ++ m ++ post]: a citation, no citation
    begins inside [pre], and [tail] is the longest tail the text
    allows.  Then [correct_article_reference] copies [pre], replaces
    [m] by [canonical num g m] and goes on with [post]: when [num] is
    a key of the knowledge base the name becomes the canonical name
    and the tail becomes the parenthesised canonical item text if [g]
    is among the items of [num], and nothing if it is not; when [num]
    is not a key, [m] stays as it is. *)
Theorem citation_rewritten pre num name g tail post :
  let m := citation num name g tail in
  num <> [] -> forallb is_decimal num = true ->
  name <> [] -> forallb not_RB name = true ->
  is_glyph g = true -> matches TAIL_PATTERN tail ->
  (forall x y, post = x ++ y -> x <> [] ->
     ~ matches TAIL_PATTERN (tail ++ x)) ->
  (forall a b, pre = a ++ b -> b <> [] ->
     ~ begins CITATION_PATTERN (b ++ m ++ post)) ->
  correct_article_reference (pre ++ m ++ post)
  = pre ++ canonical num g m ++ correct_article_reference post.
Proof.
  intros m Hn Hd Hm Hb Hg Ht Hmax Hfirst.
  induction pre as [|c pre IH].
  - cbn [app]. rewrite correct_step.
    assert (E : cite_here (m ++ post) = Some (num, name, [g], post)).
    { unfold m. rewrite citation_app, cite_here_complete by assumption.
      now rewrite (tail_skip_greedy Ht Hmax). }
    rewrite E. cbn [hd]. now rewrite firstn_app_length.
  - cbn [app]. rewrite correct_step.
    destruct (cite_here (c :: pre ++ m ++ post)) as [x|] eqn:E.
    + exfalso. apply (Hfirst [] (c :: pre) eq_refl); [discriminate|].
      exact (cite_here_begins _ E).
    + f_equal. apply IH. intros a b -> Hne. apply (Hfirst (c :: a) b); auto.
Qed.

Lemma tail_qualified_paren body :
  forallb not_RP body = true ->
  matches TAIL_PATTERN (HANG :: LP :: body ++ [RP]).
Proof.
  intros H. unfold TAIL_PATTERN.
  change (HANG :: LP :: body ++ [RP]) with ([HANG] ++ (LP :: body ++ [RP])).
  constructor; [apply MOptSome, MAltL, MLit|].
  rewrite <- (app_nil_r (LP :: body ++ [RP])).
  constructor; [|constructor]. unfold PAREN_PATTERN.
  change (LP :: body ++ [RP]) with ([LP] ++ body ++ [RP]).
  constructor; [constructor|]. constructor; [|constructor].
  now apply star_cls_intro.
Qed.

Lemma citation_rewritten_witness :
  correct_article_reference
    (CONCLUSION_PRE
     ++ citation ONE CITED_NAME SECOND (HANG :: LP :: CITED_ITEM ++ [RP])
     ++ CONCLUSION_POST)
  = CONCLUSION_PRE
    ++ canonical ONE SECOND
         (citation ONE CITED_NAME SECOND (HANG :: LP :: CITED_ITEM ++ [RP]))
    ++ correct_article_reference CONCLUSION_POST.
Proof.
  apply citation_rewritten.
  - discriminate.
  - reflexivity.
  - discriminate.
  - reflexivity.
  - reflexivity.
  - apply tail_qualified_paren. reflexivity.
  - apply separated_is_longest.
    + apply tail_qualified_paren. reflexivity.
    + reflexivity.
  - apply no_je_no_begin. reflexivity.
Defined.

(** What the rewriting of [CONCLUSION] comes to. *)
Example conclusion_corrected :
  correct_article_reference CONCLUSION
  = u "따라서 위 보도는 신문윤리실천요강 제1조「언론의 자유, 책임, 독립」②(사회·경제 세력으로부터의 독립)을 위반했다고 인정한다.".
Proof. vm_compute. reflexivity. Qed.

(** C3, counterexample.  In [제99조「제1조「x」①] the substring
    [제1조「x」①] matches the citation pattern and 1 is a key of the
    knowledge base, yet the text is returned as it is: the scan takes
    the citation of article 99, whose name runs up to the first closing
    bracket, and the inner citation is never looked at. *)
Lemma nested_citation_not_rewritten :
  NESTED = u "제99조「" ++ INNER
  /\ INNER = citation ONE (u "x") (ch "①") []
  /\ matches CITATION_PATTERN INNER
  /\ (exists art, dict_get str_eqb REGULATION_DICT ONE = Some art
                  /\ contains (name art) (correct_article_reference NESTED)
                     = false)
  /\ correct_article_reference NESTED = NESTED.
Proof.
  split; [reflexivity|]. split; [reflexivity|]. split.
  - change INNER with (citation ONE (u "x") (ch "①") []).
    apply citation_in_language; try discriminate; try reflexivity.
    apply tail_nil.
  - split.
    + eexists. split; [vm_compute; reflexivity|]. vm_compute. reflexivity.
    + vm_compute. reflexivity.
Qed.

(** A citation inside the parenthetical of another is part of that
    match: it goes with the parenthetical. *)
Example citation_in_parenthetical_dropped :
  correct_article_reference (u "제1조「x」①(제2조「y」②)")
  = u "제1조「언론의 자유, 책임, 독립」①(정치권력으로부터의 자유)".
Proof. vm_compute. reflexivity. Qed.

(** ** Applying the corrector twice *)

(** C10 (as amended).  On a text in which every match of the scan is
    followed by the end of the text or by a character other than [항],
    [호] and [(], correcting the corrected text changes nothing. *)
Theorem corrector_idempotent_when_separated (t : str) :
  well_separated t ->
  correct_article_reference (correct_article_reference t)
  = correct_article_reference t.
Proof.
  revert t.
  assert (H : forall n t, length t <= n -> well_separated t ->
                correct_article_reference (correct_article_reference t)
                = correct_article_reference t).
  {
    induction n as [|n IH]; intros t Hlen Hsep.
    - destruct t; [reflexivity|simpl in Hlen; lia].
    - destruct t as [|c t]; [reflexivity|].
      rewrite (correct_step (c :: t)).
      destruct (cite_here (c :: t)) as [[[[num name] gl] rest]|] eqn:E.
      + pose proof (cite_here_sound _ E)
          as (g & tail & -> & Hs & Hn & Hd & Hm & Hb & Hg & Ht & _).
        destruct (well_separated_match E Hsep) as [Hr Hrest].
        rewrite Hs, firstn_app_length. cbn [hd].
        destruct (canonical_shape num g Hm Hb Ht) as (name' & tail' & Ec & Hm' & Hb' & Ht').
        assert (Hlen' : length rest <= n).
        { apply (f_equal (@length _)) in Hs. rewrite length_app in Hs.
          unfold citation in Hs. simpl in *. lia. }
        rewrite correct_step.
        assert (E' : cite_here (canonical num g (citation num name g tail) ++ correct_article_reference rest)
                     = Some (num, name', [g], correct_article_reference rest)).
        { rewrite Ec, citation_app, cite_here_complete by assumption.
          rewrite tail_skip_separated; [reflexivity|assumption|].
          now rewrite separated_correct. }
        rewrite E'. cbn [hd]. rewrite firstn_app_length, canonical_idem.
        f_equal. apply IH; assumption.
      + apply cite_here_stays in E as E'.
        rewrite correct_step, E'. f_equal.
        apply IH; [simpl in Hlen; lia|].
        exact (well_separated_skip E Hsep). }
  intros t. now apply (H (length t)).
Qed.

Lemma corrector_idempotent_when_separated_witness :
  correct_article_reference (correct_article_reference CONCLUSION)
  = correct_article_reference CONCLUSION.
Proof.
  apply corrector_idempotent_when_separated.
  unfold well_separated. vm_compute. repeat constructor.
Defined.

(** C10, counterexample.  Article 4 has no item ⑤, so the first pass
    keeps the ordinal and drops the qualifier it matched; the second
    qualifier, left behind, is matched and dropped by a second pass. *)
Lemma corrector_not_idempotent :
  correct_article_reference DOUBLE_QUALIFIER
    = u "제4조「사법 보도 준칙」⑤항"
  /\ correct_article_reference (correct_article_reference DOUBLE_QUALIFIER)
    = u "제4조「사법 보도 준칙」⑤"
  /\ correct_article_reference (correct_article_reference DOUBLE_QUALIFIER)
     <> correct_article_reference DOUBLE_QUALIFIER.
Proof.
  split; [vm_compute; reflexivity|]. split; [vm_compute; reflexivity|].
  intros H. apply (f_equal (@length _)) in H. vm_compute in H. discriminate.
Qed.

End CorrectorProps.

(* ================================================================== *)
(** * The article extractor                                            *)
(* ================================================================== *)

Module ScraperProps.
Import Py Effects Scraper Scenarios.

Lemma try_except_returns A (m : M A) (h : exn -> M A) :
  (forall e, exists a, value (h e) = Return a) ->
  exists a, value (try_except m h) = Return a.
Proof.
  intros Hh. destruct m as [[a|e] l]; simpl.
  - now exists a.
  - destruct (Hh e) as [a Ha]. destruct (h e) as [r l'] eqn:E.
    simpl in *. now exists a.
Qed.

Lemma handler_none A (e : exn) : exists a : option A, value (ret (@None A)) = Return a.
Proof. now exists None. Qed.

Lemma extractor_never_raises w ex url :
  In ex (extractors w) -> exists a, value (snd ex url) = Return a.
Proof.
  unfold extractors. intros H.
  assert (In ex [("Trafilatura"%string, extract_trafilatura w);
                 ("Newspaper3k"%string, extract_newspaper w);
                 ("Playwright+Trafilatura"%string, extract_playwright_trafilatura w);
                 ("Playwright+Newspaper3k"%string, extract_playwright_newspaper w)]) as H'.
  { apply in_app_or in H. destruct H as [H|H].
    - simpl in *. tauto.
    - destruct (PLAYWRIGHT_AVAILABLE w); simpl in *; tauto. }
  simpl in H'.
  destruct H' as [<-|[<-|[<-|[<-|[]]]]]; simpl;
    apply try_except_returns; intros e; now exists None.
Qed.

Lemma attempt_never_raises ex url result :
  (exists a, value (snd ex url) = Return a) ->
  exists s, value (attempt ex url result) = Return s.
Proof.
  intros [a Ha]. unfold attempt.
  destruct (snd ex url) as [r l] eqn:E. simpl in Ha. subst r.
  unfold bind, emit, try_except. simpl.
  destruct a as [d|]; simpl.
  - destruct (truthy _ && truthy _ && truthy _); simpl; eauto.
  - eauto.
Qed.

Lemma run_extractors_never_raises exs : forall url result,
  (forall ex, In ex exs -> exists a, value (snd ex url) = Return a) ->
  exists r, value (run_extractors exs url result) = Return r.
Proof.
  induction exs as [|ex rest IH]; intros url result H; simpl.
  - destruct (truthy _ || truthy _); simpl; eauto.
  - destruct (attempt_never_raises ex url result (H ex (or_introl eq_refl))) as [s Hs].
    destruct (attempt ex url result) as [r l] eqn:E. simpl in Hs. subst r.
    unfold bind. destruct s as [d|d].
    + simpl. eauto.
    + destruct (IH url d) as [r Hr].
      { intros ex' Hin. apply H. now right. }
      destruct (run_extractors rest url d) as [r' l'] eqn:E'.
      simpl in *. subst. eauto.
Qed.

Lemma extract_article_never_raises w url :
  exists r, value (extract_article w url) = Return r.
Proof.
  unfold extract_article. apply run_extractors_never_raises.
  intros ex Hin. now apply extractor_never_raises with (w := w).
Qed.


(** C5, the code at the failing input.  A site answers every request
    with 403 (or 429).  [extract_trafilatura] catches the [HTTPError]
    of [fetch_with_headers] itself and returns [None], so the handler
    of [extract_article] that re-raises on 403 and 429 never sees it:
    the error is not propagated, and Newspaper3k and both Playwright
    strategies are tried after Trafilatura. *)
Theorem blocked_fetch_not_propagated :
  extract_article (blocked_site 403) URL =
    (Return None,
     [Tried "Trafilatura"; HttpGet URL;
      Tried "Newspaper3k"; HttpGet URL;
      Tried "Playwright+Trafilatura"; Browser URL;
      Tried "Playwright+Newspaper3k"; Browser URL])
  /\ extract_article (blocked_site 429) URL =
    (Return None,
     [Tried "Trafilatura"; HttpGet URL;
      Tried "Newspaper3k"; HttpGet URL;
      Tried "Playwright+Trafilatura"; Browser URL;
      Tried "Playwright+Newspaper3k"; Browser URL]).
Proof. split; vm_compute; reflexivity. Qed.

(** The fetch itself does raise on such an answer. *)
Example fetch_raises_on_403 :
  value (fetch_with_headers (blocked_site 403) URL)
  = Raise (HTTPError 403 (u "403")).
Proof. vm_compute. reflexivity. Qed.

End ScraperProps.

(* ================================================================== *)
(** * The graph of the LangGraph pipeline                              *)
(* ================================================================== *)

Module GraphProps.
Import Py Effects Prompts Spec Pipeline Scenarios.

Lemma nodes_run_app l1 l2 :
  nodes_run (l1 ++ l2) = nodes_run l1 ++ nodes_run l2.
Proof.
  induction l1 as [|ev l1 IH]; simpl; [reflexivity|].
  destruct ev; simpl; now rewrite IH.
Qed.

Lemma quiet_pure A (r : result A) : quiet (r, []).
Proof. reflexivity. Qed.

Lemma quiet_bind A B (m : M A) (f : A -> M B) :
  quiet m -> (forall a, quiet (f a)) -> quiet (bind m f).
Proof.
  unfold quiet. intros Hm Hf. destruct m as [[a|e] l]; simpl in *.
  - specialize (Hf a). destruct (f a) as [r l']. simpl in *.
    now rewrite nodes_run_app, Hm, Hf.
  - exact Hm.
Qed.

Lemma quiet_try A (m : M A) (h : exn -> M A) :
  quiet m -> (forall e, quiet (h e)) -> quiet (try_except m h).
Proof.
  unfold quiet. intros Hm Hh. destruct m as [[a|e] l]; simpl in *.
  - exact Hm.
  - specialize (Hh e). destruct (h e) as [r l']. simpl in *.
    now rewrite nodes_run_app, Hm, Hh.
Qed.

Ltac solve_quiet :=
  repeat first
    [ apply quiet_pure
    | reflexivity
    | apply quiet_bind; [|intros ?]
    | apply quiet_try; [|intros ?]
    | match goal with
      | |- quiet (if ?b then _ else _) => destruct b
      | |- quiet (match ?x with _ => _ end) => destruct x
      | |- quiet (let (_, _) := ?x in _) => destruct x
      end ].

Lemma quiet_extractor w ex url : In ex (Scraper.extractors w) -> quiet (snd ex url).
Proof.
  unfold Scraper.extractors. intros H.
  assert (In ex [("Trafilatura"%string, Scraper.extract_trafilatura w);
                 ("Newspaper3k"%string, Scraper.extract_newspaper w);
                 ("Playwright+Trafilatura"%string, Scraper.extract_playwright_trafilatura w);
                 ("Playwright+Newspaper3k"%string, Scraper.extract_playwright_newspaper w)]) as H'.
  { apply in_app_or in H. destruct H as [H|H].
    - simpl in *. tauto.
    - destruct (Scraper.PLAYWRIGHT_AVAILABLE w); simpl in *; tauto. }
  simpl in H'.
  destruct H' as [<-|[<-|[<-|[<-|[]]]]]; simpl;
  unfold Scraper.extract_trafilatura, Scraper.extract_newspaper,
    Scraper.extract_playwright_trafilatura, Scraper.extract_playwright_newspaper,
    Scraper.fetch_with_headers, Scraper.get_rendered_html_playwright,
    Scraper.raise_for_status, Scraper.or_else, call, ret, raise; solve_quiet.
Qed.

Lemma quiet_run_extractors exs : forall url result,
  (forall ex, In ex exs -> quiet (snd ex url)) ->
  quiet (Scraper.run_extractors exs url result).
Proof.
  induction exs as [|ex rest IH]; intros url result H; simpl.
  - unfold ret. solve_quiet.
  - apply quiet_bind.
    + unfold Scraper.attempt, emit, ret, raise. apply quiet_bind; [reflexivity|intros _].
      apply quiet_try.
      * apply quiet_bind; [apply H; now left|]. intros a. solve_quiet.
      * intros e. solve_quiet.
    + intros [d|d]; [unfold ret; solve_quiet|]. apply IH. intros ex' Hin. apply H. now right.
Qed.

Lemma quiet_extract_article w url : quiet (Scraper.extract_article w url).
Proof.
  apply quiet_run_extractors. intros ex H. now apply quiet_extractor with (w := w).
Qed.

Lemma extract_node_plain w st :
  article st = None ->
  RunSpec.untitled w (url st) = false ->
  exists st', value (extract_node w st) = Return st' /\ has_text st'
              /\ quiet (extract_node w st).
Proof.
  intros Hnone Hu. unfold extract_node. unfold RunSpec.untitled in Hu.
  destruct (ScraperProps.extract_article_never_raises (scraper w) (url st)) as [r Hr].
  pose proof (quiet_extract_article (scraper w) (url st)) as Hq.
  destruct (Scraper.extract_article (scraper w) (url st)) as [v l] eqn:E.
  simpl in Hr. subst v. unfold quiet in *. simpl in Hq, Hu.
  destruct r as [a|]; simpl.
  - destruct (truthy (Scraper.text a)) eqn:Et; simpl.
    + destruct (Scraper.title a) as [t|]; [|discriminate]. simpl.
      rewrite app_nil_r.
      eexists; split; [reflexivity|]. split; [|exact Hq].
      unfold has_text. simpl. destruct (Scraper.text a) as [body|]; [eauto|discriminate].
    + rewrite app_nil_r. eexists; split; [reflexivity|]. split; [|exact Hq].
      unfold has_text. simpl. rewrite Hnone. simpl. eauto.
  - rewrite app_nil_r. eexists; split; [reflexivity|]. split; [|exact Hq].
    unfold has_text. simpl. rewrite Hnone. simpl. eauto.
Qed.

Lemma image_node_plain w key st :
  has_text st ->
  exists st', value (image_node w key st) = Return st' /\ has_text st'
              /\ quiet (image_node w key st).
Proof.
  intros Ht. unfold image_node, call_gemini, call, ret.
  destruct (negb _).
  - eexists; split; [reflexivity|]. split; [exact Ht|reflexivity].
  - destruct (image_get w _) as [content|e]; simpl;
      [destruct (image_open w content) as [img|e]; simpl;
       [destruct (generate w key _ _ _ _) as [d|e]; simpl|]|];
      (eexists; split; [reflexivity|]; split; [exact Ht|reflexivity]).
Qed.

Lemma article_line_returns a body :
  get_text a = Some body ->
  article_line a = (Return (fmt_opt (get_title a) ++ u " " ++ slice_to 2000 body), []).
Proof. intros H. unfold article_line. rewrite H. reflexivity. Qed.

Lemma search_node_plain w st :
  has_text st ->
  exists st', value (search_node w st) = Return st' /\ has_text st'
              /\ quiet (search_node w st).
Proof.
  intros [body Ht]. unfold search_node. rewrite (@article_line_returns _ _ Ht).
  unfold bind, call, ret, try_except.
  destruct (query_index w _ 5) as [reasons|e]; simpl.
  - destruct (collect_cases 0 reasons []) as [cases|e]; simpl;
      (eexists; split; [reflexivity|]; split; [now exists body|reflexivity]).
  - eexists; split; [reflexivity|]; split; [now exists body|reflexivity].
Qed.

Lemma decide_prompt_returns a image_desc cases n body :
  get_text a = Some body ->
  exists p, decide_prompt a image_desc cases n = (Return p, []).
Proof.
  intros H. unfold decide_prompt. rewrite (article_line_returns _ H).
  unfold bind, ret. simpl. eauto.
Qed.

Lemma decide_node_plain w key st :
  has_text st ->
  exists st', value (decide_node w key st) = Return st' /\ has_text st'
              /\ quiet (decide_node w key st).
Proof.
  intros [body Ht]. unfold decide_node.
  destruct (count_cases _) as [v nv].
  destruct (@decide_prompt_returns _ (image_desc st) (get_str (similar_cases st)) nv _ Ht) as [p Hp].
  rewrite Hp. unfold bind, call_gemini, call, ret, try_except.
  destruct (generate w key _ _ _ _) as [d|e]; simpl;
    (eexists; split; [reflexivity|]; split; [now exists body|reflexivity]).
Qed.

Lemma review_node_plain w key st :
  has_text st ->
  exists st', value (review_node w key st) = Return st'
              /\ quiet (review_node w key st).
Proof.
  intros [body Ht]. unfold review_node.
  destruct (says_no_violation _).
  - eexists; split; reflexivity.
  - unfold review_prompt. rewrite Ht.
    unfold slice_opt, bind, call_gemini, call, ret, try_except.
    destruct (generate w key _ _ _ _) as [d|e]; simpl;
      (eexists; split; reflexivity).
Qed.

Lemma run_node w key n name node next st st' :
  name <> END ->
  dict_get String.eqb (nodes (create_workflow w key)) name = Some node ->
  dict_get String.eqb (edges (create_workflow w key)) name = Some next ->
  value (node st) = Return st' -> quiet (node st) ->
  value (run (create_workflow w key) (S n) name st)
  = value (run (create_workflow w key) n next st')
  /\ nodes_run (events (run (create_workflow w key) (S n) name st))
     = name :: nodes_run (events (run (create_workflow w key) n next st')).
Proof.
  intros Hne Hnode Hedge Hv Hq.
  cbn [run]. rewrite (proj2 (String.eqb_neq _ _) Hne), Hnode, Hedge.
  destruct (node st) as [r l]. simpl in Hv. subst r. unfold quiet in Hq. simpl in Hq.
  unfold bind, emit.
  destruct (run (create_workflow w key) n next st') as [r' l'].
  simpl. rewrite nodes_run_app, Hq. now split.
Qed.


(** Whatever the world answers, a run in which the Extract node can
    show the title executes all five nodes in the order of the edges
    and ends normally. *)
Lemma every_node_runs w key url :
  RunSpec.untitled w url = false ->
  nodes_run (events (invoke (create_workflow w key) (initial url)))
  = ["extract"; "image"; "search"; "decide"; "review"]%string
  /\ exists st, value (invoke (create_workflow w key) (initial url)) = Return st.
Proof.
  intros Hu.
  unfold invoke. cbn [entry_point create_workflow].
  destruct (@extract_node_plain w (initial url) eq_refl Hu) as (s1 & V1 & T1 & Q1).
  destruct (@image_node_plain w key _ T1) as (s2 & V2 & T2 & Q2).
  destruct (@search_node_plain w _ T2) as (s3 & V3 & T3 & Q3).
  destruct (@decide_node_plain w key _ T3) as (s4 & V4 & T4 & Q4).
  destruct (@review_node_plain w key _ T4) as (s5 & V5 & Q5).
  destruct (@run_node w key 24 "extract" _ "image" _ _ ltac:(discriminate) eq_refl eq_refl V1 Q1) as [A1 B1].
  destruct (@run_node w key 23 "image" _ "search" _ _ ltac:(discriminate) eq_refl eq_refl V2 Q2) as [A2 B2].
  destruct (@run_node w key 22 "search" _ "decide" _ _ ltac:(discriminate) eq_refl eq_refl V3 Q3) as [A3 B3].
  destruct (@run_node w key 21 "decide" _ "review" _ _ ltac:(discriminate) eq_refl eq_refl V4 Q4) as [A4 B4].
  destruct (@run_node w key 20 "review" _ END _ _ ltac:(discriminate) eq_refl eq_refl V5 Q5) as [A5 B5].
  rewrite B1, B2, B3, B4, B5, A1, A2, A3, A4, A5.
  split; [reflexivity|]. exists s5. reflexivity.
Qed.

(** C1, the code at the failing input.  The site is blocked, so
    extraction finds no text and [extract_node] sets [error]; the graph
    has only unconditional edges and goes on: the Image, Search, Decide
    and Review nodes all run after [error] is set, two generation calls
    are made, and the run ends with a review result. *)
Theorem error_does_not_stop_the_graph :
  let w := world (blocked_site 403) [] (always DRAFT) in
  let r := invoke (create_workflow w KEY) (initial URL) in
  value (extract_node w (initial URL))
    = Return (set_error EXTRACT_FAILED (initial URL))
  /\ nodes_run (events r)
     = ["extract"; "image"; "search"; "decide"; "review"]%string
  /\ length (prompts (events r)) = 2
  /\ exists st, value r = Return st
       /\ error st = Some EXTRACT_FAILED
       /\ decision st = Some DRAFT
       /\ review_result st <> None.
Proof.
  cbv zeta. split; [vm_compute; reflexivity|].
  split; [vm_compute; reflexivity|].
  split; [vm_compute; reflexivity|].
  eexists. split; [vm_compute; reflexivity|].
  split; [reflexivity|]. split; [reflexivity|]. discriminate.
Qed.

(** The sibling pipeline stops at the same input. *)
Example streamlit_stops_on_extraction_failure :
  let w := world (blocked_site 403) [] (always DRAFT) in
  value (Streamlit.analyze_article_streamlit w URL KEY) = Return None
  /\ prompts (events (Streamlit.analyze_article_streamlit w URL KEY)) = [].
Proof. split; vm_compute; reflexivity. Qed.

End GraphProps.

(* ================================================================== *)
(** * The Review stage                                                 *)
(* ================================================================== *)

Module ReviewProps.
Import Py Effects Prompts Spec Pipeline Scenarios PyProps.

Lemma says_no_violation_spec d :
  says_no_violation d = true <->
  substring NO_VIOLATION d \/ substring NO_VIOLATION_NOSPACE d.
Proof.
  unfold says_no_violation. now rewrite orb_true_iff, !contains_spec.
Qed.

(** C2.  When the draft contains the no-violation marker in either
    spelling, [review_node] sets the review result to passed, without
    issues, with the canonical marker as the final decision, whatever
    else the draft says, and makes no generation call (its event log
    is empty); the Review step of the Streamlit pipeline returns the
    canonical marker, also without a call. *)
Theorem review_short_circuit w key st :
  substring NO_VIOLATION (get_str (decision st)) \/
  substring NO_VIOLATION_NOSPACE (get_str (decision st)) ->
  review_node w key st =
    (Return (set_review_result (mkReview true [] NO_VIOLATION) st), [])
  /\ (forall api a,
        Streamlit.review_step w api a (get_str (decision st))
        = (Return NO_VIOLATION, [])).
Proof.
  intros H. apply says_no_violation_spec in H.
  unfold review_node, Streamlit.review_step. rewrite H. split; reflexivity.
Qed.

Lemma review_short_circuit_witness :
  review_node (world (site PLAIN_ARTICLE) [] never) KEY (drafted HEDGED) =
    (Return (set_review_result (mkReview true [] NO_VIOLATION)
               (drafted HEDGED)), [])
  /\ (forall api a,
        Streamlit.review_step (world (site PLAIN_ARTICLE) [] never) api a
          (get_str (decision (drafted HEDGED)))
        = (Return NO_VIOLATION, [])).
Proof.
  apply review_short_circuit. right.
  exists (u "검토 결과 "), (u "으로 판단한다."). vm_compute. reflexivity.
Defined.

(** C7.  The draft has no no-violation marker and the generation call
    of the Review stage raises [e].  Then [review_node] returns
    normally: the review result is not passed, its issues record the
    failure, its final decision is the draft as it was (the corrector
    is not applied), [error] is left as it was, and the graph ends at
    this node; the one call made is the failed one.  The Review step
    of the Streamlit pipeline returns the draft as it was. *)
Theorem review_failure_falls_back w key st body e :
  let draft := get_str (decision st) in
  let prompt :=
    REVIEW_HEAD ++ fmt_opt (get_title (article st)) ++ REVIEW_BODY
    ++ slice_to 2000 body ++ REVIEW_DRAFT ++ draft ++ REVIEW_REGULATION
    ++ Regulation.REGULATION ++ REVIEW_MANDATE in
  ~ substring NO_VIOLATION draft ->
  ~ substring NO_VIOLATION_NOSPACE draft ->
  get_text (article st) = Some body ->
  generate w key MODEL_NAME prompt None T0_0 = Raise e ->
  let st' := set_review_result
               (mkReview false (REVIEW_FAILED ++ exn_str e) draft) st in
  review_node w key st = (Return st', [Generate MODEL_NAME prompt None T0_0])
  /\ error st' = error st
  /\ value (run (create_workflow w key) 25 "review" st) = Return st'
  /\ (forall api a,
        Scraper.text a = Some body ->
        Scraper.title a = get_title (article st) ->
        generate w api Streamlit.MODEL_NAME prompt None T0_0 = Raise e ->
        value (Streamlit.review_step w api a draft) = Return draft).
Proof.
  intros draft prompt H1 H2 Ht Hg st'.
  assert (Hs : says_no_violation draft = false).
  { destruct (says_no_violation draft) eqn:E; [|reflexivity].
    apply says_no_violation_spec in E. tauto. }
  assert (Hr : review_node w key st
               = (Return st', [Generate MODEL_NAME prompt None T0_0])).
  { unfold review_node. fold draft. rewrite Hs.
    unfold review_prompt. rewrite Ht.
    unfold slice_opt, bind, ret, try_except, call_gemini, call.
    cbv beta iota. rewrite app_nil_l.
    match goal with |- context [generate w key MODEL_NAME ?p None T0_0] =>
      change p with prompt end.
    rewrite Hg. reflexivity. }
  split; [exact Hr|]. split; [reflexivity|]. split.
  - cbn [run]. change (String.eqb "review" END) with false. cbv iota.
    change (dict_get String.eqb (nodes (create_workflow w key)) "review"%string)
      with (Some (review_node w key)).
    change (dict_get String.eqb (edges (create_workflow w key)) "review"%string)
      with (Some END).
    cbv iota. rewrite Hr. reflexivity.
  - intros api a Ha Htitle Hg'. unfold Streamlit.review_step. rewrite Hs.
    unfold review_prompt, get_text, get_title. rewrite Ha, Htitle.
    unfold slice_opt, bind, ret, try_except, Streamlit.call_gemini, call.
    cbv beta iota. rewrite app_nil_l.
    match goal with
    |- context [generate w api Streamlit.MODEL_NAME ?p None T0_0] =>
      change p with prompt end.
    rewrite Hg'. reflexivity.
Qed.

Lemma review_failure_falls_back_witness :
  let w := world (site PLAIN_ARTICLE) [] never in
  let st := drafted DRAFT in
  let prompt :=
    REVIEW_HEAD ++ fmt_opt (get_title (article st)) ++ REVIEW_BODY
    ++ slice_to 2000 BODY ++ REVIEW_DRAFT ++ DRAFT ++ REVIEW_REGULATION
    ++ Regulation.REGULATION ++ REVIEW_MANDATE in
  let st' := set_review_result
               (mkReview false (REVIEW_FAILED ++ exn_str QUOTA) DRAFT) st in
  review_node w KEY st = (Return st', [Generate MODEL_NAME prompt None T0_0])
  /\ error st' = error st
  /\ value (run (create_workflow w KEY) 25 "review" st) = Return st'
  /\ (forall api a,
        Scraper.text a = Some BODY ->
        Scraper.title a = get_title (article st) ->
        generate w api Streamlit.MODEL_NAME prompt None T0_0 = Raise QUOTA ->
        value (Streamlit.review_step w api a DRAFT) = Return DRAFT).
Proof.
  cbv zeta.
  apply (@review_failure_falls_back
           (world (site PLAIN_ARTICLE) [] never) KEY (drafted DRAFT) BODY QUOTA).
  - apply contains_false_spec. vm_compute. reflexivity.
  - apply contains_false_spec. vm_compute. reflexivity.
  - reflexivity.
  - reflexivity.
Defined.

End ReviewProps.

(* ================================================================== *)
(** * The Decide stage: the prompt                                     *)
(* ================================================================== *)

Module DecideProps.
Import Py Effects Prompts Spec Pipeline Scenarios PyProps GraphProps.









(** With five precedents without a violation the note is there. *)
Example note_for_five_clear_cases :
  snd (count_cases FIVE_CLEAR) = 5
  /\ map (contains (steering_note 5))
         (prompts (events (decide_node
                             (world (site PLAIN_ARTICLE) [] (always DRAFT))
                             KEY searched)))
     = [true].
Proof. split; vm_compute; reflexivity. Qed.

(** Outside the contract of the index the two pipelines part.  The
    index returns five results; the first four say that there was no
    violation, the metadata of the fifth has no [reason].  The loop of
    the Streamlit pipeline has counted four when the fifth raises: the
    case list stays empty while the no-violation counter is 4, and the
    prompt of the Decide step carries no steering note. *)
Lemma steering_note_missing_at_four :
  let w := world (site PLAIN_ARTICLE) FOUR_AND_NONE (always NO_VIOLATION) in
  let r := Streamlit.analyze_article_streamlit w URL KEY in
  (exists a, value r = Return (Some a)
             /\ Streamlit.no_violation_count a = 4
             /\ Streamlit.similar_cases a = [])
  /\ prompts (events r) = [spec_prompt (Some TITLE) BODY None [] 4 false]
  /\ spec_prompt (Some TITLE) BODY None [] 4 false
     <> spec_prompt (Some TITLE) BODY None [] 4 true.
Proof.
  cbv zeta. split.
  - eexists. split; [vm_compute; reflexivity|]. split; reflexivity.
  - split; [vm_compute; reflexivity|].
    intros H. apply (f_equal (@length _)) in H. vm_compute in H. discriminate.
Qed.

End DecideProps.

(* ================================================================== *)
(** * The Image stage                                                  *)
(* ================================================================== *)

Module ImageProps.
Import Py Effects Prompts Spec Pipeline Scenarios.

Lemma normalize_cases img :
  (Pil.mode img = "RGBA"%string ->
     normalize img
     = Pil.Pasted (Pil.New "RGB" (Pil.size img) (255, 255, 255)%N) img
                  (Pil.LastBand img))
  /\ (Pil.mode img <> "RGBA"%string -> Pil.mode img <> "RGB"%string ->
        normalize img = Pil.Converted img "RGB")
  /\ (Pil.mode img = "RGB"%string -> normalize img = img)
  /\ Pil.mode (normalize img) = "RGB"%string.
Proof.
  unfold normalize.
  destruct (String.eqb (Pil.mode img) "RGBA") eqn:E1.
  - apply String.eqb_eq in E1.
    split; [intros _; reflexivity|]. split; [intros H; contradiction|].
    split; [intros H; rewrite E1 in H; discriminate|reflexivity].
  - apply String.eqb_neq in E1.
    destruct (String.eqb (Pil.mode img) "RGB") eqn:E2.
    + apply String.eqb_eq in E2. simpl negb. cbv iota.
      split; [intros H; contradiction|].
      split; [intros _ H; contradiction|].
      split; [intros _; reflexivity|exact E2].
    + apply String.eqb_neq in E2. simpl negb. cbv iota.
      split; [intros H; contradiction|].
      split; [intros _ _; reflexivity|].
      split; [intros H; contradiction|reflexivity].
Qed.

(** C6 (as amended).  For an image that was fetched and opened, the
    image stage sends to the generation call the JPEG encoding at
    quality 85 of: the image pasted onto a white RGB background
    through its last band when its mode is RGBA; the image converted
    to RGB when its mode is any other mode than RGB, the other modes
    with transparency among them; the image itself when its mode is
    RGB.  What is encoded is RGB in each case. *)
Theorem image_normalised w key st url content img :
  get_image_url (article st) = Some url -> url <> [] ->
  image_get w url = Return content ->
  image_open w content = Return img ->
  exists sent,
    events (image_node w key st)
    = [HttpGet url; ImageOpen;
       Generate MODEL_NAME IMAGE_PROMPT (Some (Pil.Base64 "JPEG" 85 sent))
                T0_3]
    /\ (forall api a, Scraper.image_url a = Some url ->
          events (Streamlit.image_step w api a)
          = [HttpGet url; ImageOpen;
             Generate Streamlit.MODEL_NAME IMAGE_PROMPT
                      (Some (Pil.Base64 "JPEG" 85 sent)) T0_3])
    /\ (Pil.mode img = "RGBA"%string ->
          sent = Pil.Pasted (Pil.New "RGB" (Pil.size img) (255, 255, 255)%N)
                            img (Pil.LastBand img))
    /\ (Pil.mode img <> "RGBA"%string -> Pil.mode img <> "RGB"%string ->
          sent = Pil.Converted img "RGB")
    /\ (Pil.mode img = "RGB"%string -> sent = img)
    /\ Pil.mode sent = "RGB"%string.
Proof.
  intros Hu Hne Hg Ho. exists (normalize img).
  assert (Ht : truthy (Some url) = true) by (destruct url; [contradiction|reflexivity]).
  split; [|split; [|apply normalize_cases]].
  - unfold image_node. rewrite Hu, Ht. simpl negb. cbv iota.
    unfold try_except, bind, call, call_gemini, ret, encode.
    cbn [get_str]. rewrite Hg. cbv beta iota. rewrite Ho. cbv beta iota.
    destruct (generate w key MODEL_NAME IMAGE_PROMPT _ T0_3); reflexivity.
  - intros api a Ha. unfold Streamlit.image_step. rewrite Ha, Ht.
    unfold try_except, bind, call, Streamlit.call_gemini, ret, encode.
    cbn [get_str]. rewrite Hg. cbv beta iota. rewrite Ho. cbv beta iota.
    destruct (generate w api Streamlit.MODEL_NAME IMAGE_PROMPT _ T0_3);
      reflexivity.
Qed.

Lemma image_normalised_witness :
  exists sent,
    events (image_node (world (site PICTURE_ARTICLE) [] (always DRAFT)) KEY
                       extracted)
    = [HttpGet IMG_URL; ImageOpen;
       Generate MODEL_NAME IMAGE_PROMPT (Some (Pil.Base64 "JPEG" 85 sent))
                T0_3]
    /\ (forall api a, Scraper.image_url a = Some IMG_URL ->
          events (Streamlit.image_step
                    (world (site PICTURE_ARTICLE) [] (always DRAFT)) api a)
          = [HttpGet IMG_URL; ImageOpen;
             Generate Streamlit.MODEL_NAME IMAGE_PROMPT
                      (Some (Pil.Base64 "JPEG" 85 sent)) T0_3])
    /\ (Pil.mode GREY_ALPHA = "RGBA"%string ->
          sent = Pil.Pasted
                   (Pil.New "RGB" (Pil.size GREY_ALPHA) (255, 255, 255)%N)
                   GREY_ALPHA (Pil.LastBand GREY_ALPHA))
    /\ (Pil.mode GREY_ALPHA <> "RGBA"%string ->
        Pil.mode GREY_ALPHA <> "RGB"%string ->
          sent = Pil.Converted GREY_ALPHA "RGB")
    /\ (Pil.mode GREY_ALPHA = "RGB"%string -> sent = GREY_ALPHA)
    /\ Pil.mode sent = "RGB"%string.
Proof.
  apply (@image_normalised (world (site PICTURE_ARTICLE) [] (always DRAFT))
           KEY extracted IMG_URL PNG_BYTES GREY_ALPHA).
  - reflexivity.
  - discriminate.
  - reflexivity.
  - reflexivity.
Defined.

(** C6, counterexample.  A grey-scale image with an alpha band has
    transparency; its mode is LA, not RGBA, so it is converted to RGB
    and not pasted onto a white background. *)
Lemma grey_alpha_not_composited :
  Pil.has_transparency GREY_ALPHA = true
  /\ events (image_node (world (site PICTURE_ARTICLE) [] (always DRAFT)) KEY
                        extracted)
     = [HttpGet IMG_URL; ImageOpen;
        Generate MODEL_NAME IMAGE_PROMPT
          (Some (Pil.Base64 "JPEG" 85 (Pil.Converted GREY_ALPHA "RGB")))
          T0_3]
  /\ normalize GREY_ALPHA
     <> Pil.Pasted (Pil.New "RGB" (Pil.size GREY_ALPHA) (255, 255, 255)%N)
                   GREY_ALPHA (Pil.LastBand GREY_ALPHA).
Proof.
  split; [reflexivity|]. split; [vm_compute; reflexivity|]. discriminate.
Qed.

End ImageProps.

(* ================================================================== *)
(** * The tallies                                                      *)
(* ================================================================== *)

Module TallyProps.
Import Py Effects Prompts Spec Pipeline Scenarios PyProps ReviewProps.

Lemma classify_spec r :
  classify r =
  if counts_no_violation r then CountsNoViolation
  else if counts_violation r then CountsViolation
  else CountsNothing.
Proof.
  unfold classify, counts_no_violation, counts_violation, says_no_violation.
  destruct (contains VIOLATION r), (contains NO_VIOLATION r),
    (contains NO_VIOLATION_NOSPACE r); reflexivity.
Qed.

Lemma count_line_spec v nv r :
  count_line (v, nv) r =
  (v + (if counts_violation r then 1 else 0),
   nv + (if counts_no_violation r then 1 else 0)).
Proof.
  unfold count_line. rewrite classify_spec. unfold counts_violation.
  unfold counts_no_violation.
  destruct (says_no_violation r); simpl; [f_equal; lia|].
  destruct (contains VIOLATION r); f_equal; lia.
Qed.

Lemma spec_tally_cons r rs :
  spec_tally (r :: rs) =
  ((if counts_violation r then 1 else 0) + fst (spec_tally rs),
   (if counts_no_violation r then 1 else 0) + snd (spec_tally rs)).
Proof.
  unfold spec_tally. cbn [filter fst snd].
  destruct (counts_violation r), (counts_no_violation r); reflexivity.
Qed.

Lemma scan_cases_spec : forall reasons i cases v nv,
  Streamlit.scan_cases i (map Some reasons) cases (v, nv) =
  (Return (cases ++ number_from i reasons),
   (v + fst (spec_tally reasons), nv + snd (spec_tally reasons))).
Proof.
  induction reasons as [|r rs IH]; intros i cases v nv.
  - cbn. now rewrite app_nil_r, !Nat.add_0_r.
  - cbn [map Streamlit.scan_cases number_from]. rewrite count_line_spec, IH.
    rewrite spec_tally_cons. cbn [fst snd]. rewrite <- app_assoc.
    cbn [app]. f_equal. f_equal; lia.
Qed.

Lemma one_tally_per_case reasons :
  fst (spec_tally reasons) + snd (spec_tally reasons) <= length reasons.
Proof.
  induction reasons as [|r rs IH]; [simpl; lia|].
  rewrite spec_tally_cons. cbn [fst snd length].
  unfold counts_violation, counts_no_violation.
  destruct (says_no_violation r), (contains VIOLATION r);
    cbn [negb andb]; lia.
Qed.

(** The counters of the Streamlit pipeline follow the rule of the
    specification: over a list of reasons they are the number of
    reasons with a no-violation marker and the number of the other
    reasons with the violation marker; no reason is in both, and the
    two together do not exceed the number of cases. *)
Lemma streamlit_tally_rule reasons :
  Streamlit.scan_cases 0 (map Some reasons) [] (0, 0)
  = (Return (number_from 0 reasons), spec_tally reasons)
  /\ fst (spec_tally reasons) + snd (spec_tally reasons) <= length reasons
  /\ (forall r, counts_violation r && counts_no_violation r = false)
  /\ (forall r, counts_no_violation r = true <->
                substring NO_VIOLATION r \/ substring NO_VIOLATION_NOSPACE r)
  /\ (forall r, counts_violation r = true <->
                ~ (substring NO_VIOLATION r \/ substring NO_VIOLATION_NOSPACE r)
                /\ substring VIOLATION r).
Proof.
  split; [|split; [|split; [|split]]].
  - rewrite scan_cases_spec. cbn [app]. now destruct (spec_tally reasons).
  - apply one_tally_per_case.
  - intros r. unfold counts_violation, counts_no_violation.
    destruct (says_no_violation r), (contains VIOLATION r); reflexivity.
  - intros r. apply says_no_violation_spec.
  - intros r. unfold counts_violation.
    rewrite andb_true_iff, negb_true_iff, contains_spec.
    rewrite <- says_no_violation_spec.
    destruct (says_no_violation r); intuition congruence.
Qed.

(** ** The counters of [decide_node] *)

Lemma fold_count_line : forall lines v nv,
  fold_left count_line lines (v, nv)
  = (v + fst (spec_tally lines), nv + snd (spec_tally lines)).
Proof.
  induction lines as [|l ls IH]; intros v nv.
  - cbn. now rewrite !Nat.add_0_r.
  - cbn [fold_left]. rewrite count_line_spec, IH, spec_tally_cons.
    cbn [fst snd]. f_equal; lia.
Qed.

Lemma split_cons_no_sep c s :
  c <> NL ->
  split NL (c :: s) =
  match split NL s with
  | [] => [[c]]
  | l :: ls => (c :: l) :: ls
  end.
Proof.
  intros H. cbn [split]. apply N.eqb_neq in H. now rewrite H.
Qed.

Lemma split_line l :
  ~ In NL l -> forall rest, split NL (l ++ NL :: rest) = l :: split NL rest.
Proof.
  induction l as [|c l IH]; intros H rest.
  - cbn [app split]. now rewrite N.eqb_refl.
  - cbn [app]. rewrite split_cons_no_sep by (intros ->; apply H; now left).
    rewrite IH by (intros Hin; apply H; now right). reflexivity.
Qed.

Lemma split_last l : ~ In NL l -> split NL l = [l].
Proof.
  induction l as [|c l IH]; intros H; [reflexivity|].
  rewrite split_cons_no_sep by (intros ->; apply H; now left).
  rewrite IH by (intros Hin; apply H; now right). reflexivity.
Qed.

Lemma split_join : forall ls,
  ls <> [] -> Forall (fun l => ~ In NL l) ls ->
  split NL (join [NL] ls) = ls.
Proof.
  induction ls as [|l ls IH]; intros Hne H; [contradiction|].
  inversion H as [|? ? Hl Hls]; subst.
  destruct ls as [|l' ls].
  - cbn [join]. now apply split_last.
  - change (join [NL] (l :: l' :: ls)) with (l ++ [NL] ++ join [NL] (l' :: ls)).
    cbn [app]. rewrite split_line by assumption.
    f_equal. apply IH; [discriminate|assumption].
Qed.

Lemma uint_digits d : forallb digit (u (NilEmpty.string_of_uint d)) = true.
Proof. induction d; cbn; try assumption; reflexivity. Qed.

Lemma str_of_nat_digits n : forallb digit (str_of_nat n) = true.
Proof. apply uint_digits. Qed.

(** The number before a reason is no part of a marker and has no
    line break. *)
Lemma case_line_prefix i reason :
  exists p, case_line i reason = p ++ reason
            /\ forallb (fun c => digit c || (c =? 46)%N || (c =? 32)%N) p = true.
Proof.
  exists (str_of_nat (i + 1) ++ u ". "). split.
  - unfold case_line. now rewrite <- app_assoc.
  - rewrite forallb_app. rewrite andb_true_iff. split; [|reflexivity].
    eapply IdemProps.forallb_impl; [|apply str_of_nat_digits].
    intros c Hc. now rewrite Hc.
Qed.

Lemma contains_behind_prefix m0 m p r :
  forallb (fun c => negb (m0 =? c)%N) p = true ->
  contains (m0 :: m) (p ++ r) = contains (m0 :: m) r.
Proof.
  induction p as [|c p IH]; intros H; [reflexivity|].
  cbn [forallb] in H. apply andb_true_iff in H. destruct H as [Hc Hp].
  cbn [app contains startswith]. apply negb_true_iff in Hc. rewrite Hc.
  cbn [andb orb]. now apply IH.
Qed.

Lemma prefix_harmless p :
  forallb (fun c => digit c || (c =? 46)%N || (c =? 32)%N) p = true ->
  forallb (fun c => negb (50948 =? c)%N) p = true /\ ~ In NL p.
Proof.
  intros H. rewrite forallb_forall in H. split.
  - apply forallb_forall. intros c Hc. specialize (H c Hc).
    destruct (50948 =? c)%N eqn:E; [|reflexivity].
    apply N.eqb_eq in E. subst c. discriminate.
  - intros Hin. specialize (H _ Hin). discriminate.
Qed.

Lemma case_line_counts i reason :
  counts_violation (case_line i reason) = counts_violation reason
  /\ counts_no_violation (case_line i reason) = counts_no_violation reason
  /\ (~ In NL reason -> ~ In NL (case_line i reason)).
Proof.
  destruct (case_line_prefix i reason) as (p & -> & Hp).
  apply prefix_harmless in Hp. destruct Hp as [Hp Hnl].
  unfold counts_violation, counts_no_violation, says_no_violation.
  change VIOLATION with (50948%N :: tl VIOLATION).
  change NO_VIOLATION with (50948%N :: tl NO_VIOLATION).
  change NO_VIOLATION_NOSPACE with (50948%N :: tl NO_VIOLATION_NOSPACE).
  rewrite !(@contains_behind_prefix _ _ p _ Hp).
  repeat split. intros Hr Hin. apply in_app_or in Hin. tauto.
Qed.

Lemma spec_tally_numbered : forall reasons i,
  spec_tally (number_from i reasons) = spec_tally reasons.
Proof.
  induction reasons as [|r rs IH]; intros i; [reflexivity|].
  cbn [number_from]. rewrite !spec_tally_cons, IH.
  destruct (case_line_counts i r) as (-> & -> & _). reflexivity.
Qed.

Lemma numbered_single_lines : forall reasons i,
  Forall (fun r => ~ In NL r) reasons ->
  Forall (fun l => ~ In NL l) (number_from i reasons).
Proof.
  induction reasons as [|r rs IH]; intros i H; [constructor|].
  inversion H; subst. cbn [number_from]. constructor; [|now apply IH].
  now apply case_line_counts.
Qed.

Lemma join_nonempty l ls : l <> [] -> nonempty (join [NL] (l :: ls)) = true.
Proof.
  intros H. destruct l as [|c l]; [contradiction|].
  destruct ls; reflexivity.
Qed.

Lemma case_line_nonempty i r : case_line i r <> [].
Proof.
  unfold case_line. intros H. apply app_eq_nil in H. destruct H as [_ H].
  discriminate.
Qed.

(** When no reason has a line break, the counters of [decide_node]
    over the case list that [search_node] builds follow the rule of the
    specification as well. *)
Lemma decide_tally_single_lines reasons :
  Forall (fun r => ~ In NL r) reasons ->
  count_cases (join [NL] (number_from 0 reasons)) = spec_tally reasons.
Proof.
  intros H. unfold count_cases.
  destruct reasons as [|r rs]; [reflexivity|].
  cbn [number_from]. rewrite join_nonempty by apply case_line_nonempty.
  change (case_line 0 r :: number_from (0 + 1) rs)
    with (number_from 0 (r :: rs)).
  rewrite split_join.
  - rewrite fold_count_line, spec_tally_numbered. cbn [Nat.add].
    now destruct (spec_tally (r :: rs)).
  - discriminate.
  - now apply numbered_single_lines.
Qed.

(** C4, the code at the failing input.  The index returns one
    precedent whose reason has two lines, each with the violation
    marker.  [search_node] joins the numbered reasons with line breaks
    and [decide_node] counts the lines of the joined text: the
    violation tally of the run is 2 for a list of one case.  A reason
    with a violation in one line and the no-violation marker in the
    other is counted in both tallies.  By the rule of the
    specification the tallies are (1, 0) and (0, 1). *)
Theorem line_count_exceeds_case_count :
  let w := world (site PLAIN_ARTICLE) [Some TWO_LINES] (always DRAFT) in
  (exists st, value (invoke (create_workflow w KEY) (initial URL)) = Return st
              /\ similar_cases st = Some (join [NL] (number_from 0 [TWO_LINES]))
              /\ violation_count st = Some 2)
  /\ count_cases (join [NL] (number_from 0 [TWO_LINES])) = (2, 0)
  /\ spec_tally [TWO_LINES] = (1, 0)
  /\ count_cases (join [NL] (number_from 0 [MIXED_LINES])) = (1, 1)
  /\ spec_tally [MIXED_LINES] = (0, 1).
Proof.
  cbv zeta. split.
  - eexists. split; [vm_compute; reflexivity|]. split; reflexivity.
  - repeat split; vm_compute; reflexivity.
Qed.

(** The sibling pipeline counts the same precedents by case. *)
Example streamlit_counts_by_case :
  snd (Streamlit.scan_cases 0 [Some TWO_LINES] [] (0, 0)) = (1, 0)
  /\ snd (Streamlit.scan_cases 0 [Some MIXED_LINES] [] (0, 0)) = (0, 1).
Proof. split; vm_compute; reflexivity. Qed.

End TallyProps.

(* ================================================================== *)
(** * The extractor as a function of what its strategies answer     *)
(* ================================================================== *)

Module ScraperMergeProps.
Import Py Effects Scraper ScraperSpec Trace.

Lemma fold_update_key_truthy l : forall old,
  truthy old = true -> fold_left update_key l old = old.
Proof.
  induction l as [|x l IH]; intros old H; simpl; [reflexivity|].
  unfold update_key at 2. rewrite H. simpl. now apply IH.
Qed.

Lemma fold_update_key_none l :
  fold_left update_key l None = first_truthy l.
Proof.
  induction l as [|x l IH]; simpl; [reflexivity|].
  unfold update_key at 2. simpl. destruct (truthy x) eqn:E.
  - now apply fold_update_key_truthy.
  - exact IH.
Qed.

Lemma fold_update_fields ds : forall acc,
  fold_left update ds acc =
  mkArticleData (fold_left update_key (map title ds) (title acc))
                (fold_left update_key (map text ds) (text acc))
                (fold_left update_key (map image_url ds) (image_url acc)).
Proof.
  induction ds as [|d ds IH]; intros acc; simpl.
  - now destruct acc.
  - rewrite IH. reflexivity.
Qed.

Lemma fold_update_complete ds acc :
  complete acc = true -> fold_left update ds acc = acc.
Proof.
  unfold complete. intros H.
  apply andb_prop in H. destruct H as [H Hi].
  apply andb_prop in H. destruct H as [Ht Hx].
  rewrite fold_update_fields, !fold_update_key_truthy by assumption.
  now destruct acc.
Qed.

(** The end of the loop of [extract_article]. *)
Lemma attempt_value ex url acc a :
  value (snd ex url) = Return a ->
  value (attempt ex url acc) =
  Return match a with
         | Some data =>
             if complete (update acc data) then Done (update acc data)
             else Next (update acc data)
         | None => Next acc
         end.
Proof.
  intros Ha. unfold attempt.
  destruct (snd ex url) as [r l] eqn:E. simpl in Ha. subst r.
  unfold bind, emit, try_except, complete. simpl.
  destruct a as [d|]; simpl; [|reflexivity].
  destruct (truthy _ && truthy _ && truthy _); reflexivity.
Qed.

Lemma run_extractors_value exs : forall url acc,
  (forall ex, In ex exs -> exists a, value (snd ex url) = Return a) ->
  value (run_extractors exs url acc) =
  Return (let r := fold_left update (answers exs url) acc in
          if truthy (title r) || truthy (text r) then Some r else None).
Proof.
  induction exs as [|ex rest IH]; intros url acc H; cbn [run_extractors answers].
  - simpl. destruct (truthy _ || truthy _); reflexivity.
  - destruct (H ex (or_introl eq_refl)) as [a Ha].
    pose proof (attempt_value ex url acc Ha) as Hat.
    rewrite Ha.
    destruct (attempt ex url acc) as [r l] eqn:E. simpl in Hat. subst r.
    assert (Hrest : forall ex', In ex' rest -> exists a, value (snd ex' url) = Return a)
      by (intros ex' Hin; apply H; now right).
    destruct a as [d|].
    + destruct (complete (update acc d)) eqn:Ec.
      * unfold bind, ret. cbn [value fst fold_left].
        rewrite (fold_update_complete _ _ Ec).
        cbv zeta. unfold complete in Ec.
        apply andb_prop in Ec. destruct Ec as [Ec _].
        apply andb_prop in Ec. destruct Ec as [Ec _]. now rewrite Ec.
      * unfold bind. specialize (IH url (update acc d) Hrest).
        destruct (run_extractors rest url (update acc d)) as [r' l'].
        simpl in *. exact IH.
    + unfold bind. specialize (IH url acc Hrest).
      destruct (run_extractors rest url acc) as [r' l'].
      simpl in *. exact IH.
Qed.

(** X1.  For every site, what [extract_article] returns is made field by
    field of the first value, in the order of the strategies, that is
    neither [None] nor empty; the record is returned when it has a title
    or a text, [None] otherwise.  The call never raises. *)
Theorem extract_article_fieldwise_first w url :
  value (extract_article w url) =
  Return (let r := fieldwise_first (answers (extractors w) url) in
          if truthy (title r) || truthy (text r) then Some r else None).
Proof.
  unfold extract_article.
  rewrite run_extractors_value.
  - rewrite fold_update_fields. cbn [title text image_url].
    rewrite !fold_update_key_none. reflexivity.
  - intros ex Hin. now apply ScraperProps.extractor_never_raises with (w := w).
Qed.

End ScraperMergeProps.

Module ScraperLogProps.
Import Py Effects Scraper ScraperSpec Trace ScraperMergeProps.

Lemma fetch_events w url : events (fetch_with_headers w url) = [HttpGet url].
Proof.
  unfold fetch_with_headers, raise_for_status, call, bind, ret, raise.
  destruct (requests_get w url) as [resp|e]; simpl; [|reflexivity].
  destruct ((400 <=? status_code resp)%N && (status_code resp <? 600)%N); reflexivity.
Qed.

Lemma or_else_events a (r : result (option str)) :
  events (or_else a (r, [])) = [].
Proof. unfold or_else, ret. destruct (truthy a); reflexivity. Qed.

Lemma events_bind A B (m : M A) (f : A -> M B) :
  (forall a, events (f a) = []) -> events (bind m f) = events m.
Proof.
  intros Hf. destruct m as [[a|e] l]; simpl; [|reflexivity].
  specialize (Hf a). destruct (f a) as [r l']. simpl in *. subst. apply app_nil_r.
Qed.

Lemma events_try A (m : M A) (h : exn -> M A) :
  (forall e, events (h e) = []) -> events (try_except m h) = events m.
Proof.
  intros Hh. destruct m as [[a|e] l]; simpl; [reflexivity|].
  specialize (Hh e). destruct (h e) as [r l']. simpl in *. subst. apply app_nil_r.
Qed.

Lemma events_pure A (r : result A) : events (r, @nil event) = [].
Proof. reflexivity. Qed.

Ltac silent :=
  repeat first
    [ reflexivity
    | apply events_pure
    | apply or_else_events
    | rewrite events_bind; [|intros ?]
    | rewrite events_try; [|intros ?]
    | match goal with
      | |- events (if ?b then _ else _) = _ => destruct b
      | |- events (match ?x with _ => _ end) = _ => destruct x
      | |- events (let (_, _) := ?x in _) = _ => destruct x
      end ].

Lemma trafilatura_events w url : events (extract_trafilatura w url) = [HttpGet url].
Proof.
  unfold extract_trafilatura.
  rewrite events_try by reflexivity.
  rewrite events_bind; [apply fetch_events|]. intros html. unfold ret. silent.
Qed.

Lemma newspaper_events w url : events (extract_newspaper w url) = [HttpGet url].
Proof.
  unfold extract_newspaper.
  rewrite events_try by reflexivity.
  rewrite events_bind; [apply fetch_events|]. intros html. unfold ret. silent.
Qed.

Lemma rendered_events w url :
  events (get_rendered_html_playwright w url) = [Browser url].
Proof.
  unfold get_rendered_html_playwright, call, ret, bind, try_except.
  destruct (playwright_content w url); reflexivity.
Qed.

Lemma playwright_trafilatura_events w url :
  events (extract_playwright_trafilatura w url) = [Browser url].
Proof.
  unfold extract_playwright_trafilatura.
  rewrite events_try by reflexivity.
  rewrite events_bind; [apply rendered_events|]. intros html. unfold ret. silent.
Qed.

Lemma playwright_newspaper_events w url :
  events (extract_playwright_newspaper w url) = [Browser url].
Proof.
  unfold extract_playwright_newspaper.
  rewrite events_try by reflexivity.
  rewrite events_bind; [apply rendered_events|]. intros html. unfold ret. silent.
Qed.

End ScraperLogProps.

Module ScraperStopProps.
Import Py Effects Scraper ScraperSpec Trace ScraperMergeProps ScraperLogProps.

Lemma attempt_events ex url acc :
  (exists a, value (snd ex url) = Return a) ->
  events (attempt ex url acc) = Tried (fst ex) :: events (snd ex url).
Proof.
  intros [a Ha]. unfold attempt.
  destruct (snd ex url) as [r l] eqn:E. simpl in Ha. subst r.
  unfold bind, emit, try_except. simpl.
  destruct a as [d|]; simpl.
  - destruct (truthy _ && truthy _ && truthy _); simpl; now rewrite app_nil_r.
  - now rewrite app_nil_r.
Qed.

Lemma answers_cons ex rest url :
  answers (ex :: rest) url =
  match value (snd ex url) with
  | Return (Some data) => data :: answers rest url
  | _ => answers rest url
  end.
Proof. reflexivity. Qed.

Lemma run_extractors_log exs : forall url acc,
  complete acc = false ->
  (forall ex, In ex exs -> exists a, value (snd ex url) = Return a) ->
  exists n,
    n <= length exs
    /\ events (run_extractors exs url acc)
       = flat_map (fun ex => Tried (fst ex) :: events (snd ex url)) (firstn n exs)
    /\ forall k, k < length exs ->
         (k < n <->
          complete (fold_left update (answers (firstn k exs) url) acc) = false).
Proof.
  induction exs as [|ex rest IH]; intros url acc Hacc H.
  - exists 0. split; [reflexivity|]. split.
    + simpl. unfold ret. destruct (truthy _ || truthy _); reflexivity.
    + intros k Hk. simpl in Hk. lia.
  - destruct (H ex (or_introl eq_refl)) as [a Ha].
    pose proof (attempt_value ex url acc Ha) as Hv.
    pose proof (attempt_events ex url acc (ex_intro _ a Ha)) as He.
    assert (Hrest : forall ex', In ex' rest -> exists a, value (snd ex' url) = Return a)
      by (intros ex' Hin; apply H; now right).
    cbn [run_extractors].
    destruct (attempt ex url acc) as [r l] eqn:E. simpl in Hv, He. subst r l.
    assert (Hstep : forall acc',
      match a with Some d => update acc d | None => acc end = acc' ->
      complete acc' = false ->
      exists n, n <= length (ex :: rest)
        /\ events (bind (Return (Next acc'), Tried (fst ex) :: events (snd ex url))
                     (fun s => match s with
                               | Done result => ret (Some result)
                               | Next result => run_extractors rest url result
                               end))
           = flat_map (fun ex => Tried (fst ex) :: events (snd ex url))
               (firstn n (ex :: rest))
        /\ forall k, k < length (ex :: rest) ->
             (k < n <->
              complete (fold_left update (answers (firstn k (ex :: rest)) url) acc)
              = false)).
    { intros acc' Hacc' Hc.
      destruct (IH url acc' Hc Hrest) as (n & Hn & Hev & Hk).
      exists (S n). split; [simpl; lia|]. split.
      - unfold bind. destruct (run_extractors rest url acc') as [r' l'].
        simpl in *. now rewrite Hev.
      - intros [|k] Hlt.
        + simpl. split; [intros _; exact Hacc|lia].
        + cbn [firstn]. rewrite answers_cons, Ha.
          assert (fold_left update
                    match a with
                    | Some data => data :: answers (firstn k rest) url
                    | None => answers (firstn k rest) url
                    end acc
                  = fold_left update (answers (firstn k rest) url) acc') as ->
            by (destruct a; subst acc'; reflexivity).
          simpl in Hlt. rewrite <- Hk by lia. lia. }
    destruct a as [d|].
    + destruct (complete (update acc d)) eqn:Ec.
      * exists 1. split; [simpl; lia|]. split.
        -- unfold bind, ret. simpl. now rewrite !app_nil_r.
        -- intros [|k] Hlt.
           ++ simpl. split; [intros _; exact Hacc|lia].
           ++ cbn [firstn]. rewrite answers_cons, Ha. cbn [fold_left].
              rewrite (fold_update_complete _ _ Ec), Ec.
              split; [lia|discriminate].
      * now apply Hstep.
    + now apply Hstep.
Qed.

Lemma fieldwise_first_fold ds :
  fold_left update ds (mkArticleData None None None) = fieldwise_first ds.
Proof.
  rewrite fold_update_fields. cbn [title text image_url].
  now rewrite !fold_update_key_none.
Qed.

Ltac log_of_prefix :=
  cbn [firstn flat_map app fst snd map];
  rewrite ?trafilatura_events, ?newspaper_events,
    ?playwright_trafilatura_events, ?playwright_newspaper_events;
  cbn [app strategies http_gets page_loads Nat.min Nat.sub repeat].

(** X2.  [extract_article] tries the strategies in their order and stops
    behind the first one at which the record merged so far has a title,
    a text and an image: strategy number [k] (from 0) is tried exactly
    when the answers of the strategies before it do not make a complete
    record.  Every strategy tried makes one request for the URL of the
    article: the first two an HTTP GET, the others a page load in the
    browser. *)
Theorem extract_article_stops_when_complete w url :
  exists n,
    strategies (events (extract_article w url))
      = firstn n (map fst (extractors w))
    /\ (forall k, k < length (extractors w) ->
          (k < n <->
           complete (fieldwise_first (answers (firstn k (extractors w)) url))
           = false))
    /\ http_gets (events (extract_article w url)) = repeat url (Nat.min n 2)
    /\ page_loads (events (extract_article w url)) = repeat url (n - 2).
Proof.
  unfold extract_article.
  destruct (@run_extractors_log (extractors w) url (mkArticleData None None None)
              eq_refl) as (n & Hn & Hev & Hk).
  { intros ex Hin. now apply ScraperProps.extractor_never_raises with (w := w). }
  exists n. rewrite Hev. split; [|split].
  - clear Hk. unfold extractors in *.
    destruct (PLAYWRIGHT_AVAILABLE w); cbn [app length] in Hn |- *;
      destruct n as [|[|[|[|[|n]]]]]; try lia; log_of_prefix; reflexivity.
  - intros k Hlt. rewrite (Hk k Hlt), fieldwise_first_fold. reflexivity.
  - clear Hk. unfold extractors in *.
    destruct (PLAYWRIGHT_AVAILABLE w); cbn [app length] in Hn |- *;
      destruct n as [|[|[|[|[|n]]]]]; try lia; log_of_prefix; split; reflexivity.
Qed.

End ScraperStopProps.

(* ================================================================== *)
(** * The picture of a page                                         *)
(* ================================================================== *)

Module HtmlProps.
Import Py Spec Html BinInt.

Lemma skipped_iff_small w width height :
  large w width height = Some false <->
  small w width && small w height = true.
Proof.
  unfold large, small.
  destruct (int_of w width) as [a|]; [|split; discriminate].
  destruct (200 <=? a)%Z; cbn [negb andb]; [split; discriminate|].
  destruct (int_of w height) as [b|]; [|split; discriminate].
  destruct (200 <=? b)%Z; cbn [negb]; split; congruence.
Qed.

Lemma first_img_step w base img rest :
  first_img w base (img :: rest) =
  if taken w img then joined w base (fmt_opt (get img SRC))
  else first_img w base rest.
Proof.
  cbn [first_img]. unfold taken.
  destruct (truthy (get img SRC) && negb (excluded w (fmt_opt (get img SRC))));
    [|reflexivity].
  cbn [andb].
  pose proof (skipped_iff_small w (get_or img WIDTH ZERO) (get_or img HEIGHT ZERO))
    as H.
  destruct (large w (get_or img WIDTH ZERO) (get_or img HEIGHT ZERO))
    as [[|]|] eqn:E;
    destruct (small w (get_or img WIDTH ZERO) && small w (get_or img HEIGHT ZERO));
    cbn [negb]; try reflexivity.
  - destruct H as [_ H]. specialize (H eq_refl). discriminate.
  - destruct H as [H _]. specialize (H eq_refl). discriminate.
  - destruct H as [_ H]. specialize (H eq_refl). discriminate.
Qed.

(** X3.  The last step of [extract_images_from_html] returns the joined
    address of the first [img] tag that has an address without an
    excluded word, unless the width and the height of the tag both
    convert to numbers under 200: a size that does not convert (100%,
    300px) lets the picture through, and a tag with neither width nor
    height is never taken, since both count as 0.  Without such a tag
    the step returns [None]. *)
Theorem last_step_rule w base tags :
  first_img w base tags =
  match find (taken w) tags with
  | Some img => joined w base (fmt_opt (get img SRC))
  | None => Return JNull
  end
  /\ (forall img,
        get img WIDTH = None -> get img HEIGHT = None -> taken w img = false)
  /\ (forall img,
        truthy (get img SRC) = true ->
        excluded w (fmt_opt (get img SRC)) = false ->
        int_of w (get_or img WIDTH ZERO) = None ->
        taken w img = true).
Proof.
  split; [|split].
  - induction tags as [|img rest IH]; [reflexivity|].
    rewrite first_img_step. cbn [find].
    destruct (taken w img); [reflexivity|exact IH].
  - intros img Hw Hh. unfold taken, get_or. rewrite Hw, Hh.
    replace (small w ZERO) with true by reflexivity.
    cbn [andb negb]. apply andb_false_r.
  - intros img Hs He Hi. unfold taken, small. now rewrite Hs, He, Hi.
Qed.

Lemma contains_trans a b c :
  contains a b = true -> contains b c = true -> contains a c = true.
Proof.
  rewrite !PyProps.contains_spec.
  intros (p1 & q1 & ->) (p2 & q2 & ->).
  exists (p2 ++ p1), (q1 ++ q2). now rewrite <- !app_assoc.
Qed.

(** X4.  The word list of the last step is matched as a substring of
    the lower-cased address, so the two letters [ad] rule out every
    address that holds them anywhere: for an address in ASCII, any word
    with [ad] in it (upload, download, header, shadow) that occurs in
    the address in any letter case makes the step pass the tag over. *)
Theorem address_with_ad_is_excluded w word src :
  forallb is_ascii src = true ->
  contains (u "ad") word = true ->
  contains word (map ascii_lower src) = true ->
  excluded w src = true
  /\ forall base img rest,
       get img SRC = Some src ->
       first_img w base (img :: rest) = first_img w base rest.
Proof.
  intros Ha Hw Hs.
  assert (excluded w src = true) as He.
  { unfold excluded, lower. rewrite Ha.
    apply existsb_exists. exists (u "ad"). split.
    - unfold EXCLUDED. cbn. tauto.
    - now apply contains_trans with (b := word). }
  split; [exact He|].
  intros base img rest Hg. rewrite first_img_step. unfold taken.
  rewrite Hg. cbn [fmt_opt]. rewrite He. cbn [negb andb].
  now rewrite andb_false_r.
Qed.

Lemma address_with_ad_is_excluded_witness :
  let w := plain_site [UPLOADED] in
  excluded w (u "/Uploads/photo.jpg") = true
  /\ forall base img rest,
       get img SRC = Some (u "/Uploads/photo.jpg") ->
       first_img w base (img :: rest) = first_img w base rest.
Proof.
  intros w.
  apply (@address_with_ad_is_excluded w (u "upload") (u "/Uploads/photo.jpg"));
    reflexivity.
Defined.

Lemma joined_raise w base src e :
  joined w base src = Raise e -> urljoin w base src = Raise e.
Proof. unfold joined. destruct (urljoin w base src); congruence. Qed.

Lemma first_img_raise w base e : forall tags,
  first_img w base tags = Raise e -> exists src, urljoin w base src = Raise e.
Proof.
  induction tags as [|img rest IH]; [discriminate|].
  rewrite first_img_step. destruct (taken w img); [|exact IH].
  intros H. eexists. apply joined_raise. exact H.
Qed.

(** X5.  An exception that leaves [extract_images_from_html] is one of
    the parser, raised by the constructor [BeautifulSoup] in the first
    line, or one of [urljoin]: whatever the JSON-LD extractor does, and
    whatever is in its answer (an image entry that is a list of
    numbers, say), is caught by the bare [except] and the function goes
    on with the pictures of the page.  When the parser raises, the
    function raises the same exception. *)
Theorem only_parser_and_urljoin_raise w html base :
  match extract_images_from_html w html base with
  | Return _ => exists soup, BeautifulSoup w html = Return soup
  | Raise e =>
      BeautifulSoup w html = Raise e
      \/ ((exists soup, BeautifulSoup w html = Return soup)
          /\ exists src, urljoin w base src = Raise e)
  end.
Proof.
  unfold extract_images_from_html.
  destruct (BeautifulSoup w html) as [soup|e0]; [|now left].
  assert (exists soup0 : Soup, Return soup = Return soup0) as Hs
    by (now exists soup).
  destruct (content_of (og_image soup)); [exact Hs|].
  destruct (content_of (tw_image soup)); [exact Hs|].
  assert (match
            match article_imgs soup with
            | [] => first_img w base (imgs soup)
            | first :: _ =>
                if truthy (get first SRC)
                then joined w base (fmt_opt (get first SRC))
                else Return JNull
            end
          with
          | Return _ => exists soup0 : Soup, Return soup = Return soup0
          | Raise e =>
              Return soup = Raise e
              \/ ((exists soup0 : Soup, Return soup = Return soup0)
                  /\ exists src, urljoin w base src = Raise e)
          end) as H.
  { destruct (article_imgs soup) as [|first rest].
    - destruct (first_img w base (imgs soup)) as [v|e] eqn:E;
        [exact Hs|]. right. split; [exact Hs|]. now apply first_img_raise in E.
    - destruct (truthy (get first SRC)); [|exact Hs].
      destruct (joined w base (fmt_opt (get first SRC))) as [v|e] eqn:E;
        [exact Hs|]. right. split; [exact Hs|].
      eexists. apply joined_raise. exact E. }
  destruct (json_ld_image w html base); [exact Hs|exact H|exact H].
Qed.

(** Markup that the parser rejects: the exception leaves the
    function, although the page has a picture. *)
Example rejected_markup_raises :
  let w := mkWorld (fun _ => Raise (Error (u "ParserRejectedMarkup")))
             true (fun _ _ => Return [])
             (fun base src => Return (base ++ src))
             (fun s => s) (fun _ => None) in
  extract_images_from_html w (u "<html>") (u "https://news.example.com")
  = Raise (Error (u "ParserRejectedMarkup")).
Proof. reflexivity. Qed.

(** A page without metadata: the picture without size and the one under
    [/Uploads/] are passed over, the one sized by percentage is taken. *)
Example percentage_sized_picture_is_taken :
  extract_images_from_html (plain_site [UNSIZED; UPLOADED; PHOTO])
    (u "<html>") (u "https://news.example.com")
  = Return (JStr (u "https://news.example.com/media/photo.jpg")).
Proof. vm_compute. reflexivity. Qed.

End HtmlProps.

(* ================================================================== *)
(** * A run of the graph, stage by stage                            *)
(* ================================================================== *)

Module RunProps.
Import Py Effects Prompts Spec Pipeline Trace.
Local Open Scope eff_scope.

(** The run of the graph, written out as the sequence of its nodes. *)
Lemma invoke_steps w key st :
  invoke (create_workflow w key) st =
  (emit (NodeRun "extract") ;;;
   s1 <- extract_node w st ;;
   (emit (NodeRun "image") ;;;
    s2 <- image_node w key s1 ;;
    (emit (NodeRun "search") ;;;
     s3 <- search_node w s2 ;;
     (emit (NodeRun "decide") ;;;
      s4 <- decide_node w key s3 ;;
      (emit (NodeRun "review") ;;;
       s5 <- review_node w key s4 ;;
       ret s5))))).
Proof.
  unfold invoke. cbn [entry_point create_workflow run]. reflexivity.
Qed.

Lemma bind_return A B (a : A) l (f : A -> M B) :
  bind (Return a, l) f = (value (f a), l ++ events (f a)).
Proof. unfold bind. now destruct (f a). Qed.

Lemma generations_app l1 l2 :
  generations (l1 ++ l2) = generations l1 ++ generations l2.
Proof.
  induction l1 as [|ev l1 IH]; simpl; [reflexivity|].
  destruct ev; simpl; now rewrite IH.
Qed.

Lemma index_queries_app l1 l2 :
  index_queries (l1 ++ l2) = index_queries l1 ++ index_queries l2.
Proof.
  induction l1 as [|ev l1 IH]; simpl; [reflexivity|].
  destruct ev; simpl; now rewrite IH.
Qed.

Lemma http_gets_app l1 l2 :
  http_gets (l1 ++ l2) = http_gets l1 ++ http_gets l2.
Proof.
  induction l1 as [|ev l1 IH]; simpl; [reflexivity|].
  destruct ev; simpl; now rewrite IH.
Qed.

(** The extractor only tries strategies and makes requests. *)
Lemma extract_article_log w url :
  generations (events (Scraper.extract_article w url)) = []
  /\ index_queries (events (Scraper.extract_article w url)) = []
  /\ length (http_gets (events (Scraper.extract_article w url))) <= 2.
Proof.
  unfold Scraper.extract_article.
  destruct (@ScraperStopProps.run_extractors_log (Scraper.extractors w) url
              (Scraper.mkArticleData None None None) eq_refl) as (n & Hn & Hev & _).
  { intros ex Hin. now apply ScraperProps.extractor_never_raises with (w := w). }
  rewrite Hev. clear Hev. unfold Scraper.extractors in *.
  destruct (Scraper.PLAYWRIGHT_AVAILABLE w); cbn [app length] in Hn |- *;
    destruct n as [|[|[|[|[|n]]]]]; try lia;
    cbn [firstn flat_map app fst snd];
    rewrite ?ScraperLogProps.trafilatura_events, ?ScraperLogProps.newspaper_events,
      ?ScraperLogProps.playwright_trafilatura_events,
      ?ScraperLogProps.playwright_newspaper_events;
    cbn [app generations index_queries http_gets length]; repeat split; lia.
Qed.

(** The Extract node: its state, or the exception of the slice, and
    its log. *)
Lemma extract_node_eq w st :
  extract_node w st =
  (match value (Scraper.extract_article (scraper w) (url st)) with
   | Return (Some a) =>
       if truthy (Scraper.text a) then
         match Scraper.title a with
         | Some _ => Return (set_article a st)
         | None => Raise RunSpec.TYPE_ERROR
         end
       else Return (set_error EXTRACT_FAILED st)
   | _ => Return (set_error EXTRACT_FAILED st)
   end,
   events (Scraper.extract_article (scraper w) (url st))).
Proof.
  unfold extract_node.
  destruct (ScraperProps.extract_article_never_raises (scraper w) (url st)) as [r Hr].
  destruct (Scraper.extract_article (scraper w) (url st)) as [v l].
  simpl in Hr. subst v. unfold bind, ret. simpl.
  destruct r as [a|];
    [destruct (truthy (Scraper.text a)); [destruct (Scraper.title a)|]|];
    simpl; now rewrite ?app_nil_r.
Qed.

(** The state the Extract node returns when it can show the title. *)
Lemma extract_node_titled w st :
  RunSpec.untitled w (url st) = false ->
  extract_node w st =
  (Return match value (Scraper.extract_article (scraper w) (url st)) with
          | Return (Some a) =>
              if truthy (Scraper.text a) then set_article a st
              else set_error EXTRACT_FAILED st
          | _ => set_error EXTRACT_FAILED st
          end,
   events (Scraper.extract_article (scraper w) (url st))).
Proof.
  intros Hu. rewrite extract_node_eq. unfold RunSpec.untitled in Hu.
  destruct (value (Scraper.extract_article (scraper w) (url st)))
    as [[a|]|e]; try reflexivity.
  destruct (truthy (Scraper.text a)); [|reflexivity].
  destruct (Scraper.title a); [reflexivity|discriminate].
Qed.

(** Without a title the node raises, after the extractor has run. *)
Lemma extract_node_untitled w st :
  RunSpec.untitled w (url st) = true ->
  extract_node w st =
  (Raise RunSpec.TYPE_ERROR,
   events (Scraper.extract_article (scraper w) (url st))).
Proof.
  intros Hu. rewrite extract_node_eq. unfold RunSpec.untitled in Hu.
  destruct (value (Scraper.extract_article (scraper w) (url st)))
    as [[a|]|e]; try discriminate.
  destruct (truthy (Scraper.text a)); [|discriminate].
  destruct (Scraper.title a); [discriminate|reflexivity].
Qed.

(** The run of the graph ends in the Extract node then. *)
Lemma invoke_untitled w key u :
  RunSpec.untitled w u = true ->
  invoke (create_workflow w key) (initial u) =
  (Raise RunSpec.TYPE_ERROR,
   NodeRun "extract" :: events (Scraper.extract_article (scraper w) u)).
Proof.
  intros Hu. rewrite invoke_steps.
  rewrite (@extract_node_untitled w (initial u) Hu). reflexivity.
Qed.

(** The Image node changes [image_desc] and nothing else, and never
    raises. *)
Lemma image_node_eq w key st :
  exists d l,
    image_node w key st = (Return (set_image_desc d st), l)
    /\ (generations l = [] \/ generations l = [(true, T0_3)])
    /\ index_queries l = [] /\ length (http_gets l) <= 1.
Proof.
  unfold image_node, call_gemini, call, ret.
  destruct (negb _).
  - exists None, []. repeat split; auto.
  - destruct (image_get w _) as [content|e]; simpl;
      [destruct (image_open w content) as [img|e]; simpl;
       [destruct (generate w key _ _ _ _) as [d|e]; simpl|]|];
      (eexists; eexists; split; [reflexivity|]; simpl; repeat split; auto).
Qed.

Lemma search_node_eq w st :
  has_text st ->
  exists c text,
    search_node w st = (Return (set_similar_cases c st), [IndexQuery text 5]).
Proof.
  intros [body Ht]. unfold search_node.
  rewrite (@GraphProps.article_line_returns _ _ Ht).
  unfold bind, call, ret, try_except.
  destruct (query_index w _ 5) as [reasons|e]; simpl.
  - destruct (collect_cases 0 reasons []) as [cases|e]; simpl;
      (eexists; eexists; reflexivity).
  - eexists; eexists; reflexivity.
Qed.

Lemma decide_node_eq w key st :
  has_text st ->
  exists prompt,
    decide_prompt (article st) (image_desc st) (get_str (similar_cases st))
      (snd (count_cases (get_str (similar_cases st)))) = (Return prompt, [])
    /\ decide_node w key st =
       (Return match generate w key MODEL_NAME prompt None T0_0 with
               | Return decision =>
                   set_violation_count
                     (fst (count_cases (get_str (similar_cases st))))
                     (set_decision decision st)
               | Raise e =>
                   set_violation_count
                     (fst (count_cases (get_str (similar_cases st))))
                     (set_decision []
                        (set_error (DECIDE_FAILED ++ exn_str e) st))
               end,
        [Generate MODEL_NAME prompt None T0_0]).
Proof.
  intros [body Ht]. unfold decide_node.
  destruct (count_cases _) as [v nv]. cbn [fst snd].
  destruct (@GraphProps.decide_prompt_returns _ (image_desc st)
              (get_str (similar_cases st)) nv _ Ht) as [p Hp].
  exists p. split; [exact Hp|].
  rewrite Hp. unfold bind, call_gemini, call, ret, try_except.
  destruct (generate w key _ _ _ _) as [d|e]; reflexivity.
Qed.

Lemma review_node_eq w key st :
  has_text st ->
  exists rr l,
    review_node w key st = (Return (set_review_result rr st), l)
    /\ (l = [] \/ exists prompt, l = [Generate MODEL_NAME prompt None T0_0]).
Proof.
  intros [body Ht]. unfold review_node.
  destruct (says_no_violation _).
  - eexists; eexists; split; [reflexivity|now left].
  - unfold review_prompt. rewrite Ht.
    unfold slice_opt, bind, call_gemini, call, ret, try_except.
    destruct (generate w key _ _ _ _) as [d|e]; simpl;
      (eexists; eexists; split; [reflexivity|right; eexists; reflexivity]).
Qed.


Lemma has_text_extracted w st :
  article st = None ->
  has_text match value (Scraper.extract_article (scraper w) (url st)) with
           | Return (Some a) =>
               if truthy (Scraper.text a) then set_article a st
               else set_error EXTRACT_FAILED st
           | _ => set_error EXTRACT_FAILED st
           end.
Proof.
  intros Hn.
  assert (has_text (set_error EXTRACT_FAILED st)) as He
    by (unfold has_text; simpl; rewrite Hn; simpl; eauto).
  destruct (value _) as [[a|]|e]; try exact He.
  destruct (truthy (Scraper.text a)) eqn:Et; [|exact He].
  unfold has_text. simpl. destruct (Scraper.text a) as [b|]; [eauto|discriminate].
Qed.


End RunProps.

Module GraphRunProps.
Import Py Effects Prompts Spec Pipeline Trace RunProps.
Local Open Scope eff_scope.

(** A run of the graph from the initial state, stage by stage. *)
Lemma invoke_stages w key u :
  RunSpec.untitled w u = false ->
  exists s1 d c s4 rr l1 l2 text prompt l5,
    s1 = match value (Scraper.extract_article (scraper w) u) with
         | Return (Some a) =>
             if truthy (Scraper.text a) then set_article a (initial u)
             else set_error EXTRACT_FAILED (initial u)
         | _ => set_error EXTRACT_FAILED (initial u)
         end
    /\ l1 = events (Scraper.extract_article (scraper w) u)
    /\ image_node w key s1 = (Return (set_image_desc d s1), l2)
    /\ s4 = match generate w key MODEL_NAME prompt None T0_0 with
            | Return decision =>
                set_violation_count (fst (count_cases c))
                  (set_decision decision
                     (set_similar_cases c (set_image_desc d s1)))
            | Raise e =>
                set_violation_count (fst (count_cases c))
                  (set_decision []
                     (set_error (DECIDE_FAILED ++ exn_str e)
                        (set_similar_cases c (set_image_desc d s1))))
            end
    /\ review_node w key s4 = (Return (set_review_result rr s4), l5)
    /\ invoke (create_workflow w key) (initial u) =
       (Return (set_review_result rr s4),
        NodeRun "extract" :: l1 ++ NodeRun "image" :: l2
        ++ NodeRun "search" :: IndexQuery text 5
        :: NodeRun "decide" :: Generate MODEL_NAME prompt None T0_0
        :: NodeRun "review" :: l5).
Proof.
  intros Hu.
  pose proof (@extract_node_titled w (initial u) Hu) as E1.
  pose proof (has_text_extracted w (initial u) eq_refl) as T1.
  cbn [url initial] in E1, T1.
  set (s1 := match value (Scraper.extract_article (scraper w) u) with
             | Return (Some a) =>
                 if truthy (Scraper.text a) then set_article a (initial u)
                 else set_error EXTRACT_FAILED (initial u)
             | _ => set_error EXTRACT_FAILED (initial u)
             end) in *.
  destruct (image_node_eq w key s1) as (d & l2 & E2 & _).
  destruct (@search_node_eq w (set_image_desc d s1) T1) as (c & text & E3).
  destruct (@decide_node_eq w key (set_similar_cases c (set_image_desc d s1)) T1)
    as (prompt & _ & E4).
  cbn [similar_cases set_similar_cases get_str] in E4.
  set (s4 := match generate w key MODEL_NAME prompt None T0_0 with
             | Return decision => _
             | Raise e => _
             end) in *.
  assert (has_text s4) as T4
    by (subst s4; destruct (generate w key MODEL_NAME prompt None T0_0); exact T1).
  destruct (@review_node_eq w key s4 T4) as (rr & l5 & E5 & _).
  exists s1, d, c, s4, rr, (events (Scraper.extract_article (scraper w) u)), l2, text, prompt, l5.
  split; [reflexivity|]. split; [reflexivity|]. split; [exact E2|].
  split; [reflexivity|]. split; [exact E5|].
  rewrite invoke_steps, E1.
  unfold emit, ret. rewrite !bind_return. cbn [value events fst snd].
  rewrite E2, !bind_return. cbn [value events fst snd].
  rewrite E3, !bind_return. cbn [value events fst snd].
  rewrite E4, !bind_return. cbn [value events fst snd].
  rewrite E5, !bind_return. cbn [value events fst snd app].
  rewrite app_nil_r. repeat (rewrite <- ?app_assoc; cbn [app]). reflexivity.
Qed.


(** The budget of a run that gets past the Extract node. *)
Lemma titled_call_budget w key u :
  RunSpec.untitled w u = false ->
  exists img rev text,
    generations (events (invoke (create_workflow w key) (initial u)))
    = img ++ [(false, T0_0)] ++ rev
    /\ (img = [] \/ img = [(true, T0_3)])
    /\ (rev = [] \/ rev = [(false, T0_0)])
    /\ index_queries (events (invoke (create_workflow w key) (initial u)))
       = [(text, 5)]
    /\ length (http_gets (events (invoke (create_workflow w key) (initial u))))
       <= 3.
Proof.
  intros Hu.
  destruct (invoke_stages w key u Hu)
    as (s1 & d & c & s4 & rr & l1 & l2 & text & prompt & l5
        & Hs1 & Hl1 & E2 & Hs4 & E5 & Hrun).
  rewrite Hrun. cbn [events snd].
  destruct (extract_article_log (scraper w) u) as (G1 & Q1 & H1).
  rewrite <- Hl1 in G1, Q1, H1.
  destruct (image_node_eq w key s1) as (d' & l2' & E2' & G2 & Q2 & H2).
  rewrite E2 in E2'. injection E2' as _ <-.
  assert (has_text s4) as T4.
  { subst s4 s1. pose proof (has_text_extracted w (initial u) eq_refl) as T1.
    destruct (generate w key MODEL_NAME prompt None T0_0); exact T1. }
  destruct (@review_node_eq w key s4 T4) as (rr' & l5' & E5' & H5).
  rewrite E5 in E5'. injection E5' as _ <-.
  exists (generations l2), (generations l5), text.
  cbn [generations index_queries http_gets].
  rewrite !generations_app, !index_queries_app, !http_gets_app.
  cbn [generations index_queries http_gets].
  rewrite !generations_app, !index_queries_app, !http_gets_app.
  cbn [generations index_queries http_gets].
  rewrite G1, Q1, Q2. cbn [app].
  assert (generations l5 = [] \/ generations l5 = [(false, T0_0)]
          /\ True) as G5
    by (destruct H5 as [->|[p ->]]; [now left|right; now split]).
  assert (index_queries l5 = [] /\ http_gets l5 = []) as [Q5 H5']
    by (destruct H5 as [->|[p ->]]; now split).
  rewrite Q5, H5', app_nil_r, length_app.
  split; [reflexivity|]. split; [exact G2|].
  split; [destruct G5 as [G5|[G5 _]]; auto|].
  split; [reflexivity|]. lia.
Qed.

(** X6.  Whatever the site, the index and the model answer, one run of
    the graph ends in one of two ways.  When the extractor finds a text
    and no title, the Extract node raises [TypeError] on the slice of
    the title and the run ends there: no query to the index and no
    generation call is made, and at most two URLs were requested.
    In every other run, also when the extraction has failed, the graph
    makes exactly one query to the index, for five results, and at
    most three generation calls: at most one with an image, at
    temperature 0.3, then the drafting call, then at most one review
    call, both without an image at temperature 0; it requests at most
    three URLs. *)
Theorem graph_call_budget w key u :
  let r := invoke (create_workflow w key) (initial u) in
  let log := events r in
  if RunSpec.untitled w u then
    value r = Raise RunSpec.TYPE_ERROR
    /\ generations log = [] /\ index_queries log = []
    /\ length (http_gets log) <= 2
  else
    (exists st, value r = Return st)
    /\ exists img rev text,
         generations log = img ++ [(false, T0_0)] ++ rev
         /\ (img = [] \/ img = [(true, T0_3)])
         /\ (rev = [] \/ rev = [(false, T0_0)])
         /\ index_queries log = [(text, 5)]
         /\ length (http_gets log) <= 3.
Proof.
  cbv zeta. destruct (RunSpec.untitled w u) eqn:Hu.
  - rewrite (@invoke_untitled w key u Hu). cbn [value events fst snd].
    destruct (extract_article_log (scraper w) u) as (G1 & Q1 & H1).
    cbn [generations index_queries http_gets]. now repeat split.
  - split; [|exact (@titled_call_budget w key u Hu)].
    destruct (invoke_stages w key u Hu)
      as (s1 & d & c & s4 & rr & l1 & l2 & text & prompt & l5
          & _ & _ & _ & _ & _ & Hrun).
    rewrite Hrun. eexists. reflexivity.
Qed.

(** The result of a run that gets past the Extract node. *)
Lemma titled_result_complete w key u :
  RunSpec.untitled w u = false ->
  exists r,
    value (analyze_article w key u) = Return r
    /\ forall st, r = Some st ->
        url st = u /\ error st = None
        /\ (exists a,
              value (Scraper.extract_article (scraper w) u) = Return (Some a)
              /\ article st = Some a /\ truthy (Scraper.text a) = true)
        /\ similar_cases st <> None /\ violation_count st <> None
        /\ decision st <> None /\ review_result st <> None.
Proof.
  intros Hu.
  destruct (invoke_stages w key u Hu)
    as (s1 & d & c & s4 & rr & l1 & l2 & text & prompt & l5
        & Hs1 & Hl1 & E2 & Hs4 & E5 & Hrun).
  unfold analyze_article. rewrite Hrun, bind_return.
  cbn [error set_review_result].
  destruct (truthy (error s4)) eqn:Eerr; unfold ret; cbn [value fst].
  - exists None. split; [reflexivity|]. discriminate.
  - eexists. split; [reflexivity|]. intros st [= <-].
    cbn [url error article similar_cases violation_count decision
         review_result set_review_result].
    subst s4.
    destruct (generate w key MODEL_NAME prompt None T0_0) as [dec|e];
      cbn [error set_violation_count set_decision set_error set_similar_cases
           set_image_desc] in Eerr.
    2:{ unfold DECIDE_FAILED in Eerr. simpl in Eerr. discriminate. }
    cbn [url error article similar_cases violation_count decision
         set_violation_count set_decision set_similar_cases set_image_desc].
    subst s1.
    destruct (value (Scraper.extract_article (scraper w) u)) as [[a|]|e] eqn:Ea;
      try (simpl in Eerr; discriminate).
    destruct (truthy (Scraper.text a)) eqn:Et; [|simpl in Eerr; discriminate].
    cbn [url error article set_article initial].
    repeat split; try discriminate. exists a. now repeat split.
Qed.

(** X7.  [analyze_article] raises in one case only: the extractor has
    found a text and no title, and the [TypeError] of the Extract node
    leaves the function.  In every other case it returns, and a result
    other than [None] is a state without [error] that holds the article
    extracted from the URL, with a title and with a text that is not
    empty, together with the list of cases, the count of violations,
    the draft and the review result: every key that is read from the
    result afterwards is set. *)
Theorem analyze_article_result_complete w key u :
  match value (analyze_article w key u) with
  | Raise e => e = RunSpec.TYPE_ERROR /\ RunSpec.untitled w u = true
  | Return None => RunSpec.untitled w u = false
  | Return (Some st) =>
      RunSpec.untitled w u = false
      /\ url st = u /\ error st = None
      /\ (exists a,
            value (Scraper.extract_article (scraper w) u) = Return (Some a)
            /\ article st = Some a /\ truthy (Scraper.text a) = true
            /\ Scraper.title a <> None)
      /\ similar_cases st <> None /\ violation_count st <> None
      /\ decision st <> None /\ review_result st <> None
  end.
Proof.
  destruct (RunSpec.untitled w u) eqn:Hu.
  - unfold analyze_article. rewrite (@invoke_untitled w key u Hu).
    cbn [bind value fst]. now split.
  - destruct (@titled_result_complete w key u Hu) as (r & -> & Hr).
    destruct r as [st|]; [|reflexivity].
    destruct (Hr st eq_refl) as (H1 & H2 & (a & Ha & Hst & Ht) & H3).
    split; [reflexivity|]. split; [exact H1|]. split; [exact H2|].
    split; [|exact H3].
    exists a. repeat split; try assumption.
    intros Hn. unfold RunSpec.untitled in Hu. rewrite Ha, Ht, Hn in Hu.
    discriminate.
Qed.

End GraphRunProps.

Module DraftFailureProps.
Import Py Effects Prompts Spec Pipeline Trace Scenarios RunProps GraphRunProps.

(** X8.  An error of the Decide stage does not stop the graph either.
    In a run that gets past the Extract node (the extractor did not
    find a text without a title, on which the node raises), when
    every drafting call raises, [decide_node] records the error
    with an empty draft, and the Review node still runs: the empty
    draft has no marker, so a second text call is made for it; its
    failure leaves a review result that is not passed, with the empty
    draft as final decision.  [analyze_article] returns [None]. *)
Theorem failed_draft_is_still_reviewed w key u e :
  RunSpec.untitled w u = false ->
  (forall prompt, generate w key MODEL_NAME prompt None T0_0 = Raise e) ->
  value (analyze_article w key u) = Return None
  /\ exists st img,
       value (invoke (create_workflow w key) (initial u)) = Return st
       /\ generations (events (invoke (create_workflow w key) (initial u)))
          = img ++ [(false, T0_0); (false, T0_0)]
       /\ error st = Some (DECIDE_FAILED ++ exn_str e)
       /\ decision st = Some []
       /\ review_result st
          = Some (mkReview false (REVIEW_FAILED ++ exn_str e) []).
Proof.
  intros Hu Hg.
  destruct (invoke_stages w key u Hu)
    as (s1 & d & c & s4 & rr & l1 & l2 & text & prompt & l5
        & Hs1 & Hl1 & E2 & Hs4 & E5 & Hrun).
  rewrite Hg in Hs4.
  assert (has_text s4) as T4.
  { subst s4 s1. exact (has_text_extracted w (initial u) eq_refl). }
  destruct T4 as [body Hb].
  assert (review_node w key s4
          = (Return (set_review_result
                       (mkReview false (REVIEW_FAILED ++ exn_str e) []) s4),
             [Generate MODEL_NAME
                (REVIEW_HEAD ++ fmt_opt (get_title (article s4)) ++ REVIEW_BODY
                 ++ slice_to 2000 body ++ REVIEW_DRAFT ++ [] ++ REVIEW_REGULATION
                 ++ Regulation.REGULATION ++ REVIEW_MANDATE) None T0_0])) as Hr.
  { unfold review_node.
    assert (decision s4 = Some []) as -> by (subst s4; reflexivity).
    cbn [get_str].
    replace (says_no_violation []) with false by reflexivity.
    unfold review_prompt. rewrite Hb.
    unfold slice_opt, bind, call_gemini, call, ret, try_except.
    cbn [fst snd]. rewrite Hg. reflexivity. }
  rewrite Hr in E5. injection E5 as <- <-.
  split.
  - unfold analyze_article. rewrite Hrun, bind_return.
    cbn [error set_review_result]. subst s4. reflexivity.
  - exists (set_review_result
              (mkReview false (REVIEW_FAILED ++ exn_str e) []) s4),
           (generations l2).
    rewrite Hrun. cbn [value events fst snd].
    destruct (extract_article_log (scraper w) u) as (G1 & _).
    rewrite <- Hl1 in G1.
    split; [reflexivity|]. split.
    + cbn [generations]. rewrite generations_app, G1.
      cbn [generations app]. rewrite generations_app. reflexivity.
    + subst s4. repeat split.
Qed.

Lemma failed_draft_is_still_reviewed_witness :
  let w := world (site PLAIN_ARTICLE) [] never in
  value (analyze_article w KEY URL) = Return None
  /\ exists st img,
       value (invoke (create_workflow w KEY) (initial URL)) = Return st
       /\ generations (events (invoke (create_workflow w KEY) (initial URL)))
          = img ++ [(false, T0_0); (false, T0_0)]
       /\ error st = Some (DECIDE_FAILED ++ exn_str QUOTA)
       /\ decision st = Some []
       /\ review_result st
          = Some (mkReview false (REVIEW_FAILED ++ exn_str QUOTA) []).
Proof.
  intros w. apply (@failed_draft_is_still_reviewed w KEY URL QUOTA).
  - reflexivity.
  - reflexivity.
Defined.

End DraftFailureProps.

Module ImageStageProps.
Import Py Effects Prompts Spec Pipeline Trace Scenarios RunProps.

(** X9.  The Image node never raises and never sets [error]: it sets
    [image_desc] and leaves every other key as it was.  Without an
    image URL it contacts nothing.  The description is set only when
    the download, the decoding and the generation call all succeeded,
    and it is then the answer of that call to the fixed prompt with the
    normalised picture at temperature 0.3; any failure leaves [None]. *)
Theorem image_failure_is_contained w key st :
  exists d l,
    image_node w key st = (Return (set_image_desc d st), l)
    /\ (truthy (get_image_url (article st)) = false -> d = None /\ l = [])
    /\ (forall desc, d = Some desc ->
        exists content img,
          image_get w (get_str (get_image_url (article st))) = Return content
          /\ image_open w content = Return img
          /\ generate w key MODEL_NAME IMAGE_PROMPT
               (Some (encode (normalize img))) T0_3 = Return desc)
    /\ length (generations l) <= 1 /\ length (http_gets l) <= 1.
Proof.
  unfold image_node, call_gemini, call, ret.
  destruct (truthy (get_image_url (article st))) eqn:Eu; cbn [negb].
  2:{ exists None, []. split; [reflexivity|]. split; [now split|].
      split; [discriminate|]. split; apply Nat.le_0_l. }
  unfold bind, try_except.
  destruct (image_get w _) as [content|e] eqn:Eg; cbn [fst snd].
  2:{ eexists None, _. split; [reflexivity|]. split; [discriminate|].
      split; [discriminate|]. split; cbn; lia. }
  destruct (image_open w content) as [img|e] eqn:Eo; cbn [fst snd].
  2:{ eexists None, _. split; [reflexivity|]. split; [discriminate|].
      split; [discriminate|]. split; cbn; lia. }
  destruct (generate w key _ _ _ _) as [desc|e] eqn:Ed; cbn [fst snd].
  - eexists (Some desc), _. split; [reflexivity|]. split; [discriminate|].
    split; [|split; cbn; lia].
    intros desc' [= <-]. exists content, img. now repeat split.
  - eexists None, _. split; [reflexivity|]. split; [discriminate|].
    split; [discriminate|]. split; cbn; lia.
Qed.

End ImageStageProps.

(* ================================================================== *)
(** * The Search stage of both pipelines                            *)
(* ================================================================== *)

Module SearchProps.
Import Py Effects Prompts Spec Pipeline Trace SearchSpec Scenarios.

Lemma collect_cases_spec : forall results i cases,
  collect_cases i results cases =
  match all_reasons results with
  | Some reasons => Return (cases ++ number_from i reasons)
  | None => Raise (Error (u "'reason'"))
  end.
Proof.
  induction results as [|[r|] rest IH]; intros i cases; cbn [collect_cases all_reasons].
  - now rewrite app_nil_r.
  - rewrite IH. destruct (all_reasons rest) as [rs|]; [|reflexivity].
    cbn [number_from]. now rewrite <- app_assoc.
  - reflexivity.
Qed.

Lemma scan_cases_leading : forall results i cases v nv,
  Streamlit.scan_cases i results cases (v, nv) =
  (match all_reasons results with
   | Some reasons => Return (cases ++ number_from i reasons)
   | None => Raise (Error (u "'reason'"))
   end,
   (v + fst (spec_tally (leading_reasons results)),
    nv + snd (spec_tally (leading_reasons results)))).
Proof.
  induction results as [|[r|] rest IH]; intros i cases v nv;
    cbn [Streamlit.scan_cases all_reasons leading_reasons].
  - cbn. now rewrite app_nil_r, !Nat.add_0_r.
  - rewrite TallyProps.count_line_spec, IH, TallyProps.spec_tally_cons.
    cbn [fst snd]. f_equal.
    + destruct (all_reasons rest) as [rs|]; [|reflexivity].
      cbn [number_from]. now rewrite <- app_assoc.
    + f_equal; lia.
  - cbn. now rewrite !Nat.add_0_r.
Qed.

(** X10.  The Search node asks the index once, for five results, with
    the title, a space and the first 2000 characters of the body.  The
    case list it stores is all or nothing: the reasons of all results,
    numbered from 1 and one per line, when the query succeeds and every
    result has a reason; the empty string when the query fails or any
    result has no reason, whatever was numbered before.  The node never
    raises and sets no other key. *)
Theorem search_all_or_nothing w st body :
  get_text (article st) = Some body ->
  search_node w st =
  (Return (set_similar_cases
             (case_list (query_index w
                (article_text (get_title (article st)) body) 5)) st),
   [IndexQuery (article_text (get_title (article st)) body) 5]).
Proof.
  intros Ht. unfold search_node.
  rewrite (@GraphProps.article_line_returns _ _ Ht).
  unfold bind, call, ret, try_except, article_text, case_list.
  destruct (query_index w _ 5) as [results|e]; cbn [fst snd app]; [|reflexivity].
  rewrite collect_cases_spec.
  destruct (all_reasons results); reflexivity.
Qed.

Lemma search_all_or_nothing_witness :
  let w := world (site PLAIN_ARTICLE)
             [Some NO_VIOLATION; None; Some NO_VIOLATION] (always DRAFT) in
  search_node w extracted =
  (Return (set_similar_cases
             (case_list (query_index w
                (article_text (get_title (article extracted)) BODY) 5))
             extracted),
   [IndexQuery (article_text (get_title (article extracted)) BODY) 5]).
Proof.
  intros w. apply (@search_all_or_nothing w extracted BODY). reflexivity.
Defined.

(** A result without reason behind one with: nothing is kept. *)
Example numbered_case_is_dropped :
  let w := world (site PLAIN_ARTICLE)
             [Some NO_VIOLATION; None; Some NO_VIOLATION] (always DRAFT) in
  value (search_node w extracted) = Return (set_similar_cases [] extracted).
Proof. vm_compute. reflexivity. Qed.

(** X11.  Step 3 of the Streamlit pipeline builds the same all-or-nothing
    case list, but its two counters are counted while the results are
    read: they cover the results before the first one without a reason,
    also when the list itself is dropped.  Without a loaded collection
    the step asks nothing and returns an empty list and zero counters;
    it never raises. *)
Theorem streamlit_search_counts w a body :
  Scraper.text a = Some body ->
  Streamlit.search_step w a =
  if chroma_loaded w then
    (Return (case_list (query_index w (article_text (Scraper.title a) body) 5),
             match query_index w (article_text (Scraper.title a) body) 5 with
             | Return results => spec_tally (leading_reasons results)
             | Raise _ => (0, 0)
             end),
     [IndexQuery (article_text (Scraper.title a) body) 5])
  else (Return ([], (0, 0)), []).
Proof.
  intros Ht. unfold Streamlit.search_step.
  destruct (chroma_loaded w); [|reflexivity].
  rewrite (@GraphProps.article_line_returns (Some a) body Ht).
  unfold bind, call, ret, try_except, article_text, case_list.
  cbn [get_title].
  destruct (query_index w _ 5) as [results|e]; cbn [fst snd app]; [|reflexivity].
  rewrite scan_cases_leading. cbn [Nat.add].
  destruct (all_reasons results); cbn [fst snd app];
    destruct (spec_tally (leading_reasons results)); reflexivity.
Qed.

Lemma streamlit_search_counts_witness :
  let w := world (site PLAIN_ARTICLE) FOUR_AND_NONE (always DRAFT) in
  Streamlit.search_step w PLAIN_ARTICLE =
  if chroma_loaded w then
    (Return (case_list (query_index w
               (article_text (Scraper.title PLAIN_ARTICLE) BODY) 5),
             match query_index w
               (article_text (Scraper.title PLAIN_ARTICLE) BODY) 5 with
             | Return results => spec_tally (leading_reasons results)
             | Raise _ => (0, 0)
             end),
     [IndexQuery (article_text (Scraper.title PLAIN_ARTICLE) BODY) 5])
  else (Return ([], (0, 0)), []).
Proof.
  intros w. apply (@streamlit_search_counts w PLAIN_ARTICLE BODY). reflexivity.
Defined.

(** Four results without violation and a fifth without reason: the
    list is dropped, the counter stays at four. *)
Example counters_without_list :
  value (Streamlit.search_step
           (world (site PLAIN_ARTICLE) FOUR_AND_NONE (always DRAFT))
           PLAIN_ARTICLE)
  = Return ([], (0, 4)).
Proof. vm_compute. reflexivity. Qed.

End SearchProps.

(* ================================================================== *)
(** * The two pipelines side by side                                *)
(* ================================================================== *)

Module AgreeProps.
Import Py Effects Prompts Spec Pipeline Trace SearchSpec RunProps Scenarios.
Local Open Scope eff_scope.

Lemma value_bind A B (m : M A) (f : A -> M B) :
  value (bind m f) =
  match value m with
  | Return a => value (f a)
  | Raise e => Raise e
  end.
Proof. destruct m as [[a|e] l]; simpl; [|reflexivity]. now destruct (f a). Qed.

Lemma all_reasons_leading results reasons :
  all_reasons results = Some reasons -> leading_reasons results = reasons.
Proof.
  revert reasons. induction results as [|[r|] rest IH]; intros reasons H;
    cbn [all_reasons leading_reasons] in *.
  - now injection H as <-.
  - destruct (all_reasons rest) as [rs|]; [|discriminate].
    injection H as <-. now rewrite (IH rs eq_refl).
  - discriminate.
Qed.

Lemma all_reasons_in results reasons r :
  all_reasons results = Some reasons -> In r reasons -> In (Some r) results.
Proof.
  revert reasons. induction results as [|[x|] rest IH]; intros reasons H Hin;
    cbn [all_reasons] in H.
  - injection H as <-. destruct Hin.
  - destruct (all_reasons rest) as [rs|]; [|discriminate].
    injection H as <-. destruct Hin as [<-|Hin]; [now left|right; eauto].
  - discriminate.
Qed.

(** The prompt of the Decide stage reads the counter only with a case
    list. *)
Lemma decide_prompt_counter a d c n1 n2 :
  (nonempty c = true -> n1 = n2) ->
  decide_prompt a d c n1 = decide_prompt a d c n2.
Proof.
  intros H. unfold decide_prompt.
  destruct (nonempty c); [now rewrite H|reflexivity].
Qed.

Section Agree.
Variable w : World.
Variable key : str.
Hypothesis same_model : forall p i t,
  generate w key Streamlit.MODEL_NAME p i t = generate w key MODEL_NAME p i t.

Lemma image_agree st a :
  article st = Some a ->
  exists d,
    value (image_node w key st) = Return (set_image_desc d st)
    /\ value (Streamlit.image_step w key a) = Return d.
Proof.
  intros Ha. unfold image_node, Streamlit.image_step.
  rewrite Ha. cbn [get_image_url].
  destruct (truthy (Scraper.image_url a)); cbn [negb].
  2:{ exists None. split; reflexivity. }
  unfold call_gemini, Streamlit.call_gemini, call, ret, bind, try_except.
  destruct (image_get w _) as [content|e]; cbn [fst snd value].
  2:{ exists None. split; reflexivity. }
  destruct (image_open w content) as [img|e]; cbn [fst snd value].
  2:{ exists None. split; reflexivity. }
  rewrite same_model.
  destruct (generate w key _ _ _ _) as [desc|e]; cbn [fst snd value].
  - exists (Some desc). split; reflexivity.
  - exists None. split; reflexivity.
Qed.

Lemma decide_agree st a nv body :
  article st = Some a ->
  Scraper.text a = Some body ->
  (nonempty (get_str (similar_cases st)) = true ->
   nv = snd (count_cases (get_str (similar_cases st)))) ->
  match value (Streamlit.decide_step w key a (image_desc st)
                 (get_str (similar_cases st)) nv) with
  | Return (Some dec) =>
      value (decide_node w key st) =
      Return (set_violation_count
                (fst (count_cases (get_str (similar_cases st))))
                (set_decision dec st))
  | Return None =>
      exists e,
        value (decide_node w key st) =
        Return (set_violation_count
                  (fst (count_cases (get_str (similar_cases st))))
                  (set_decision []
                     (set_error (DECIDE_FAILED ++ exn_str e) st)))
  | Raise _ => False
  end.
Proof.
  intros Ha Ht Hnv.
  assert (has_text st) as T by (exists body; now rewrite Ha).
  destruct (decide_node_eq w key T) as (prompt & Hp & Hd).
  rewrite Hd. cbn [value fst].
  unfold Streamlit.decide_step.
  rewrite (@decide_prompt_counter (Some a) (image_desc st)
             (get_str (similar_cases st)) nv
             (snd (count_cases (get_str (similar_cases st)))) Hnv).
  rewrite <- Ha, Hp.
  unfold Streamlit.call_gemini, call, ret, bind, try_except.
  rewrite same_model.
  destruct (generate w key MODEL_NAME prompt None T0_0) as [dec|e];
    cbn [fst snd value]; [reflexivity|].
  now exists e.
Qed.

Lemma review_agree st a dec body :
  article st = Some a ->
  Scraper.text a = Some body ->
  decision st = Some dec ->
  exists rr,
    value (review_node w key st) = Return (set_review_result rr st)
    /\ value (Streamlit.review_step w key a dec) = Return (final_decision rr).
Proof.
  intros Ha Ht Hd. unfold review_node, Streamlit.review_step.
  rewrite Hd. cbn [get_str].
  destruct (says_no_violation dec).
  { eexists. split; reflexivity. }
  rewrite Ha. unfold review_prompt. cbn [get_text get_title]. rewrite Ht.
  unfold slice_opt, Streamlit.call_gemini, call_gemini, call, ret, bind, try_except.
  cbn [fst snd app]. rewrite same_model.
  destruct (generate w key MODEL_NAME _ None T0_0) as [r|e];
    cbn [fst snd value]; eexists; split; reflexivity.
Qed.


Hypothesis loaded : chroma_loaded w = true.
Hypothesis single_lines : forall text results r,
  query_index w text 5 = Return results -> In (Some r) results -> ~ In NL r.

(** The counters of both pipelines agree when there is a case list. *)
Lemma counters_agree text :
  nonempty (case_list (query_index w text 5)) = true ->
  match query_index w text 5 with
  | Return results => spec_tally (leading_reasons results)
  | Raise _ => (0, 0)
  end = count_cases (case_list (query_index w text 5)).
Proof.
  unfold case_list. intros Hne.
  destruct (query_index w text 5) as [results|e] eqn:Eq; [|discriminate].
  destruct (all_reasons results) as [reasons|] eqn:Er; [|discriminate].
  rewrite (all_reasons_leading _ Er).
  symmetry. apply TallyProps.decide_tally_single_lines.
  apply Forall_forall. intros r Hin.
  eapply single_lines; [exact Eq|]. now apply all_reasons_in with (reasons := reasons).
Qed.

Lemma search_agree st a body :
  article st = Some a ->
  Scraper.text a = Some body ->
  exists c v nv,
    value (search_node w st) = Return (set_similar_cases c st)
    /\ value (Streamlit.search_step w a) = Return (c, (v, nv))
    /\ (nonempty c = true -> (v, nv) = count_cases c).
Proof.
  intros Ha Hb.
  unfold search_node, Streamlit.search_step. rewrite loaded, Ha.
  rewrite (@GraphProps.article_line_returns (Some a) body Hb).
  unfold bind, call, ret, try_except. cbn [fst snd app get_title].
  pose proof (@counters_agree (fmt_opt (Scraper.title a) ++ u " " ++ slice_to 2000 body))
    as Hc.
  unfold case_list in Hc.
  destruct (query_index w _ 5) as [results|e]; cbn [fst snd app value].
  2:{ exists [], 0, 0. split; [reflexivity|]. split; [reflexivity|]. discriminate. }
  rewrite SearchProps.collect_cases_spec, SearchProps.scan_cases_leading.
  cbn [Nat.add].
  destruct (all_reasons results) as [reasons|]; cbn [fst snd app value].
  - destruct (spec_tally (leading_reasons results)) as [v nv].
    exists (join [NL] (number_from 0 reasons)), v, nv.
    split; [reflexivity|]. split; [reflexivity|]. exact Hc.
  - destruct (spec_tally (leading_reasons results)) as [v nv].
    exists [], v, nv. split; [reflexivity|]. split; [reflexivity|]. discriminate.
Qed.

Lemma streamlit_extract_value u :
  value (Streamlit.extract_step w u) =
  Return match value (Scraper.extract_article (scraper w) u) with
         | Return (Some a) =>
             if truthy (Scraper.text a) then
               match Scraper.title a with
               | Some _ => Some a
               | None => None
               end
             else None
         | _ => None
         end.
Proof.
  unfold Streamlit.extract_step.
  destruct (ScraperProps.extract_article_never_raises (scraper w) u) as [r Hr].
  destruct (Scraper.extract_article (scraper w) u) as [v l].
  simpl in Hr. subst v. unfold bind, ret, try_except. cbn [value fst].
  destruct r as [a|];
    [destruct (truthy (Scraper.text a)); [destruct (Scraper.title a)|]|];
    reflexivity.
Qed.

(** Step 1 when the title can be shown. *)
Lemma streamlit_extract_titled u :
  RunSpec.untitled w u = false ->
  value (Streamlit.extract_step w u) =
  Return match value (Scraper.extract_article (scraper w) u) with
         | Return (Some a) => if truthy (Scraper.text a) then Some a else None
         | _ => None
         end.
Proof.
  intros Hu. rewrite streamlit_extract_value. unfold RunSpec.untitled in Hu.
  destruct (value (Scraper.extract_article (scraper w) u)) as [[a|]|e];
    try reflexivity.
  destruct (truthy (Scraper.text a)); [|reflexivity].
  destruct (Scraper.title a); [reflexivity|discriminate].
Qed.

(** Step 1 gives up on an article without a title. *)
Lemma streamlit_extract_untitled u :
  RunSpec.untitled w u = true ->
  value (Streamlit.extract_step w u) = Return None.
Proof.
  intros Hu. rewrite streamlit_extract_value. unfold RunSpec.untitled in Hu.
  destruct (value (Scraper.extract_article (scraper w) u)) as [[a|]|e];
    try discriminate.
  destruct (truthy (Scraper.text a)); [|discriminate].
  destruct (Scraper.title a); [discriminate|reflexivity].
Qed.

End Agree.

Lemma truthy_some x : truthy x = true -> exists s, x = Some s.
Proof. destruct x as [s|]; [eauto|discriminate]. Qed.

(** X12.  The two pipelines are the same analysis, but for the article
    without a title.  In a world whose model answers do not depend on
    which of the two model names is asked, whose collection is loaded
    and whose reasons have no line break: when the extractor finds a
    text and no title, the LangGraph pipeline raises [TypeError] and
    the Streamlit pipeline returns [None]; in every other case the two
    either both give up (extraction without text, or a failed drafting
    call) or both return the same article, image description, case
    list and final decision, and with a case list the same count of
    violations. *)
Theorem pipelines_agree w key u :
  (forall p i t,
     generate w key Streamlit.MODEL_NAME p i t
     = generate w key MODEL_NAME p i t) ->
  chroma_loaded w = true ->
  (forall text results r,
     query_index w text 5 = Return results -> In (Some r) results ->
     ~ In NL r) ->
  match value (analyze_article w key u),
        value (Streamlit.analyze_article_streamlit w u key) with
  | Return (Some st), Return (Some an) =>
      RunSpec.untitled w u = false
      /\ article st = Some (Streamlit.article an)
      /\ image_desc st = Streamlit.image_desc an
      /\ similar_cases st = Some (Streamlit.similar_cases an)
      /\ option_map final_decision (review_result st)
         = Some (Streamlit.final_decision an)
      /\ (Streamlit.similar_cases an <> [] ->
          violation_count st = Some (Streamlit.violation_count an))
  | Return None, Return None => RunSpec.untitled w u = false
  | Raise e, Return None =>
      e = RunSpec.TYPE_ERROR /\ RunSpec.untitled w u = true
  | _, _ => False
  end.
Proof.
  intros Hm Hl Hs.
  destruct (RunSpec.untitled w u) eqn:Hu.
  { unfold analyze_article, Streamlit.analyze_article_streamlit.
    rewrite (@invoke_untitled w key u Hu).
    rewrite (@value_bind _ _ (Streamlit.extract_step w u)).
    rewrite (@streamlit_extract_untitled w u Hu).
    cbn [bind value fst ret]. now split. }
  unfold analyze_article, Streamlit.analyze_article_streamlit.
  rewrite invoke_steps. unfold emit.
  repeat (rewrite value_bind; cbn [value fst]).
  rewrite (@streamlit_extract_titled w u Hu),
    (@extract_node_titled w (initial u) Hu).
  cbn [value fst url initial].
  assert (Hfail : forall s1,
    truthy (error s1) = true -> has_text s1 ->
    match
      match value ((Return tt, [NodeRun "image"]);;;
                   s2 <- image_node w key s1;;
                   (Return tt, [NodeRun "search"]);;;
                   s3 <- search_node w s2;;
                   (Return tt, [NodeRun "decide"]);;;
                   s4 <- decide_node w key s3;;
                   (Return tt, [NodeRun "review"]);;;
                   s5 <- review_node w key s4;; ret s5) with
      | Return a0 =>
          value (if truthy (error a0) then ret None else ret (Some a0))
      | Raise e => Raise e
      end
    with
    | Return None => True
    | _ => False
    end).
  { intros s1 He T1.
    destruct (image_node_eq w key s1) as (d & l2 & E2 & _).
    destruct (@search_node_eq w (set_image_desc d s1) T1) as (c & text & E3).
    destruct (@decide_node_eq w key (set_similar_cases c (set_image_desc d s1)) T1)
      as (prompt & _ & E4).
    repeat (rewrite value_bind; cbn [value fst]).
    rewrite E2. cbn [value fst].
    repeat (rewrite value_bind; cbn [value fst]).
    rewrite E3. cbn [value fst].
    repeat (rewrite value_bind; cbn [value fst]).
    rewrite E4. cbn [value fst].
    set (s4 := match generate w key MODEL_NAME prompt None T0_0 with
               | Return decision => _
               | Raise e => _
               end).
    assert (has_text s4) as T4
      by (subst s4; destruct (generate w key MODEL_NAME prompt None T0_0); exact T1).
    assert (truthy (error s4) = true) as He4.
    { subst s4. destruct (generate w key MODEL_NAME prompt None T0_0); [exact He|].
      reflexivity. }
    destruct (@review_node_eq w key s4 T4) as (rr & l & Hr & _).
    repeat (rewrite value_bind; cbn [value fst]).
    rewrite Hr. cbn [value fst ret error set_review_result].
    rewrite He4. exact I. }
  pose proof (has_text_extracted w (initial u) eq_refl) as T1.
  cbn [url initial] in T1.
  destruct (value (Scraper.extract_article (scraper w) u)) as [[a|]|e] eqn:Ea.
  - destruct (truthy (Scraper.text a)) eqn:Et.
    + destruct (truthy_some _ Et) as [body Hb].
      set (s1 := set_article a (initial u)).
      destruct (@image_agree w key Hm s1 a eq_refl) as (d & HdL & HdS).
      repeat (rewrite value_bind; cbn [value fst]).
      rewrite HdL, HdS.
      set (s2 := set_image_desc d s1).
      destruct (@search_agree w Hl Hs s2 a body eq_refl Hb)
        as (c & vS & nvS & HsL & HsS & Hc).
      repeat (rewrite value_bind; cbn [value fst]).
      rewrite HsL, HsS.
      set (s3 := set_similar_cases c s2).
      repeat (rewrite value_bind; cbn [value fst]).
      pose proof (@decide_agree w key Hm s3 a nvS body eq_refl Hb) as Hd.
      cbn [similar_cases image_desc s3 s2 set_similar_cases set_image_desc get_str] in Hd.
      specialize (Hd (fun H => f_equal snd (Hc H))).
      destruct (value (Streamlit.decide_step w key a d c nvS)) as [[dec|]|e];
        [| |destruct Hd].
      * rewrite Hd.
        set (s4 := set_violation_count (fst (count_cases c)) (set_decision dec s3)).
        destruct (@review_agree w key Hm s4 a dec body eq_refl Hb eq_refl)
          as (rr & HrL & HrS).
        repeat (rewrite value_bind; cbn [value fst]).
        rewrite HrL, HrS. cbn [value fst ret].
        cbn [error set_review_result s4 s3 s2 s1 set_violation_count set_decision
             set_similar_cases set_image_desc set_article initial truthy].
        cbn [value fst article image_desc similar_cases review_result
             violation_count Streamlit.article Streamlit.image_desc
             Streamlit.similar_cases Streamlit.final_decision
             Streamlit.violation_count option_map].
        repeat split. intros Hne.
        assert (nonempty c = true) as Hn by (destruct c; [congruence|reflexivity]).
        subst s4. cbn [violation_count set_review_result set_violation_count].
        now rewrite <- (Hc Hn).
      * destruct Hd as [e Hd]. rewrite Hd.
        set (s4 := set_violation_count _ _).
        assert (has_text s4) as T4 by (exists body; exact Hb).
        destruct (@review_node_eq w key s4 T4) as (rr & l & Hr & _).
        repeat (rewrite value_bind; cbn [value fst]).
        rewrite Hr. cbn [value fst ret].
        cbn [error set_review_result s4 set_violation_count set_decision set_error].
        unfold DECIDE_FAILED. cbn [app truthy value fst]. reflexivity.
    + specialize (Hfail (set_error EXTRACT_FAILED (initial u)) eq_refl T1).
      revert Hfail. cbn [value fst ret].
      match goal with |- match ?X with _ => _ end -> _ =>
        destruct X as [[st|]|e'] end; intros H; try destruct H; reflexivity.
  - specialize (Hfail (set_error EXTRACT_FAILED (initial u)) eq_refl T1).
    revert Hfail. cbn [value fst ret].
    match goal with |- match ?X with _ => _ end -> _ =>
      destruct X as [[st|]|e'] end; intros H; try destruct H; reflexivity.
  - specialize (Hfail (set_error EXTRACT_FAILED (initial u)) eq_refl T1).
    revert Hfail. cbn [value fst ret].
    match goal with |- match ?X with _ => _ end -> _ =>
      destruct X as [[st|]|e'] end; intros H; try destruct H; reflexivity.
Qed.

Lemma pipelines_agree_witness :
  let w := world (site PLAIN_ARTICLE)
             [Some NO_VIOLATION; Some HEDGED; Some DRAFT] (always DRAFT) in
  match value (analyze_article w KEY URL),
        value (Streamlit.analyze_article_streamlit w URL KEY) with
  | Return (Some st), Return (Some an) =>
      RunSpec.untitled w URL = false
      /\ article st = Some (Streamlit.article an)
      /\ image_desc st = Streamlit.image_desc an
      /\ similar_cases st = Some (Streamlit.similar_cases an)
      /\ option_map final_decision (review_result st)
         = Some (Streamlit.final_decision an)
      /\ (Streamlit.similar_cases an <> [] ->
          violation_count st = Some (Streamlit.violation_count an))
  | Return None, Return None => RunSpec.untitled w URL = false
  | Raise e, Return None =>
      e = RunSpec.TYPE_ERROR /\ RunSpec.untitled w URL = true
  | _, _ => False
  end.
Proof.
  intros w. apply (@pipelines_agree w KEY URL).
  - reflexivity.
  - reflexivity.
  - intros text results r Hq H. injection Hq as <-.
    assert (existsb (N.eqb NL) r = false) as Hn.
    { destruct H as [H|[H|[H|[]]]]; injection H as <-; vm_compute; reflexivity. }
    intros Hin.
    assert (existsb (N.eqb NL) r = true) as Ht
      by (apply existsb_exists; exists NL; split; [exact Hin|apply N.eqb_refl]).
    congruence.
Defined.

(** An article of which only the text was found: the graph raises in
    its first node, the Streamlit pipeline returns [None], and neither
    asks the index or the model for anything. *)
Example untitled_article_parts_the_pipelines :
  let w := world (site RunSpec.UNTITLED_ARTICLE) [] (always DRAFT) in
  RunSpec.untitled w URL = true
  /\ value (analyze_article w KEY URL) = Raise RunSpec.TYPE_ERROR
  /\ nodes_run (events (analyze_article w KEY URL)) = ["extract"%string]
  /\ value (Streamlit.analyze_article_streamlit w URL KEY) = Return None
  /\ prompts (events (analyze_article w KEY URL)) = []
  /\ prompts (events (Streamlit.analyze_article_streamlit w URL KEY)) = [].
Proof. cbv zeta. repeat split; vm_compute; reflexivity. Qed.

End AgreeProps.

Module StreamlitRunProps.
Import Py Effects Prompts Spec Pipeline Trace Scenarios RunProps SearchSpec AgreeProps.
Local Open Scope eff_scope.

Lemma extract_step_eq w u :
  Streamlit.extract_step w u =
  (Return match value (Scraper.extract_article (scraper w) u) with
          | Return (Some a) =>
              if truthy (Scraper.text a) then
                match Scraper.title a with
                | Some _ => Some a
                | None => None
                end
              else None
          | _ => None
          end,
   events (Scraper.extract_article (scraper w) u)).
Proof.
  unfold Streamlit.extract_step.
  destruct (ScraperProps.extract_article_never_raises (scraper w) u) as [r Hr].
  destruct (Scraper.extract_article (scraper w) u) as [v l].
  simpl in Hr. subst v. unfold bind, ret, try_except. cbn [value events fst snd].
  destruct r as [a|];
    [destruct (truthy (Scraper.text a)); [destruct (Scraper.title a)|]|];
    cbn [fst snd slice_opt]; now rewrite ?app_nil_r.
Qed.

Lemma image_step_returns w key a :
  exists d, value (Streamlit.image_step w key a) = Return d.
Proof.
  unfold Streamlit.image_step, Streamlit.call_gemini, call, ret, bind, try_except.
  destruct (truthy (Scraper.image_url a)); [|eexists; reflexivity].
  destruct (image_get w _) as [content|e]; cbn [fst snd value]; [|eexists; reflexivity].
  destruct (image_open w content) as [img|e]; cbn [fst snd value]; [|eexists; reflexivity].
  destruct (generate w key _ _ _ _) as [desc|e]; cbn [fst snd value]; eexists; reflexivity.
Qed.

Lemma search_step_returns w a body :
  Scraper.text a = Some body ->
  exists c v nv, value (Streamlit.search_step w a) = Return (c, (v, nv)).
Proof.
  intros Hb. unfold Streamlit.search_step.
  destruct (chroma_loaded w); [|do 3 eexists; reflexivity].
  rewrite (@GraphProps.article_line_returns (Some a) body Hb).
  unfold bind, call, ret, try_except. cbn [fst snd app].
  destruct (query_index w _ 5) as [results|e]; cbn [fst snd value];
    [|do 3 eexists; reflexivity].
  destruct (Streamlit.scan_cases 0 results [] (0, 0)) as [[cases|e] [v nv]];
    cbn [fst snd value]; do 3 eexists; reflexivity.
Qed.

Lemma decide_step_returns w key a d c nv body :
  Scraper.text a = Some body ->
  exists r, value (Streamlit.decide_step w key a d c nv) = Return r.
Proof.
  intros Hb. unfold Streamlit.decide_step.
  destruct (@GraphProps.decide_prompt_returns (Some a) d c nv body Hb) as [p Hp].
  rewrite Hp. unfold Streamlit.call_gemini, call, ret, bind, try_except.
  destruct (generate w key _ _ _ _); cbn [fst snd value]; eexists; reflexivity.
Qed.

Lemma review_step_returns w key a dec body :
  Scraper.text a = Some body ->
  exists r, value (Streamlit.review_step w key a dec) = Return r.
Proof.
  intros Hb. unfold Streamlit.review_step.
  destruct (says_no_violation dec); [eexists; reflexivity|].
  unfold review_prompt. cbn [get_text get_title]. rewrite Hb.
  unfold slice_opt, Streamlit.call_gemini, call, ret, bind, try_except.
  cbn [fst snd app].
  destruct (generate w key _ _ _ _); cbn [fst snd value]; eexists; reflexivity.
Qed.

(** X13.  When the extraction gives no article with a text, the Streamlit
    pipeline returns [None] and does nothing behind the extraction: its
    log is the log of the extractor, with no download of a picture, no
    query to the index and no generation call. *)
Theorem streamlit_stops_after_failed_extraction w u key :
  match value (Scraper.extract_article (scraper w) u) with
  | Return (Some a) => truthy (Scraper.text a)
  | _ => false
  end = false ->
  Streamlit.analyze_article_streamlit w u key
  = (Return None, events (Scraper.extract_article (scraper w) u))
  /\ generations (events (Streamlit.analyze_article_streamlit w u key)) = []
  /\ index_queries (events (Streamlit.analyze_article_streamlit w u key)) = [].
Proof.
  intros H.
  assert (Streamlit.analyze_article_streamlit w u key
          = (Return None, events (Scraper.extract_article (scraper w) u))) as E.
  { unfold Streamlit.analyze_article_streamlit. rewrite extract_step_eq.
    destruct (value (Scraper.extract_article (scraper w) u)) as [[a|]|e];
      [rewrite H| |]; unfold bind, ret; cbn [fst snd]; now rewrite app_nil_r. }
  rewrite E. cbn [events snd].
  destruct (extract_article_log (scraper w) u) as (G & Q & _). now repeat split.
Qed.

Lemma streamlit_stops_after_failed_extraction_witness :
  let w := world (blocked_site 429) [Some NO_VIOLATION] (always DRAFT) in
  Streamlit.analyze_article_streamlit w URL KEY
  = (Return None, events (Scraper.extract_article (scraper w) URL))
  /\ generations (events (Streamlit.analyze_article_streamlit w URL KEY)) = []
  /\ index_queries (events (Streamlit.analyze_article_streamlit w URL KEY)) = [].
Proof.
  intros w. apply (@streamlit_stops_after_failed_extraction w URL KEY).
  vm_compute. reflexivity.
Defined.

(** X14.  The Streamlit pipeline never raises, whatever the site, the
    index and the model do; and a result other than [None] holds the
    article extracted from the URL, whose text is not empty. *)
Theorem streamlit_run_never_raises w u key :
  exists r,
    value (Streamlit.analyze_article_streamlit w u key) = Return r
    /\ forall an, r = Some an ->
       value (Scraper.extract_article (scraper w) u)
       = Return (Some (Streamlit.article an))
       /\ truthy (Scraper.text (Streamlit.article an)) = true.
Proof.
  unfold Streamlit.analyze_article_streamlit.
  rewrite value_bind, extract_step_eq. cbn [value fst].
  destruct (value (Scraper.extract_article (scraper w) u)) as [[a|]|e] eqn:Ea;
    try (exists None; split; [reflexivity|discriminate]).
  destruct (truthy (Scraper.text a)) eqn:Et;
    [|exists None; split; [reflexivity|discriminate]].
  destruct (Scraper.title a) as [shown|];
    [|exists None; split; [reflexivity|discriminate]].
  destruct (truthy_some _ Et) as [body Hb].
  destruct (image_step_returns w key a) as [d Hd].
  destruct (search_step_returns w a Hb) as (c & v & nv & Hs).
  rewrite value_bind, Hd, value_bind, Hs.
  destruct (decide_step_returns w key a d c nv Hb) as [[dec|] Hdec];
    rewrite value_bind, Hdec.
  - destruct (review_step_returns w key a dec Hb) as [fd Hfd].
    rewrite value_bind, Hfd. eexists. split; [reflexivity|].
    intros an [= <-]. now split.
  - exists None. split; [reflexivity|discriminate].
Qed.

End StreamlitRunProps.

(* ================================================================== *)
(** * White space around a decision                                 *)
(* ================================================================== *)

Module StripProps.
Import Py Spec.

Lemma lstrip_suffix (s : str) : exists sp, s = sp ++ lstrip s /\ forallb is_space sp = true.
Proof.
  induction s as [|c s IH]; simpl.
  - now exists [].
  - destruct (is_space c) eqn:E.
    + destruct IH as (sp & Hs & Hsp). exists (c :: sp). simpl.
      rewrite E, Hsp. split; [now rewrite <- Hs|reflexivity].
    + now exists [].
Qed.

Lemma lstrip_head (s : str) c t : lstrip s = c :: t -> is_space c = false.
Proof.
  induction s as [|x s IH]; simpl; [discriminate|].
  destruct (is_space x) eqn:E; [exact IH|]. now intros [= <- _].
Qed.

Lemma lstrip_fixed c t : is_space c = false -> lstrip (c :: t) = c :: t.
Proof. simpl. now intros ->. Qed.

(** [strip] cuts white space off both ends. *)
Lemma strip_parts (s : str) :
  exists pre post, s = pre ++ strip s ++ post.
Proof.
  unfold strip.
  destruct (lstrip_suffix s) as (pre & Hs & _).
  destruct (lstrip_suffix (rev (lstrip s))) as (sp & Hr & _).
  exists pre, (rev sp).
  rewrite Hs at 1. f_equal.
  rewrite <- (rev_involutive (lstrip s)) at 1. rewrite Hr at 1.
  now rewrite rev_app_distr.
Qed.

Lemma last_rev_hd (l : str) d : last l d = hd d (rev l).
Proof.
  destruct l as [|a l] using rev_ind; [reflexivity|].
  now rewrite last_last, rev_app_distr.
Qed.

(** A text is its own [strip] exactly when it is empty or neither
    begins nor ends with white space. *)
Lemma strip_fixed (s : str) :
  s <> [] -> is_space (hd 0%N s) = false -> is_space (last s 0%N) = false ->
  strip s = s.
Proof.
  intros Hne Hh Hl. unfold strip.
  destruct s as [|c t]; [contradiction|]. simpl in Hh.
  rewrite lstrip_fixed by exact Hh.
  rewrite last_rev_hd in Hl.
  remember (rev (c :: t)) as q eqn:E. destruct q as [|x r].
  - apply (f_equal (@rev _)) in E. rewrite rev_involutive in E. discriminate.
  - simpl in Hl. rewrite lstrip_fixed by exact Hl.
    rewrite E. apply rev_involutive.
Qed.

Lemma strip_ends (s : str) :
  strip s = [] \/
  (strip s <> [] /\ is_space (hd 0%N (strip s)) = false
   /\ is_space (last (strip s) 0%N) = false).
Proof.
  unfold strip.
  destruct (lstrip (rev (lstrip s))) as [|x r] eqn:E; [now left|right].
  pose proof (lstrip_head _ E) as Hx.
  split.
  { intros H. apply (f_equal (@rev _)) in H. rewrite rev_involutive in H.
    discriminate. }
  split.
  - (* the head: the head of [lstrip s] *)
    destruct (lstrip_suffix (rev (lstrip s))) as (sp & Hr & _).
    rewrite E in Hr.
    assert (lstrip s = rev (x :: r) ++ rev sp) as Hs.
    { rewrite <- (rev_involutive (lstrip s)), Hr. now rewrite rev_app_distr. }
    destruct (lstrip s) as [|c t] eqn:El.
    { simpl in Hr. destruct sp; discriminate. }
    pose proof (lstrip_head _ El) as Hc.
    remember (rev (x :: r)) as yq eqn:Ey. destruct yq as [|y q].
    { apply (f_equal (@rev _)) in Ey. rewrite rev_involutive in Ey. discriminate. }
    cbn [app] in Hs. injection Hs as Hy _. subst y. exact Hc.
  - rewrite last_rev_hd, rev_involutive. exact Hx.
Qed.

Lemma strip_idem (s : str) : strip (strip s) = strip s.
Proof.
  destruct (strip_ends s) as [E|(Hne & Hh & Hl)].
  - rewrite E. reflexivity.
  - now apply strip_fixed.
Qed.

End StripProps.

Module TrimProps.
Import Py Re Regulation CitationScan Spec StripProps StepProps.

Lemma last_behind (a : str) x b d : last (a ++ x :: b) d = last (x :: b) d.
Proof.
  induction a as [|y a IH]; [reflexivity|].
  cbn [app]. rewrite <- IH.
  destruct (a ++ x :: b) eqn:E; [destruct a; discriminate|reflexivity].
Qed.

Lemma glyph_not_space g : is_glyph g = true -> is_space g = false.
Proof.
  unfold is_glyph, GLYPHS. cbn [existsb]. intros H.
  repeat (apply orb_true_iff in H; destruct H as [H|H];
          [apply N.eqb_eq in H; subst g; reflexivity|]).
  discriminate.
Qed.

Lemma citation_last num name g tail :
  last (citation num name g tail) 0%N = last (g :: tail) 0%N.
Proof.
  unfold citation.
  change (JE :: num ++ JO :: LB :: name ++ RB :: g :: tail)
    with ((JE :: num) ++ JO :: LB :: name ++ RB :: g :: tail).
  rewrite last_behind.
  change (JO :: LB :: name ++ RB :: g :: tail)
    with ((JO :: LB :: name) ++ RB :: g :: tail).
  rewrite last_behind. reflexivity.
Qed.

(** What replaces a match ends as the match does, with the ordinal or
    with a closing parenthesis. *)
Lemma canonical_ends num g orig :
  is_glyph g = true ->
  orig <> [] -> is_space (last orig 0%N) = false ->
  canonical num g orig <> []
  /\ is_space (last (canonical num g orig) 0%N) = false.
Proof.
  intros Hg Hne Hl. unfold canonical.
  destruct (dict_get str_eqb REGULATION_DICT num) as [art|]; [|now split].
  destruct (dict_get str_eqb (items art) [g]) as [c|].
  - split; [discriminate|]. rewrite citation_last.
    change (g :: LP :: c ++ [RP]) with ((g :: LP :: c) ++ [RP]).
    rewrite last_behind. reflexivity.
  - split; [discriminate|]. rewrite citation_last. cbn [last].
    now apply glyph_not_space.
Qed.

Lemma correct_ends : forall n (t : str),
  length t <= n ->
  t <> [] -> is_space (last t 0%N) = false ->
  correct_article_reference t <> []
  /\ is_space (last (correct_article_reference t) 0%N) = false.
Proof.
  induction n as [|n IH]; intros t Hn Hne Hl.
  - destruct t; [contradiction|simpl in Hn; lia].
  - rewrite correct_step.
    destruct (cite_here t) as [[[[num name] gl] rest]|] eqn:E.
    + destruct (cite_here_sound _ E) as (g & tail & -> & Ht & _ & _ & _ & _ & Hg & _).
      cbn [hd]. subst t. rewrite Soundness.firstn_app_length.
      destruct rest as [|r0 rest].
      * rewrite IdemProps.correct_nil, app_nil_r.
        rewrite app_nil_r in Hl, Hne.
        now apply canonical_ends.
      * assert (is_space (last (r0 :: rest) 0%N) = false) as Hl'
          by (rewrite last_behind in Hl; exact Hl).
        destruct (IH (r0 :: rest)) as [Hc Hs]; [|discriminate|exact Hl'|].
        { rewrite length_app in Hn. unfold citation in Hn.
          cbn [length] in Hn |- *. lia. }
        split.
        -- intros H. apply app_eq_nil in H. tauto.
        -- destruct (correct_article_reference (r0 :: rest)) as [|y q] eqn:Ec;
             [contradiction|].
           now rewrite last_behind.
    + destruct t as [|c s]; [contradiction|].
      split; [discriminate|].
      destruct s as [|c' s].
      * rewrite IdemProps.correct_nil. exact Hl.
      * destruct (IH (c' :: s)) as [Hc Hs]; [simpl in *; lia|discriminate|exact Hl|].
        destruct (correct_article_reference (c' :: s)) as [|y q] eqn:Ec;
          [contradiction|].
        exact Hs.
Qed.

(** The corrector keeps a text free of white space at its ends. *)
Lemma correct_trimmed (t : str) :
  strip t = t ->
  strip (correct_article_reference t) = correct_article_reference t.
Proof.
  intros Ht. destruct t as [|c s].
  - rewrite IdemProps.correct_nil. reflexivity.
  - destruct (strip_ends (c :: s)) as [E|(_ & Hh & Hl)]; rewrite Ht in *;
      [discriminate|].
    destruct (@correct_ends (length (c :: s)) (c :: s) (le_n _)) as [Hne Hs];
      [discriminate|exact Hl|].
    destruct (IdemProps.correct_head c s) as [r Hr].
    apply strip_fixed; [exact Hne| |exact Hs].
    rewrite Hr. exact Hh.
Qed.

(** A corrected text without [제] is the text that was corrected. *)
Lemma correct_without_je : forall n (t : str),
  length t <= n ->
  existsb (N.eqb JE) (correct_article_reference t) = false ->
  correct_article_reference t = t.
Proof.
  induction n as [|n IH]; intros t Hn H.
  - destruct t; [apply IdemProps.correct_nil|simpl in Hn; lia].
  - rewrite correct_step in H |- *.
    destruct (cite_here t) as [[[[num name] gl] rest]|] eqn:E.
    + exfalso.
      destruct (cite_here_sound _ E) as (g & tail & -> & Ht & _).
      cbn [hd] in H. subst t. rewrite Soundness.firstn_app_length in H.
      rewrite existsb_app in H. apply orb_false_iff in H. destruct H as [H _].
      unfold canonical in H.
      destruct (dict_get str_eqb REGULATION_DICT num) as [art|];
        [destruct (dict_get str_eqb (items art) [g])|];
        unfold citation in H; cbn [existsb] in H;
        rewrite N.eqb_refl in H; discriminate.
    + destruct t as [|c s]; [reflexivity|].
      cbn [existsb] in H. apply orb_false_iff in H. destruct H as [_ H].
      f_equal. apply IH; [simpl in Hn; lia|exact H].
Qed.

End TrimProps.

Module VerdictProps.
Import Py Effects Regulation Prompts Spec Pipeline Scenarios StripProps TrimProps.

Lemma str_eqb_eq (a b : str) : str_eqb a b = true <-> a = b.
Proof.
  unfold str_eqb. destruct (list_eq_dec N.eq_dec a b); split; congruence.
Qed.

Lemma returned A (a b : A) (l l' : list event) :
  (Return a, l) = (Return b, l') -> a = b.
Proof. congruence. Qed.

Lemma verdict_clear fd :
  Ui.verdict fd = NO_VIOLATION <-> strip fd = NO_VIOLATION.
Proof.
  unfold Ui.verdict. destruct (str_eqb (strip fd) NO_VIOLATION) eqn:E.
  - apply str_eqb_eq in E. now split.
  - split; intros H.
    + apply (f_equal (@length _)) in H. vm_compute in H. discriminate.
    + apply str_eqb_eq in H. congruence.
Qed.

Lemma marker_in_stripped (s : str) :
  strip s = NO_VIOLATION -> says_no_violation s = true.
Proof.
  intros H. apply ReviewProps.says_no_violation_spec. left.
  destruct (strip_parts s) as (pre & post & E). rewrite H in E.
  now exists pre, post.
Qed.

(** X15.  A decision that passed the review has no white space at either
    end: it is the canonical marker, or the answer of the model
    stripped and then corrected, and the corrector keeps the ends of a
    text.  The Review node never raises and sets nothing but
    [review_result]. *)
Theorem reviewed_decision_is_trimmed w key st body :
  get_text (article st) = Some body ->
  exists rr l,
    review_node w key st = (Return (set_review_result rr st), l)
    /\ (passed rr = true ->
        strip (final_decision rr) = final_decision rr).
Proof.
  intros Ht. unfold review_node.
  destruct (says_no_violation _).
  - eexists; eexists; split; [reflexivity|]. intros _. reflexivity.
  - unfold review_prompt. rewrite Ht.
    unfold slice_opt, bind, call_gemini, call, ret, try_except.
    destruct (generate w key _ _ _ _) as [d|e]; cbn [fst snd];
      (eexists; eexists; split; [reflexivity|]); cbn [passed final_decision].
    + intros _. apply correct_trimmed, strip_idem.
    + discriminate.
Qed.

Lemma reviewed_decision_is_trimmed_witness :
  let w := world (site PLAIN_ARTICLE) [] (always (NL :: DRAFT ++ [NL])) in
  exists rr l,
    review_node w KEY (drafted DRAFT)
    = (Return (set_review_result rr (drafted DRAFT)), l)
    /\ (passed rr = true ->
        strip (final_decision rr) = final_decision rr).
Proof.
  intros w. apply (@reviewed_decision_is_trimmed w KEY (drafted DRAFT) BODY).
  reflexivity.
Defined.

(** X16.  What the result page of the Streamlit application shows after
    the Review step.  The page reports no violation exactly when the
    draft carried a no-violation marker, or the review call answered
    and its answer without the white space around it is the canonical
    marker.  In particular a draft that is returned because the review
    call failed is always reported as a violation. *)
Theorem verdict_after_review w key a draft body :
  Scraper.text a = Some body ->
  exists final,
    value (Streamlit.review_step w key a draft) = Return final
    /\ (Ui.verdict final = NO_VIOLATION <->
        says_no_violation draft = true
        \/ exists prompt answer,
             review_prompt (Some a) draft = (Return prompt, [])
             /\ generate w key Streamlit.MODEL_NAME prompt None T0_0
                = Return answer
             /\ strip answer = NO_VIOLATION).
Proof.
  intros Ht. unfold Streamlit.review_step.
  destruct (says_no_violation draft) eqn:Es.
  { exists NO_VIOLATION. split; [reflexivity|].
    split; [now left|intros _; reflexivity]. }
  unfold review_prompt. cbn [get_text get_title]. rewrite Ht.
  unfold slice_opt, bind, Streamlit.call_gemini, call, ret, try_except.
  cbn [fst snd app].
  destruct (generate w key Streamlit.MODEL_NAME _ None T0_0) as [r|e] eqn:Eg;
    cbn [fst snd value]; eexists; (split; [reflexivity|]).
  - rewrite verdict_clear. split.
    + intros H. right. eexists; eexists. split; [reflexivity|].
      split; [exact Eg|].
      rewrite (correct_trimmed (strip_idem r)) in H.
      rewrite <- H. symmetry. apply (@correct_without_je (length (strip r))).
      * apply le_n.
      * rewrite H. reflexivity.
    + intros [H|(p & r' & Hp & Hg & Hr)]; [discriminate|].
      apply returned in Hp. subst p. rewrite Eg in Hg.
      assert (r = r') as -> by congruence.
      rewrite Hr. reflexivity.
  - rewrite verdict_clear. split.
    + intros H. apply marker_in_stripped in H. congruence.
    + intros [H|(p & r' & Hp & Hg & Hr)]; [discriminate|].
      apply returned in Hp. subst p. rewrite Eg in Hg. discriminate.
Qed.

Lemma verdict_after_review_witness :
  let w := world (site PLAIN_ARTICLE) [] never in
  exists final,
    value (Streamlit.review_step w KEY PLAIN_ARTICLE DRAFT) = Return final
    /\ (Ui.verdict final = NO_VIOLATION <->
        says_no_violation DRAFT = true
        \/ exists prompt answer,
             review_prompt (Some PLAIN_ARTICLE) DRAFT = (Return prompt, [])
             /\ generate w KEY Streamlit.MODEL_NAME prompt None T0_0
                = Return answer
             /\ strip answer = NO_VIOLATION).
Proof.
  intros w. apply (@verdict_after_review w KEY PLAIN_ARTICLE DRAFT BODY).
  reflexivity.
Defined.

End VerdictProps.

(* ================================================================== *)
(** * The parser of the regulation text                             *)
(* ================================================================== *)

Module ItemProps.
Import Py Re Regulation CitationScan ItemLayout EngineProps.

(** A greedy class repetition in front of a continuation that accepts
    takes the longest run. *)
Lemma greedy_cls_longest p (k : cont) : forall (s : str) g,
  k (dropw p s) g <> None ->
  greedy_cls p s g k = k (dropw p s) g.
Proof.
  induction s as [|c s IH]; intros g H; cbn [greedy_cls dropw] in *;
    [reflexivity|].
  destruct (p c); [|reflexivity].
  rewrite (IH g H). destruct (k (dropw p s) g); [reflexivity|contradiction].
Qed.

(** The match of [ITEM_PATTERN] at the head of a text. *)
Lemma item_match_here (s : str) :
  match_here ITEM_PATTERN s =
  match s with
  | g :: c :: s' =>
      if is_glyph g && not_glyph c
      then Some (mkMatch (g :: c :: takew not_glyph s')
                   [(2, c :: takew not_glyph s'); (1, [g])]
                   (dropw not_glyph s'))
      else None
  | _ => None
  end.
Proof.
  unfold match_here, re_match, ITEM_PATTERN.
  rewrite rmatch_Cat, rmatch_Grp, rmatch_Cls.
  destruct s as [|g s1]; [reflexivity|].
  destruct (is_glyph g) eqn:Eg; [|destruct s1; reflexivity]. cbn [andb].
  rewrite rmatch_Grp, rmatch_Plus, rmatch_Cls.
  destruct s1 as [|c s']; [reflexivity|].
  destruct (not_glyph c) eqn:Ec; [|reflexivity].
  rewrite star_cls by apply le_n.
  rewrite greedy_cls_longest by discriminate.
  unfold final. cbn [m_text nonempty].
  replace (length (g :: c :: s') - length (c :: s')) with 1
    by (cbn [length]; lia).
  cbn [firstn].
  rewrite firstn_takew_cons.
  assert (length (g :: c :: s') - length (dropw not_glyph s')
          = S (length (c :: s') - length (dropw not_glyph s'))) as ->.
  { pose proof (dropw_length not_glyph s'). cbn [length]. lia. }
  cbn [firstn]. rewrite firstn_takew_cons. reflexivity.
Qed.


Lemma takew_whole p (s : str) : forallb p s = true -> takew p s = s.
Proof.
  induction s as [|c s IH]; cbn [forallb takew]; [reflexivity|].
  intros H. apply andb_prop in H. destruct H as [-> H]. now rewrite IH.
Qed.

Lemma dropw_whole p (s : str) : forallb p s = true -> dropw p s = [].
Proof.
  induction s as [|c s IH]; cbn [forallb dropw]; [reflexivity|].
  intros H. apply andb_prop in H. destruct H as [-> H]. now apply IH.
Qed.

Lemma readable_parts it :
  readable it = true ->
  is_glyph (fst it) = true
  /\ exists c cs, snd it = c :: cs /\ not_glyph c = true
                  /\ forallb not_glyph cs = true.
Proof.
  unfold readable. intros H.
  apply andb_prop in H. destruct H as [H Hf].
  apply andb_prop in H. destruct H as [Hg Hn].
  split; [exact Hg|].
  destruct (snd it) as [|c cs]; [discriminate|].
  cbn [forallb] in Hf. apply andb_prop in Hf. destruct Hf as [Hc Hcs].
  now exists c, cs.
Qed.

(** Behind the text of an item the layout goes on with a glyph or
    ends. *)
Lemma layout_run cs rest :
  forallb not_glyph cs = true ->
  forallb readable rest = true ->
  takew not_glyph (cs ++ layout rest) = cs
  /\ dropw not_glyph (cs ++ layout rest) = layout rest.
Proof.
  intros Hcs Hr. destruct rest as [|it rest].
  - cbn [layout flat_map]. rewrite app_nil_r.
    split; [now apply takew_whole|now apply dropw_whole].
  - cbn [forallb] in Hr. apply andb_prop in Hr. destruct Hr as [Hit _].
    destruct (readable_parts _ Hit) as (Hg & _).
    cbn [layout flat_map app].
    assert (not_glyph (fst it) = false) as Hn
      by (unfold not_glyph; now rewrite Hg).
    split; [now apply StepProps.takew_stop|now apply StepProps.dropw_stop].
Qed.

Lemma finditer_skip (c : char) (s : str) :
  is_glyph c = false ->
  re_finditer ITEM_PATTERN (c :: s) = re_finditer ITEM_PATTERN s.
Proof.
  intros H. rewrite IdemProps.re_finditer_step, item_match_here.
  destruct s; rewrite ?H; reflexivity.
Qed.

Lemma finditer_lead lead s :
  forallb not_glyph lead = true ->
  re_finditer ITEM_PATTERN (lead ++ s) = re_finditer ITEM_PATTERN s.
Proof.
  induction lead as [|c lead IH]; cbn [forallb app]; [reflexivity|].
  intros H. apply andb_prop in H. destruct H as [Hc H].
  rewrite finditer_skip; [now apply IH|].
  unfold not_glyph in Hc. now apply negb_true_iff in Hc.
Qed.

(** The matches of [ITEM_PATTERN] in a layout: one per item, with the
    glyph and the text of the item as its groups. *)
Lemma finditer_layout items :
  forallb readable items = true ->
  map (fun m => (m_group m 1, m_group m 2))
      (re_finditer ITEM_PATTERN (layout items))
  = map (fun it => ([fst it], snd it)) items.
Proof.
  induction items as [|it rest IH]; intros H; [reflexivity|].
  cbn [forallb] in H. apply andb_prop in H. destruct H as [Hit Hr].
  destruct (readable_parts _ Hit) as (Hg & c & cs & Hs & Hc & Hcs).
  destruct (layout_run cs rest Hcs Hr) as [Ht Hd].
  change (layout (it :: rest)) with (fst it :: snd it ++ layout rest).
  cbn [map]. rewrite Hs. cbn [app].
  rewrite IdemProps.re_finditer_step, item_match_here.
  rewrite Hg, Hc. cbn [andb m_rest map].
  rewrite Ht, Hd, (IH Hr). reflexivity.
Qed.

Lemma parse_items_fold (t : str) :
  parse_items t =
  fold_left (fun d kv => dict_set str_eqb d (fst kv) (strip (snd kv)))
    (map (fun m => (m_group m 1, m_group m 2)) (re_finditer ITEM_PATTERN t))
    [].
Proof.
  unfold parse_items. generalize (@nil (str * str)).
  induction (re_finditer ITEM_PATTERN t) as [|m ms IH]; intros d;
    [reflexivity|].
  cbn [fold_left map fst snd]. apply IH.
Qed.

Lemma str_eqb_single a b : str_eqb [a] [b] = (a =? b)%N.
Proof.
  unfold str_eqb. destruct (list_eq_dec N.eq_dec [a] [b]) as [E|E].
  - injection E as ->. now rewrite N.eqb_refl.
  - destruct (a =? b)%N eqn:Eab; [|reflexivity].
    apply N.eqb_eq in Eab. subst. contradiction.
Qed.

Lemma dict_set_fresh (d : list item) g v :
  ~ In g (map fst d) ->
  dict_set str_eqb (map entry d) [g] v = map entry d ++ [([g], v)].
Proof.
  induction d as [|it d IH]; intros H; [reflexivity|].
  cbn [map dict_set entry fst]. rewrite str_eqb_single.
  destruct (g =? fst it)%N eqn:E.
  - apply N.eqb_eq in E. exfalso. apply H. left. now rewrite E.
  - cbn [app]. f_equal. apply IH. intros Hin. apply H. now right.
Qed.

Lemma fold_entries items : forall done,
  NoDup (map fst (done ++ items)) ->
  fold_left (fun d kv => dict_set str_eqb d (fst kv) (strip (snd kv)))
    (map (fun it : item => ([fst it], snd it)) items) (map entry done)
  = map entry (done ++ items).
Proof.
  induction items as [|it rest IH]; intros done H.
  - now rewrite app_nil_r.
  - cbn [map fold_left fst snd].
    rewrite dict_set_fresh.
    + change (map entry done ++ [([fst it], strip (snd it))])
        with (map entry done ++ map entry [it]).
      rewrite <- map_app.
      replace (done ++ it :: rest) with ((done ++ [it]) ++ rest)
        by (now rewrite <- app_assoc).
      apply IH. now rewrite <- app_assoc.
    + rewrite map_app in H. cbn [map] in H.
      apply NoDup_remove_2 in H. intros Hin. apply H.
      apply in_or_app. now left.
Qed.

(** X17.  [parse_items] reads back the layout of the regulation text.  A
    text made of a lead without ordinal glyph and of items, each an
    ordinal glyph followed by a text that is not empty and has no
    ordinal glyph, no ordinal twice, is parsed to the dictionary of
    these items in their order: the key is the glyph, the value the
    text of the item without the white space around it. *)
Theorem parse_items_reads_layout lead items :
  forallb not_glyph lead = true ->
  forallb readable items = true ->
  NoDup (map fst items) ->
  parse_items (lead ++ layout items) = map entry items.
Proof.
  intros Hl Hr Hn.
  rewrite parse_items_fold, finditer_lead by exact Hl.
  rewrite (finditer_layout _ Hr).
  exact (fold_entries items [] Hn).
Qed.

Lemma parse_items_reads_layout_witness :
  parse_items ([] ++ layout ARTICLE_4_ITEMS) = map entry ARTICLE_4_ITEMS.
Proof.
  apply (@parse_items_reads_layout [] ARTICLE_4_ITEMS).
  - reflexivity.
  - reflexivity.
  - repeat constructor; cbn; intuition discriminate.
Defined.

End ItemProps.

Module LineProps.
Import Py Re Regulation CitationScan ItemLayout EngineProps ItemProps.

Lemma parse_regulation_dict_loop :
  parse_regulation_dict = fold_left parse_line (split NL REGULATION) [].
Proof. reflexivity. Qed.

(** The match of [LINE_PATTERN] on a line whose three parts are as the
    pattern wants them. *)
Lemma line_match num name (text : str) :
  num <> [] -> forallb is_decimal num = true ->
  name <> [] -> forallb not_RB name = true ->
  text <> [] -> forallb dot text = true ->
  rmatch LINE_PATTERN (JE :: num ++ JO :: LB :: name ++ RB :: text) [] final
  = Some ([], [(3, text); (2, name); (1, num)]).
Proof.
  intros Hn Hd Hm Hb Ht Hdot. unfold LINE_PATTERN.
  destruct num as [|d ds]; [contradiction|].
  destruct name as [|n0 ns]; [contradiction|].
  destruct text as [|t0 ts]; [contradiction|].
  cbn [forallb] in Hd, Hb, Hdot.
  apply andb_prop in Hd, Hb, Hdot.
  destruct Hd as [Hd Hds], Hb as [Hb Hns], Hdot as [Ht0 Hts].
  rewrite rmatch_Cat, rmatch_Lit, N.eqb_refl.
  rewrite rmatch_Cat, plus_cls_det.
  2:{ intros c t g Hc. rewrite rmatch_Cat, rmatch_Lit.
      now rewrite (CiteProps.decimal_not_JO _ Hc). }
  cbn [app]. rewrite Hd.
  rewrite StepProps.dropw_stop, StepProps.takew_stop by (assumption || reflexivity).
  rewrite rmatch_Cat, rmatch_Lit, N.eqb_refl.
  rewrite rmatch_Cat, rmatch_Lit, N.eqb_refl.
  rewrite rmatch_Cat, plus_cls_det.
  2:{ intros c t g Hc. rewrite rmatch_Cat, rmatch_Lit.
      now rewrite (CiteProps.not_RB_not_RB _ Hc). }
  rewrite Hb.
  assert (not_RB RB = false) as HRB by reflexivity.
  rewrite StepProps.dropw_stop, StepProps.takew_stop by assumption.
  rewrite rmatch_Cat, rmatch_Lit, N.eqb_refl.
  rewrite rmatch_Grp, rmatch_Plus, rmatch_Cls, Ht0.
  rewrite star_cls by apply le_n.
  rewrite greedy_cls_longest by discriminate.
  rewrite (dropw_whole _ _ Hts). unfold final.
  cbn [length]. rewrite Nat.sub_0_r.
  change (S (length ts)) with (length (t0 :: ts)).
  now rewrite firstn_all.
Qed.


Lemma layout_nonempty items :
  items <> [] -> forallb readable items = true -> layout items <> [].
Proof.
  destruct items as [|it rest]; [contradiction|]. intros _ _. discriminate.
Qed.

(** X18.  One round of the loop of [parse_regulation_dict].  A line
    [제N조「name」items], where N is a run of decimal digits, the name is
    not empty and has no closing bracket, and the items are ordinal
    glyphs each followed by a text without glyph and without line
    break, no ordinal twice, sets the entry N of the dictionary to the
    name and the items in their order, each text stripped; an entry
    that N had before is replaced in its place.  The knowledge base is
    this round folded over the lines of the regulation text. *)
Theorem parse_line_reads_article articles num name items :
  num <> [] -> forallb is_decimal num = true ->
  name <> [] -> forallb not_RB name = true ->
  items <> [] -> forallb readable items = true ->
  NoDup (map fst items) ->
  forallb dot (layout items) = true ->
  parse_line articles (article_row num name items)
  = dict_set str_eqb articles num (mkArticle name (map entry items))
  /\ parse_regulation_dict = fold_left parse_line (split NL REGULATION) [].
Proof.
  intros Hn Hd Hm Hb Hi Hr Hu Hdot. split; [|reflexivity].
  unfold parse_line, article_row, re_match.
  cbn [startswith]. rewrite N.eqb_refl. cbn [andb].
  rewrite (line_match Hn Hd Hm Hb (layout_nonempty Hi Hr) Hdot).
  cbv zeta.
  change (m_group (mkMatch ?t [(3, layout items); (2, name); (1, num)] []) 1)
    with num.
  cbn [m_group group dict_get Nat.eqb m_groups].
  f_equal. f_equal.
  rewrite parse_items_fold, (finditer_layout _ Hr).
  exact (fold_entries items [] Hu).
Qed.

Lemma parse_line_reads_article_witness :
  parse_line [] (article_row ARTICLE_4_NUMBER ARTICLE_4_NAME ARTICLE_4_ITEMS)
  = dict_set str_eqb [] ARTICLE_4_NUMBER
      (mkArticle ARTICLE_4_NAME (map entry ARTICLE_4_ITEMS))
  /\ parse_regulation_dict = fold_left parse_line (split NL REGULATION) [].
Proof.
  apply (@parse_line_reads_article [] ARTICLE_4_NUMBER ARTICLE_4_NAME
           ARTICLE_4_ITEMS); try discriminate; try reflexivity.
  repeat constructor; cbn; intuition discriminate.
Defined.

(** The row of article 4 is what the knowledge base holds for it. *)
Example article_4_of_the_knowledge_base :
  dict_get str_eqb REGULATION_DICT ARTICLE_4_NUMBER
  = Some (mkArticle ARTICLE_4_NAME (map entry ARTICLE_4_ITEMS))
  /\ In (article_row ARTICLE_4_NUMBER ARTICLE_4_NAME ARTICLE_4_ITEMS)
        (split NL REGULATION).
Proof. split; vm_compute; [reflexivity|tauto]. Qed.

End LineProps.

Module KeyProps.
Import Py Re Regulation CitationScan Samples.

Lemma str_eqb_true (a b : str) : str_eqb a b = true -> a = b.
Proof. unfold str_eqb. destruct (list_eq_dec N.eq_dec a b); congruence. Qed.

Lemma dict_get_key V (d : dict str V) k v :
  dict_get str_eqb d k = Some v -> In k (map fst d).
Proof.
  induction d as [|[k' v'] d IH]; cbn [dict_get map fst]; [discriminate|].
  destruct (str_eqb k k') eqn:E.
  - intros _. left. symmetry. now apply str_eqb_true.
  - intros H. right. now apply IH.
Qed.

(** The keys of the knowledge base are the numbers 1 to 16 as [str]
    writes them. *)
Lemma regulation_keys :
  map fst REGULATION_DICT = map str_of_nat (seq 1 16).
Proof. vm_compute. reflexivity. Qed.

(** X19.  The article number of a citation is looked up as text.  A
    match of the citation pattern whose number is not exactly one of
    1 to 16 as [str] writes them (03, a number in full-width digits,
    17) is left as it is, qualifier and parentheticals included, though
    [\d+] has matched it; the scan goes on behind the match. *)
Theorem number_is_looked_up_as_text s m :
  match_here CITATION_PATTERN s = Some m ->
  (forall n, 1 <= n <= 16 -> m_group m 1 <> str_of_nat n) ->
  correct_article_reference s
  = m_text m ++ correct_article_reference (m_rest m).
Proof.
  intros Hm Hn. unfold correct_article_reference.
  rewrite Soundness.re_sub_step. destruct s as [|c s'].
  - discriminate Hm.
  - rewrite Hm. f_equal. unfold replace_match.
    destruct (dict_get str_eqb REGULATION_DICT (m_group m 1)) as [art|] eqn:E;
      [|reflexivity].
    exfalso. apply dict_get_key in E. rewrite regulation_keys in E.
    apply in_map_iff in E. destruct E as (n & En & Hin).
    apply in_seq in Hin. apply (Hn n); [lia|now symmetry].
Qed.

Lemma keys_from_digits n : 1 <= n <= 16 ->
  hd 0%N (str_of_nat n) <> 48%N /\ forallb Spec.digit (str_of_nat n) = true.
Proof.
  intros H.
  assert (In n (seq 1 16)) as Hin by (apply in_seq; lia).
  revert Hin. generalize n. apply Forall_forall.
  repeat constructor; vm_compute; discriminate.
Qed.

Lemma number_is_looked_up_as_text_witness :
  correct_article_reference ZERO_PADDED = ZERO_PADDED
  /\ correct_article_reference FULL_WIDTH = FULL_WIDTH.
Proof.
  split.
  - destruct (match_here CITATION_PATTERN ZERO_PADDED) as [m|] eqn:E;
      [|vm_compute in E; discriminate].
    rewrite (@number_is_looked_up_as_text ZERO_PADDED m E).
    + vm_compute in E. injection E as <-. vm_compute. reflexivity.
    + intros n Hn Heq. destruct (keys_from_digits Hn) as [H0 _].
      rewrite <- Heq in H0. vm_compute in E. injection E as <-.
      apply H0. reflexivity.
  - destruct (match_here CITATION_PATTERN FULL_WIDTH) as [m|] eqn:E;
      [|vm_compute in E; discriminate].
    rewrite (@number_is_looked_up_as_text FULL_WIDTH m E).
    + vm_compute in E. injection E as <-. vm_compute. reflexivity.
    + intros n Hn Heq. destruct (keys_from_digits Hn) as [_ Hd].
      rewrite <- Heq in Hd. vm_compute in E. injection E as <-.
      vm_compute in Hd. discriminate.
Defined.

End KeyProps.
